(** * The gensim demonstration scripts, as straight-line Python programs

    The repository holds three Python modules under [gensim/]:
    - [gs_similarity.py]: loads a pre-trained word-vector mapping and
      queries it;
    - [gs_train_model.py]: trains a mapping from a toy corpus;
    - [gensim_exm.py]: a module whose only statement is a docstring.

    The scripts are glue code: every computational step is a call into
    the external library.  The development therefore embeds
    - the Python values the scripts handle,
    - the fragment of Python the scripts are written in (abstract
      syntax and a big-step interpreter with exceptions), and
    - the external library as a parameter: a transition function on
      a store of keyed-vector mappings.
    Each script is transcribed statement by statement, with its source
    line numbers. *)

From Stdlib Require Import ZArith Lia Bool List Ascii String Sorted.
From Stdlib Require Import Floats.
From stdpp Require Import base option list strings gmap sorting.

Set Warnings "-inexact-float,-register-all,-clear-no-such-hyp".

Local Open Scope string_scope.
Local Open Scope Z_scope.

(** ** Python strings: the [str] methods the scripts call *)

Module PyStr.

(** [str.lower()] on the ASCII range. *)
Definition lower_ascii (c : ascii) : ascii :=
  let n := nat_of_ascii c in
  if ((65 <=? n) && (n <=? 90))%nat then ascii_of_nat (n + 32) else c.

Fixpoint lower (s : string) : string :=
  match s with
  | EmptyString => EmptyString
  | String c r => String (lower_ascii c) (lower r)
  end.

(** Python's whitespace for [str.split()] without arguments
    (ASCII range): space, \t, \n, \v, \f, \r and the separators
    0x1c-0x1f. *)
Definition is_space (c : ascii) : bool :=
  let n := nat_of_ascii c in
  ((n =? 32) || ((9 <=? n) && (n <=? 13)) || ((28 <=? n) && (n <=? 31)))%nat.

(** [split_go cur s]: [cur] is the word being read, reversed. *)
Fixpoint split_go (cur : list ascii) (s : string) : list string :=
  match s with
  | EmptyString =>
      match cur with
      | [] => []
      | _ => [string_of_list_ascii (rev cur)]
      end
  | String c r =>
      if is_space c then
        match cur with
        | [] => split_go [] r
        | _ => string_of_list_ascii (rev cur) :: split_go [] r
        end
      else split_go (c :: cur) r
  end.

(** [str.split()] with no separator: runs of whitespace separate the
    words, and no empty word is produced. *)
Definition split (s : string) : list string := split_go [] s.

Definition digit_char (d : Z) : ascii := ascii_of_nat (48 + Z.to_nat d).

(** Decimal digits of a natural number [n], most significant first;
    [fuel] bounds the number of digits. *)
Fixpoint digits_go (fuel : nat) (n : Z) (acc : list ascii) : list ascii :=
  match fuel with
  | O => acc
  | S f =>
      if n <? 10 then digit_char n :: acc
      else digits_go f (n / 10) (digit_char (n mod 10) :: acc)
  end.

Definition digits (n : Z) : list ascii :=
  digits_go (S (Z.to_nat (Z.log2 n))) n [].

(** [str(n)] for an [int]. *)
Definition of_int (n : Z) : string :=
  if n <? 0 then String "-" (string_of_list_ascii (digits (- n)))
  else string_of_list_ascii (digits n).

(** Fixed-point rendering of [n / 10^prec] for a natural [n]: at least
    one digit before the point, exactly [prec] after it, and no point
    when [prec] is 0. *)
Definition fixed_of_scaled (prec : nat) (n : Z) : string :=
  let ds := digits n in
  let ds := (repeat "0"%char (S prec - List.length ds) ++ ds)%list in
  let k := (List.length ds - prec)%nat in
  string_of_list_ascii
    (take k ds ++ match prec with O => [] | _ => "."%char :: drop k ds end)%list.

(** Round [num / den] to the nearest integer, ties to even
    ([num >= 0], [den > 0]). *)
Definition round_half_even (num den : Z) : Z :=
  let q := num / den in
  let r := num mod den in
  if (den <? 2 * r) || ((den =? 2 * r) && Z.odd q) then q + 1 else q.

(** [format(z, '.<prec>f')] for an [int] that a [float] holds
    exactly: Python converts the [int] to a [float] first. *)
Definition format_fixed_int (prec : nat) (z : Z) : string :=
  let body := fixed_of_scaled prec (Z.abs z * 10 ^ Z.of_nat prec) in
  if z <? 0 then String "-" body else body.

(** [format(x, '.<prec>f')] for a [float]: the exact binary value,
    correctly rounded (ties to even) to [prec] decimals. *)
Definition format_fixed (prec : nat) (x : float) : string :=
  match Prim2SF x with
  | S754_nan => "nan"
  | S754_infinity s => if s then "-inf" else "inf"
  | S754_zero s =>
      let body := fixed_of_scaled prec 0 in
      if s then String "-" body else body
  | S754_finite s m e =>
      let p := 10 ^ Z.of_nat prec in
      let n :=
        if 0 <=? e then Z.pos m * 2 ^ e * p
        else round_half_even (Z.pos m * p) (2 ^ (- e)) in
      let body := fixed_of_scaled prec n in
      if s then String "-" body else body
  end.

End PyStr.

Example lower_obama :
  PyStr.split (PyStr.lower "Obama speaks to the media in Illinois")
  = ["obama"; "speaks"; "to"; "the"; "media"; "in"; "illinois"].
Proof. reflexivity. Qed.

Example split_meals :
  PyStr.split "breakfast cereal dinner lunch"
  = ["breakfast"; "cereal"; "dinner"; "lunch"].
Proof. reflexivity. Qed.

Example format_fixed_queen : PyStr.format_fixed 4 0.7699%float = "0.7699".
Proof. vm_compute. reflexivity. Qed.

Example format_fixed_half_even : PyStr.format_fixed 0 2.5%float = "2".
Proof. vm_compute. reflexivity. Qed.

Example format_fixed_wmd : PyStr.format_fixed 4 3.48927%float = "3.4893".
Proof. vm_compute. reflexivity. Qed.

Example format_fixed_neg_zero : PyStr.format_fixed 1 (-0.0)%float = "-0.0".
Proof. vm_compute. reflexivity. Qed.

Example format_fixed_int_ex : PyStr.format_fixed_int 4 (-3) = "-3.0000".
Proof. vm_compute. reflexivity. Qed.

(** ** Values, exceptions and the external library *)

(** Python values, as far as the scripts handle them.  Objects owned
    by the external library (modules, functions, classes, models,
    keyed-vector mappings, bound methods of these) are opaque
    references [VObj]; a 1-D numpy array is kept by value. *)
Inductive value : Type :=
| VNone
| VBool (b : bool)
| VInt (z : Z)
| VFloat (x : float)
| VStr (s : string)
| VList (l : list value)
| VTuple (l : list value)
| VArray (a : list float)
| VObj (addr : nat)
| VMethod (self : value) (name : string)
| VBuiltin (name : string).

(** An exception: the name of its class and its message. *)
Record exn : Type := Exn { exn_type : string; exn_msg : string }.

(** The "keyed vectors" structure as [gensim_exm.py] (lines 8-9)
    describes it: a mapping between entities, identified by their
    string id, and 1-D arrays, {str => 1D numpy array}; with the
    dimensionality the mapping was configured with. *)
Record KeyedVectors : Type := KV {
  vector_size : nat;
  vectors : gmap string (list float)
}.

(** What lives outside the script: the mappings the library holds in
    memory (by object address), the mappings persisted to disk (by
    file name), and everything else the library may consult (network,
    clock, random seed, installed data sets). *)
Record world : Type := World {
  mappings : gmap nat KeyedVectors;
  saved : gmap string KeyedVectors;
  ambient : nat
}.

(** The operations through which a script reaches the library.  A
    method call [obj.name(args)] is two of them: the lookup of [name]
    on [obj], and, once the arguments are evaluated, the call of what
    the lookup gave ([f]) as method [name] of [obj]. *)
Inductive libop : Type :=
| OpImport (module : string)
| OpImportFrom (module name : string)
| OpGetAttr (obj : value) (name : string)
| OpGetItem (obj key : value)
| OpSetItem (obj key v : value)
| OpDelItem (obj key : value)
| OpCall (callee : value) (args : list value) (kwargs : list (string * value))
| OpCallMethod (obj : value) (name : string) (f : value)
    (args : list value) (kwargs : list (string * value)).

(** A library operation either returns a value or raises. *)
Inductive lres : Type :=
| LOk (v : value)
| LRaise (e : exn).

(** The external library: it is not part of the repository, so it is
    a parameter of the semantics. *)
Definition library : Type := libop -> world -> lres * world.

(** ** The Python fragment of the scripts: syntax *)

Inductive argkind : Type :=
| Pos
| Star
| Kw (name : string).

Inductive expr : Type :=
| EName (x : string)
| EStr (s : string)
| EInt (z : Z)
| EFloat (x : float)
| EBool (b : bool)
| EList (es : list expr)
| EAttr (e : expr) (name : string)
| EIndex (e i : expr)
| ECall (f : expr) (args : list (argkind * expr))
| EGt (a b : expr).

Inductive stmt : Type :=
| SImportAs (module alias : string)
| SImportFrom (module name : string)
| SAssign (x : string) (e : expr)
| SSetItem (obj key e : expr)
| SDelItem (obj key : expr)
| SExpr (e : expr)
| SIf (c : expr) (thn els : list (nat * stmt))
| SFor (x : string) (e : expr) (body : list (nat * stmt))
| STry (body : list (nat * stmt))
       (handlers : list (option string * list (nat * stmt))).

(** A program: statements with the source line each one starts on. *)
Definition program : Type := list (nat * stmt).

(** ** Semantics: state, results and the interpreter monad *)

(** Where an exception was raised: inside the external library, while
    it served an operation, or in the script's own frame (a name that
    is not bound, an index out of range, a value of the wrong type). *)
Inductive origin : Type :=
| InLibrary
| InScript.

(** What a run does that can be observed from outside: the operations
    it asks of the library (with the answer and the world after it)
    and the lines it prints. *)
Inductive event : Type :=
| EvLib (line : nat) (op : libop) (r : lres) (w : world)
| EvPrint (line : nat) (text : string).

(** The state of a run: the module's global names, the world, and
    the events so far, the newest first. *)
Record state : Type := State {
  env : gmap string value;
  wld : world;
  trace : list event
}.

(** The result of evaluating: a value, an exception (with the line of
    the statement that was running), or [Stuck] where the program
    leaves the fragment of Python that is modelled. *)
Inductive res (A : Type) : Type :=
| Ok (a : A)
| Raised (line : nat) (o : origin) (e : exn)
| Stuck.
Arguments Ok {A} a.
Arguments Raised {A} line o e.
Arguments Stuck {A}.

Definition M (A : Type) : Type := state -> res A * state.

Definition ret {A} (a : A) : M A := fun st => (Ok a, st).

Definition bind {A B} (m : M A) (k : A -> M B) : M B :=
  fun st =>
    match m st with
    | (Ok a, st') => k a st'
    | (Raised l o e, st') => (Raised l o e, st')
    | (Stuck, st') => (Stuck, st')
    end.

Notation "'do' x <- m ; k" := (bind m (fun x => k))
  (at level 10, x name, m at level 100, k at level 200,
   format "'[v' 'do'  x  <-  m ; '/' k ']'").

Definition stuck {A} : M A := fun st => (Stuck, st).

(** An exception raised in the script's own frame. *)
Definition raise_here {A} (line : nat) (ty msg : string) : M A :=
  fun st => (Raised line InScript (Exn ty msg), st).

(** What a library hands back is data or an object of its own; a
    library that hands back a builtin function or a bound method of a
    [str] is outside the model. *)
Definition plain (v : value) : bool :=
  match v with
  | VBuiltin _ => false
  | VMethod (VStr _) _ => false
  | _ => true
  end.

(** An operation of the library: the world moves on, the event is
    recorded, and an exception of the library reaches the script
    as it was raised. *)
Definition call_lib (lib : library) (line : nat) (op : libop) : M value :=
  fun st =>
    let rw := lib op (wld st) in
    let st' := State (env st) (snd rw) (EvLib line op (fst rw) (snd rw) :: trace st) in
    match fst rw with
    | LOk v => if plain v then (Ok v, st') else (Stuck, st')
    | LRaise e => (Raised line InLibrary e, st')
    end.

Definition emit_print (line : nat) (text : string) : M unit :=
  fun st => (Ok tt, State (env st) (wld st) (EvPrint line text :: trace st)).

Definition set_name (x : string) (v : value) : M unit :=
  fun st => (Ok tt, State (<[x := v]> (env st)) (wld st) (trace st)).

(** The builtins the scripts use. *)
Definition builtins : list string := ["print"].

(** A name is looked up in the module's globals, then among the
    builtins; otherwise [NameError]. *)
Definition lookup_name (line : nat) (x : string) : M value :=
  fun st =>
    match env st !! x with
    | Some v => (Ok v, st)
    | None =>
        if bool_decide (x ∈ builtins) then (Ok (VBuiltin x), st)
        else (Raised line InScript
                (Exn "NameError" ("name '" ++ x ++ "' is not defined")), st)
    end.

(** ** Builtin operations on values *)

(** [str(v)], for the values whose text is modelled. *)
Definition py_str (v : value) : option string :=
  match v with
  | VNone => Some "None"
  | VBool b => Some (if b then "True" else "False")
  | VInt z => Some (PyStr.of_int z)
  | VStr s => Some s
  | _ => None
  end.

(** The name of a value's class, as error messages show it. *)
Definition type_name (v : value) : string :=
  match v with
  | VNone => "NoneType"
  | VBool _ => "bool"
  | VInt _ => "int"
  | VFloat _ => "float"
  | VStr _ => "str"
  | VList _ => "list"
  | VTuple _ => "tuple"
  | VArray _ => "numpy.ndarray"
  | VObj _ => "object"
  | VMethod _ _ => "method"
  | VBuiltin _ => "builtin_function_or_method"
  end.

(** A format string, cut into literal text and replacement fields;
    a field keeps the text between its braces. *)
Inductive piece : Type :=
| PText (c : ascii)
| PField (field : string).

(** [parse_format fld s]: [fld] is [Some acc] inside a replacement
    field ([acc] its text so far, reversed).  Doubled braces stand for
    themselves; a lone closing brace, a field left open and a brace
    inside a field are not modelled. *)
Fixpoint parse_format (fld : option (list ascii)) (s : string)
  : option (list piece) :=
  match s, fld with
  | EmptyString, None => Some []
  | EmptyString, Some _ => None
  | String c r, Some acc =>
      if Ascii.eqb c "}" then
        cons (PField (string_of_list_ascii (rev acc))) <$> parse_format None r
      else if Ascii.eqb c "{" then None
      else parse_format (Some (c :: acc)) r
  | String c r, None =>
      if Ascii.eqb c "{" then
        match r with
        | String "{" r' => cons (PText "{") <$> parse_format None r'
        | _ => parse_format (Some []) r
        end
      else if Ascii.eqb c "}" then
        match r with
        | String "}" r' => cons (PText "}") <$> parse_format None r'
        | _ => None
        end
      else cons (PText c) <$> parse_format None r
  end.

(** A decimal number without sign, as in a precision. *)
Fixpoint parse_nat (acc : nat) (s : string) : option nat :=
  match s with
  | EmptyString => Some acc
  | String c r =>
      let n := nat_of_ascii c in
      if ((48 <=? n) && (n <=? 57))%nat
      then parse_nat (10 * acc + (n - 48))%nat r
      else None
  end.

(** The format specifications the scripts use: none, or [.<prec>f]. *)
Inductive fspec : Type :=
| FDefault
| FFixed (prec : nat).

(** The text of a field is [:spec] or empty (fields are numbered
    automatically); [.<prec>f] needs at least one digit. *)
Definition parse_field (f : string) : option fspec :=
  match f with
  | EmptyString => Some FDefault
  | String ":" EmptyString => Some FDefault
  | String ":" (String "." r) =>
      match rev (list_ascii_of_string r) with
      | "f"%char :: d :: ds =>
          FFixed <$> parse_nat 0 (string_of_list_ascii (rev (d :: ds)))
      | _ => None
      end
  | _ => None
  end.

(** The integers that every [float] conversion keeps as they are. *)
Definition exact_float (z : Z) : bool := Z.abs z <=? 2 ^ 53.

(** [format(v, spec)].  Under [.<prec>f] an [int] is converted to a
    [float] first; where the conversion rounds or overflows the
    result is not modelled. *)
Definition format_value (line : nat) (sp : fspec) (v : value) : M string :=
  match sp with
  | FDefault =>
      match py_str v with
      | Some s => ret s
      | None => stuck
      end
  | FFixed prec =>
      match v with
      | VFloat x => ret (PyStr.format_fixed prec x)
      | VInt z =>
          if exact_float z then ret (PyStr.format_fixed_int prec z)
          else stuck
      | VBool b => ret (PyStr.format_fixed_int prec (if b then 1 else 0))
      | VStr _ =>
          raise_here line "ValueError"
            "Unknown format code 'f' for object of type 'str'"
      | VNone | VList _ | VTuple _ | VArray _ | VMethod _ _ | VBuiltin _ =>
          raise_here line "TypeError"
            ("unsupported format string passed to " ++ type_name v
             ++ ".__format__")
      | VObj _ => stuck
      end
  end.

(** [str.format] with positional arguments: every field takes the
    next argument; arguments left over are ignored. *)
Fixpoint render (line : nat) (ps : list piece) (args : list value)
  : M string :=
  match ps with
  | [] => ret EmptyString
  | PText c :: r => do s <- render line r args; ret (String c s)
  | PField f :: r =>
      match parse_field f with
      | None => stuck
      | Some sp =>
          match args with
          | [] =>
              raise_here line "IndexError"
                "Replacement index out of range for positional args tuple"
          | v :: args' =>
              do s1 <- format_value line sp v;
              do s2 <- render line r args';
              ret (s1 ++ s2)%string
          end
      end
  end.

Definition str_format (line : nat) (fmt : string) (args : list value)
  : M value :=
  match parse_format None fmt with
  | None => stuck
  | Some ps => do s <- render line ps args; ret (VStr s)
  end.

(** The [str] methods that are modelled. *)
Definition str_methods : list string := ["format"; "lower"; "split"].

(** [v.name].  On an object of the library the library answers; a
    [str] gives a bound method; the [shape] of a 1-D array is the
    1-tuple of its length. *)
Definition getattr (lib : library) (line : nat) (v : value) (name : string)
  : M value :=
  match v with
  | VObj _ => call_lib lib line (OpGetAttr v name)
  | VStr _ =>
      if bool_decide (name ∈ str_methods) then ret (VMethod v name) else stuck
  | VArray a =>
      if String.eqb name "shape"
      then ret (VTuple [VInt (Z.of_nat (List.length a))])
      else stuck
  | _ => stuck
  end.

(** [l[i]] on a sequence: a negative index counts from the end. *)
Definition seq_index {A} (l : list A) (i : Z) : option A :=
  let n := Z.of_nat (List.length l) in
  if (0 <=? i) && (i <? n) then l !! Z.to_nat i
  else if (- n <=? i) && (i <? 0) then l !! Z.to_nat (n + i)
  else None.

(** A value used as an index. *)
Definition as_index (k : value) : option Z :=
  match k with
  | VInt z => Some z
  | VBool b => Some (if b then 1 else 0)
  | _ => None
  end.

Definition char_values (s : string) : list value :=
  (fun c => VStr (String c EmptyString)) <$> list_ascii_of_string s.

(** [v[k]].  Of a 1-D array only the element at an index in range is
    modelled. *)
Definition getitem (lib : library) (line : nat) (v k : value) : M value :=
  match v with
  | VObj _ => call_lib lib line (OpGetItem v k)
  | VList l | VTuple l =>
      match as_index k with
      | Some i =>
          match seq_index l i with
          | Some x => ret x
          | None =>
              raise_here line "IndexError"
                (type_name v ++ " index out of range")
          end
      | None =>
          match k with
          | VObj _ | VArray _ => stuck
          | _ =>
              raise_here line "TypeError"
                (type_name v ++ " indices must be integers or slices, not "
                 ++ type_name k)
          end
      end
  | VStr s =>
      match as_index k with
      | Some i =>
          match seq_index (char_values s) i with
          | Some x => ret x
          | None => raise_here line "IndexError" "string index out of range"
          end
      | None =>
          match k with
          | VObj _ | VArray _ => stuck
          | _ =>
              raise_here line "TypeError"
                ("string indices must be integers, not '" ++ type_name k
                 ++ "'")
          end
      end
  | VArray a =>
      match k with
      | VInt i =>
          match seq_index a i with
          | Some x => ret (VFloat x)
          | None => stuck
          end
      | _ => stuck
      end
  | VNone | VBool _ | VInt _ | VFloat _ | VMethod _ _ | VBuiltin _ =>
      raise_here line "TypeError"
        ("'" ++ type_name v ++ "' object is not subscriptable")
  end.

(** The values a starred argument unpacks to. *)
Definition unpack (line : nat) (v : value) : M (list value) :=
  match v with
  | VList l | VTuple l => ret l
  | VStr s => ret (char_values s)
  | VArray a => ret (VFloat <$> a)
  | VObj _ => stuck
  | VNone | VBool _ | VInt _ | VFloat _ | VMethod _ _ | VBuiltin _ =>
      raise_here line "TypeError"
        ("argument after * must be an iterable, not " ++ type_name v)
  end.

(** [print(v1, ..., vn)]: the texts joined by a space, on one line. *)
Fixpoint print_text (vs : list value) : option string :=
  match vs with
  | [] => Some EmptyString
  | [v] => py_str v
  | v :: r =>
      s1 ← py_str v; s2 ← print_text r; Some (s1 ++ " " ++ s2)%string
  end.

(** Calling a value: a builtin, a method of [str], or something of
    the library; anything else is not callable. *)
Definition call (lib : library) (line : nat) (f : value)
    (args : list value) (kwargs : list (string * value)) : M value :=
  match f with
  | VBuiltin name =>
      if String.eqb name "print" then
        match kwargs, print_text args with
        | [], Some s => do _ <- emit_print line s; ret VNone
        | _, _ => stuck
        end
      else stuck
  | VMethod (VStr s) name =>
      match kwargs with
      | _ :: _ => stuck
      | [] =>
          if String.eqb name "format" then str_format line s args
          else if String.eqb name "lower" then
            match args with
            | [] => ret (VStr (PyStr.lower s))
            | _ =>
                raise_here line "TypeError"
                  "lower() takes no arguments"
            end
          else if String.eqb name "split" then
            match args with
            | [] => ret (VList (VStr <$> PyStr.split s))
            | _ => stuck
            end
          else stuck
      end
  | VObj _ | VMethod _ _ => call_lib lib line (OpCall f args kwargs)
  | VNone | VBool _ | VInt _ | VFloat _ | VStr _ | VList _ | VTuple _
  | VArray _ =>
      raise_here line "TypeError"
        ("'" ++ type_name f ++ "' object is not callable")
  end.

(** [obj.name(args)], where the lookup of [name] on [obj] gave [f]. *)
Definition call_method (lib : library) (line : nat) (obj : value)
    (name : string) (f : value)
    (args : list value) (kwargs : list (string * value)) : M value :=
  match obj with
  | VObj _ => call_lib lib line (OpCallMethod obj name f args kwargs)
  | _ => call lib line f args kwargs
  end.

(** [a > b] on numbers of one kind. *)
Definition greater (a b : value) : M value :=
  match a, b with
  | VFloat x, VFloat y => ret (VBool (PrimFloat.ltb y x))
  | VInt x, VInt y => ret (VBool (y <? x))
  | _, _ => stuck
  end.

(** ** The interpreter *)

Section Interp.

Variable lib : library.

(** Expressions, at a statement on line [line].  A call evaluates the
    callee first (for a method call: the object, then the lookup of
    the method), then the arguments from left to right (a starred
    one is unpacked as soon as it is evaluated), then calls. *)
Fixpoint eval (line : nat) (e : expr) : M value :=
  match e with
  | EName x => lookup_name line x
  | EStr s => ret (VStr s)
  | EInt z => ret (VInt z)
  | EFloat x => ret (VFloat x)
  | EBool b => ret (VBool b)
  | EList es =>
      do vs <- (fix eval_list (es : list expr) : M (list value) :=
                  match es with
                  | [] => ret []
                  | e :: r =>
                      do v <- eval line e;
                      do vs <- eval_list r;
                      ret (v :: vs)
                  end) es;
      ret (VList vs)
  | EAttr e name => do v <- eval line e; getattr lib line v name
  | EIndex e i =>
      do v <- eval line e;
      do k <- eval line i;
      getitem lib line v k
  | ECall f args =>
      let eval_args :=
        fix eval_args (args : list (argkind * expr))
          : M (list value * list (string * value)) :=
          match args with
          | [] => ret ([], [])
          | (kind, e) :: r =>
              do v <- eval line e;
              match kind with
              | Pos =>
                  do pk <- eval_args r;
                  ret (v :: fst pk, snd pk)
              | Star =>
                  do vs <- unpack line v;
                  do pk <- eval_args r;
                  ret ((vs ++ fst pk)%list, snd pk)
              | Kw name =>
                  do pk <- eval_args r;
                  ret (fst pk, (name, v) :: snd pk)
              end
          end in
      match f with
      | EAttr e name =>
          do obj <- eval line e;
          do fv <- getattr lib line obj name;
          do pk <- eval_args args;
          call_method lib line obj name fv (fst pk) (snd pk)
      | _ =>
          do fv <- eval line f;
          do pk <- eval_args args;
          call lib line fv (fst pk) (snd pk)
      end
  | EGt a b =>
      do x <- eval line a;
      do y <- eval line b;
      greater x y
  end.

(** The truth value of a condition, for the values where it is
    modelled. *)
Definition truthy (v : value) : M bool :=
  match v with
  | VNone => ret false
  | VBool b => ret b
  | VInt z => ret (negb (z =? 0))
  | VStr s => ret (negb (String.eqb s EmptyString))
  | VList l | VTuple l => ret (match l with [] => false | _ => true end)
  | VBuiltin _ | VMethod _ _ => ret true
  | VFloat _ | VArray _ | VObj _ => stuck
  end.

(** Does an [except] clause catch the exception?  A bare clause and
    the root classes catch everything; a named clause catches the
    class of that name. *)
Definition catches (clause : option string) (e : exn) : bool :=
  match clause with
  | None => true
  | Some c =>
      String.eqb c "BaseException" || String.eqb c "Exception"
      || String.eqb c (exn_type e)
  end.

(** Statements.  An exception ends the statement, and with it the
    block the statement is in, unless a [try] around it catches it. *)
Fixpoint exec (line : nat) (s : stmt) {struct s} : M unit :=
  let block :=
    fix block (p : list (nat * stmt)) : M unit :=
      match p with
      | [] => ret tt
      | (l, s') :: r => do _ <- exec l s'; block r
      end in
  match s with
  | SImportAs module alias =>
      do m <- call_lib lib line (OpImport module); set_name alias m
  | SImportFrom module name =>
      do v <- call_lib lib line (OpImportFrom module name); set_name name v
  | SAssign x e => do v <- eval line e; set_name x v
  | SSetItem obj key e =>
      do v <- eval line e;
      do o <- eval line obj;
      do k <- eval line key;
      match o with
      | VObj _ => do _ <- call_lib lib line (OpSetItem o k v); ret tt
      | _ => stuck
      end
  | SDelItem obj key =>
      do o <- eval line obj;
      do k <- eval line key;
      match o with
      | VObj _ => do _ <- call_lib lib line (OpDelItem o k); ret tt
      | _ => stuck
      end
  | SExpr e => do _ <- eval line e; ret tt
  | SIf c thn els =>
      do v <- eval line c;
      do b <- truthy v;
      if b then block thn else block els
  | SFor x e body =>
      do v <- eval line e;
      match v with
      | VList l | VTuple l =>
          (fix iter (l : list value) : M unit :=
             match l with
             | [] => ret tt
             | a :: r => do _ <- set_name x a; do _ <- block body; iter r
             end) l
      | _ => stuck
      end
  | STry body handlers =>
      fun st =>
        match block body st with
        | (Raised l o e, st') =>
            (fix handle (hs : list (option string * list (nat * stmt)))
               : res unit * state :=
               match hs with
               | [] => (Raised l o e, st')
               | (clause, h) :: r =>
                   if catches clause e then block h st' else handle r
               end) handlers
        | other => other
        end
  end.

(** A block of statements, in order. *)
Fixpoint exec_block (p : program) : M unit :=
  match p with
  | [] => ret tt
  | (l, s) :: r => do _ <- exec l s; exec_block r
  end.

(** How a run of a module ends. *)
Inductive ending : Type :=
| Finished
| Uncaught (line : nat) (o : origin) (e : exn)
| Unmodelled.

(** Running a module: fresh globals, the world as it is found.  An
    exception that reaches the top ends the process. *)
Definition initial (w : world) : state := State ∅ w [].

Definition run (p : program) (w : world) : ending * state :=
  match exec_block p (initial w) with
  | (Ok _, st) => (Finished, st)
  | (Raised l o e, st) => (Uncaught l o e, st)
  | (Stuck, st) => (Unmodelled, st)
  end.

(** The events of a run, the oldest first. *)
Definition events (p : program) (w : world) : list event :=
  rev (trace (snd (run p w))).

(** What the run printed: one entry per [print]. *)
Definition printed (tr : list event) : list string :=
  omap (fun ev => match ev with EvPrint _ s => Some s | _ => None end) tr.

End Interp.

(** ** The modules of the repository *)

(** [recv.name(args)]. *)
Definition method (recv : expr) (name : string)
    (args : list (argkind * expr)) : expr :=
  ECall (EAttr recv name) args.

(** [print(e)]. *)
Definition print (e : expr) : expr := ECall (EName "print") [(Pos, e)].

(** A list of string literals. *)
Definition strs (l : list string) : expr := EList (EStr <$> l).

(** [gensim/gs_similarity.py]. *)
Definition gs_similarity : program := [
  (2%nat, SImportAs "gensim.downloader" "api");
  (4%nat, SAssign "word_vectors"
     (method (EName "api") "load" [(Pos, EStr "glove-wiki-gigaword-100")]));
  (6%nat, SAssign "result"
     (method (EName "word_vectors") "most_similar"
        [(Kw "positive", strs ["woman"; "king"]);
         (Kw "negative", strs ["man"])]));
  (7%nat, SExpr (print (method (EStr "{}: {:.4f}") "format"
                     [(Star, EIndex (EName "result") (EInt 0))])));
  (10%nat, SAssign "result"
     (method (EName "word_vectors") "most_similar_cosmul"
        [(Kw "positive", strs ["woman"; "king"]);
         (Kw "negative", strs ["man"])]));
  (11%nat, SExpr (print (method (EStr "{}: {:.4f}") "format"
                      [(Star, EIndex (EName "result") (EInt 0))])));
  (14%nat, SExpr (print (method (EName "word_vectors") "doesnt_match"
                      [(Pos, method (EStr "breakfast cereal dinner lunch")
                               "split" [])])));
  (17%nat, SAssign "similarity"
     (method (EName "word_vectors") "similarity"
        [(Pos, EStr "woman"); (Pos, EStr "man")]));
  (18%nat, SExpr (EGt (EName "similarity") (EFloat 0.8)));
  (21%nat, SAssign "result"
     (method (EName "word_vectors") "similar_by_word" [(Pos, EStr "cat")]));
  (22%nat, SExpr (print (method (EStr "{}: {:.4f}") "format"
                      [(Star, EIndex (EName "result") (EInt 0))])));
  (25%nat, SAssign "sentence_obama"
     (method (method (EStr "Obama speaks to the media in Illinois")
                "lower" []) "split" []));
  (26%nat, SAssign "sentence_president"
     (method (method (EStr "The president greets the press in Chicago")
                "lower" []) "split" []));
  (28%nat, SAssign "similarity"
     (method (EName "word_vectors") "wmdistance"
        [(Pos, EName "sentence_obama"); (Pos, EName "sentence_president")]));
  (29%nat, SExpr (print (method (EStr "{:.4f}") "format"
                      [(Pos, EName "similarity")])));
  (32%nat, SAssign "distance"
     (method (EName "word_vectors") "distance"
        [(Pos, EStr "media"); (Pos, EStr "media")]));
  (33%nat, SExpr (print (method (EStr "{:.1f}") "format"
                      [(Pos, EName "distance")])));
  (36%nat, SAssign "sim"
     (method (EName "word_vectors") "n_similarity"
        [(Pos, strs ["sushi"; "shop"]);
         (Pos, strs ["japanese"; "restaurant"])]));
  (37%nat, SExpr (print (method (EStr "{:.4f}") "format"
                      [(Pos, EName "sim")])));
  (40%nat, SAssign "vector"
     (EIndex (EName "word_vectors") (EStr "computer")));
  (41%nat, SExpr (EAttr (EName "vector") "shape"));
  (44%nat, SAssign "vector"
     (method (EAttr (EName "word_vectors") "wv") "word_vec"
        [(Pos, EStr "office"); (Kw "use_norm", EBool true)]));
  (45%nat, SExpr (EAttr (EName "vector") "shape"));
  (50%nat, SImportFrom "gensim.test.utils" "datapath");
  (52%nat, SAssign "similarities"
     (method (EAttr (EName "model") "wv") "evaluate_word_pairs"
        [(Pos, ECall (EName "datapath") [(Pos, EStr "wordsim353.tsv")])]));
  (56%nat, SAssign "analogy_scores"
     (method (EAttr (EName "model") "wv") "evaluate_word_analogies"
        [(Pos, ECall (EName "datapath")
                 [(Pos, EStr "questions-words.txt")])]))
].

(** [gensim/gs_train_model.py]. *)
Definition gs_train_model : program := [
  (1%nat, SImportFrom "gensim.test.utils" "common_texts");
  (2%nat, SImportFrom "gensim.models" "Word2Vec");
  (4%nat, SAssign "model"
     (ECall (EName "Word2Vec")
        [(Pos, EName "common_texts");
         (Kw "size", EInt 100); (Kw "window", EInt 5);
         (Kw "min_count", EInt 1); (Kw "workers", EInt 4)]));
  (5%nat, SAssign "word_vectors" (EAttr (EName "model") "wv"))
].

(** [gensim/gensim_exm.py]: one expression statement, the module's
    docstring (lines 1 to 139), whose text is [doc]. *)
Definition gensim_exm (doc : string) : program := [
  (1%nat, SExpr (EStr doc))
].

(** The scripts, that is the modules that do something when run. *)
Definition scripts : list program := [gs_similarity; gs_train_model].

(** The methods of a mapping that the query script calls on it. *)
Definition query_methods : list string :=
  ["most_similar"; "most_similar_cosmul"; "doesnt_match"; "similarity";
   "similar_by_word"; "wmdistance"; "distance"; "n_similarity"; "word_vec"].

(** ** A small library to run the scripts against

    The semantics takes the library as a parameter.  [Demo.lib] is
    one instance, small enough to compute with: cosine similarity on
    binary64 floats over a mapping of a dozen words, a download that
    fails when the network is down, and the operations that change
    or persist a mapping ([add], item assignment, [save]). *)

Module Demo.

Local Open Scope float_scope.

Fixpoint dot (u v : list float) : float :=
  match u, v with
  | a :: u', b :: v' => a * b + dot u' v'
  | _, _ => 0
  end.

Definition norm (u : list float) : float := PrimFloat.sqrt (dot u u).

Definition cosine (u v : list float) : float := dot u v / (norm u * norm v).

Fixpoint vadd (u v : list float) : list float :=
  match u, v with
  | a :: u', b :: v' => (a + b) :: vadd u' v'
  | _, _ => []
  end.

Definition vneg (u : list float) : list float := (fun a => - a) <$> u.

Definition vsum (n : nat) (us : list (list float)) : list float :=
  foldr vadd (repeat 0 n) us.

Definition key_error (k : string) : lres := LRaise (Exn "KeyError" k).

(** The vectors of the words [ws], or the first word that is missing. *)
Fixpoint lookup_all (kv : KeyedVectors) (ws : list value)
  : string + list (list float) :=
  match ws with
  | [] => inr []
  | VStr k :: r =>
      match vectors kv !! k with
      | None => inl k
      | Some v =>
          match lookup_all kv r with
          | inl k' => inl k'
          | inr vs => inr (v :: vs)
          end
      end
  | _ :: _ => inl "?"%string
  end.

(** The best entry of [cands] under [score], the first one on ties. *)
Fixpoint best (score : list float -> float)
    (cands : list (string * list float)) : option (string * float) :=
  match cands with
  | [] => None
  | (k, v) :: r =>
      match best score r with
      | Some (k', x') =>
          if PrimFloat.ltb (score v) x' then Some (k', x')
          else Some (k, score v)
      | None => Some (k, score v)
      end
  end.

Definition words_of (ws : list value) : list string :=
  omap (fun v => match v with VStr s => Some s | _ => None end) ws.

Definition others (kv : KeyedVectors) (ws : list value)
  : list (string * list float) :=
  filter (fun kv' => kv'.1 ∉ words_of ws) (map_to_list (vectors kv)).

Definition kwarg (name : string) (kwargs : list (string * value))
  : list value :=
  match list_find (fun p => p.1 = name) kwargs with
  | Some (_, (_, VList l)) => l
  | _ => []
  end.

Definition top1 (r : option (string * float)) : lres :=
  match r with
  | Some (k, x) => LOk (VList [VTuple [VStr k; VFloat x]])
  | None => LOk (VList [])
  end.

Definition most_similar (kv : KeyedVectors) (pos neg : list value) : lres :=
  match lookup_all kv pos, lookup_all kv neg with
  | inl k, _ | _, inl k => key_error k
  | inr ps, inr ns =>
      let target := vsum (vector_size kv) (ps ++ (vneg <$> ns))%list in
      top1 (best (cosine target) (others kv (pos ++ neg)%list))
  end.

(** The queries: functions of the mapping and the arguments. *)
Definition query (kv : KeyedVectors) (m : string) (args : list value)
    (kwargs : list (string * value)) : lres :=
  if String.eqb m "most_similar" || String.eqb m "most_similar_cosmul" then
    most_similar kv (kwarg "positive" kwargs) (kwarg "negative" kwargs)
  else if String.eqb m "similar_by_word" then most_similar kv args []
  else if String.eqb m "doesnt_match" then
    match args with
    | [VList ws] =>
        match lookup_all kv ws with
        | inl k => key_error k
        | inr vs =>
            let mean := vsum (vector_size kv) vs in
            match best (fun v => - cosine mean v)
                    (omap (fun w => pair w <$> vectors kv !! w) (words_of ws))
            with
            | Some (k, _) => LOk (VStr k)
            | None => LRaise (Exn "ValueError" "cannot select a word")
            end
        end
    | _ => LRaise (Exn "TypeError" "doesnt_match")
    end
  else if String.eqb m "similarity" || String.eqb m "distance" then
    match lookup_all kv args with
    | inr [u; v] =>
        LOk (VFloat (if String.eqb m "distance" then 1 - cosine u v
                     else cosine u v))
    | inl k => key_error k
    | _ => LRaise (Exn "TypeError" m)
    end
  else if String.eqb m "n_similarity" || String.eqb m "wmdistance" then
    match args with
    | [VList a; VList b] =>
        let va := vsum (vector_size kv) (omap (fun w => vectors kv !! w) (words_of a)) in
        let vb := vsum (vector_size kv) (omap (fun w => vectors kv !! w) (words_of b)) in
        LOk (VFloat (if String.eqb m "wmdistance"
                     then norm (vadd va (vneg vb)) else cosine va vb))
    | _ => LRaise (Exn "TypeError" m)
    end
  else if String.eqb m "word_vec" then
    match args with
    | VStr k :: _ =>
        match vectors kv !! k with
        | Some v => LOk (VArray ((fun a => a / norm v) <$> v))
        | None => key_error k
        end
    | _ => LRaise (Exn "TypeError" m)
    end
  else LRaise (Exn "AttributeError" m).

(** The methods that change a mapping or persist it. *)
Definition update_methods : list string := ["add"; "save"]%string.

(** A vector of dimension 100 from its first three coordinates. *)
Definition vec (a b c : float) : list float := a :: b :: c :: repeat 0 97.

(** The mapping that [load] delivers. *)
Definition glove : KeyedVectors :=
  KV 100 (list_to_map [
    ("man", vec 0.1 1 0.2); ("woman", vec 0.1 (-1) 0.2);
    ("king", vec 1 1 0.2); ("queen", vec 1 (-1) 0.2);
    ("breakfast", vec 0.1 0.2 1); ("dinner", vec 0.2 0.1 1);
    ("lunch", vec 0.15 0.15 1); ("cereal", vec 0.9 0.1 0.5);
    ("cat", vec 0.3 0.4 0.9); ("dog", vec 0.3 0.5 0.9);
    ("obama", vec 0.9 0.6 0.1); ("president", vec 0.9 0.5 0.1);
    ("speaks", vec 0.4 0.1 0.3); ("greets", vec 0.4 0.2 0.3);
    ("media", vec 0.5 0.1 0.7); ("press", vec 0.5 0.2 0.7);
    ("illinois", vec 0.7 0.1 0.1); ("chicago", vec 0.7 0.2 0.1);
    ("sushi", vec 0.2 0.7 0.9); ("shop", vec 0.6 0.3 0.4);
    ("japanese", vec 0.3 0.7 0.8); ("restaurant", vec 0.5 0.3 0.6);
    ("computer", vec 0.8 0.8 0.1); ("office", vec 0.7 0.7 0.3)
  ]%string).

(** The toy corpus that the test utilities export. *)
Definition common_texts : value :=
  VList ((fun d => VList (VStr <$> d)) <$>
    [["human"; "interface"; "computer"];
     ["survey"; "user"; "computer"; "system"; "response"; "time"];
     ["eps"; "user"; "interface"; "system"];
     ["graph"; "trees"]; ["graph"; "minors"; "survey"]]%string).

(** Training, as far as the shape of its result goes: every word of
    the corpus gets a vector of the requested size. *)
Definition train (corpus : value) (size : nat) : KeyedVectors :=
  let docs := match corpus with VList ds => ds | _ => [] end in
  let ws := mjoin ((fun d => match d with VList l => words_of l | _ => [] end)
                     <$> docs) in
  KV size (list_to_map ((fun w => (w, repeat 1 size)) <$> ws)).

Definition kwarg_nat (name : string) (default : nat)
    (kwargs : list (string * value)) : nat :=
  match list_find (fun p => p.1 = name) kwargs with
  | Some (_, (_, VInt z)) => Z.to_nat z
  | _ => default
  end.

(** Addresses: 1 is the module [gensim.downloader], 2 the function
    [datapath], 3 the class [Word2Vec]; a mapping gets a fresh even
    address [a] from 10 on, and [a + 1] is the model it belongs to. *)
Definition fresh (w : world) : nat := (10 + 2 * size (mappings w))%nat.

Definition with_mappings (w : world) (m : gmap nat KeyedVectors) : world :=
  World m (saved w) (ambient w).

Definition attribute_error (n : string) : lres :=
  LRaise (Exn "AttributeError" n).

(** Method [m] of the object at [a]: [load] on the downloader; on a
    mapping the updates [add] and [save], and the queries. *)
Definition invoke (a : nat) (m : string) (args : list value)
    (kwargs : list (string * value)) (w : world) : lres * world :=
  if (a =? 1)%nat then
    if negb (String.eqb m "load") then (LRaise (Exn "AttributeError" m), w)
    else if (ambient w =? 0)%nat then
      (LOk (VObj (fresh w)),
       with_mappings w (<[fresh w := glove]> (mappings w)))
    else (LRaise (Exn "URLError" "network is unreachable"), w)
  else
    match mappings w !! a with
    | Some kv =>
        if String.eqb m "add" then
          match args with
          | [VStr k; VArray v] =>
              (LOk VNone,
               with_mappings w
                 (<[a := KV (vector_size kv) (<[k := v]> (vectors kv))]>
                    (mappings w)))
          | _ => (LRaise (Exn "TypeError" m), w)
          end
        else if String.eqb m "save" then
          match args with
          | [VStr f] =>
              (LOk VNone,
               World (mappings w) (<[f := kv]> (saved w)) (ambient w))
          | _ => (LRaise (Exn "TypeError" m), w)
          end
        else (query kv m args kwargs, w)
    | None => (LRaise (Exn "TypeError" m), w)
    end.

Definition lib : library := fun op w =>
  match op with
  | OpImport m =>
      if String.eqb m "gensim.downloader" then (LOk (VObj 1), w)
      else (LRaise (Exn "ModuleNotFoundError" m), w)
  | OpImportFrom m n =>
      if String.eqb m "gensim.test.utils" && String.eqb n "datapath"
      then (LOk (VObj 2), w)
      else if String.eqb m "gensim.test.utils" && String.eqb n "common_texts"
      then (LOk common_texts, w)
      else if String.eqb m "gensim.models" && String.eqb n "Word2Vec"
      then (LOk (VObj 3), w)
      else (LRaise (Exn "ImportError" n), w)
  | OpGetAttr (VObj a) n =>
      if (a =? 1)%nat then
        (if String.eqb n "load" then LOk (VMethod (VObj 1) "load")
         else attribute_error n, w)
      else
        match mappings w !! a, mappings w !! pred a with
        | Some _, _ =>
            (if bool_decide (n ∈ (query_methods ++ update_methods)%list)
             then LOk (VMethod (VObj a) n)
             else if String.eqb n "wv" then LOk (VObj a)
             else attribute_error n, w)
        | None, Some _ =>
            (if String.eqb n "wv" then LOk (VObj (pred a))
             else attribute_error n, w)
        | None, None => (attribute_error n, w)
        end
  | OpGetAttr _ n => (attribute_error n, w)
  | OpGetItem (VObj a) (VStr k) =>
      match mappings w !! a with
      | Some kv =>
          (match vectors kv !! k with
           | Some v => LOk (VArray v)
           | None => key_error k
           end, w)
      | None => (LRaise (Exn "TypeError" "not subscriptable"), w)
      end
  | OpGetItem _ _ => (LRaise (Exn "TypeError" "not subscriptable"), w)
  | OpSetItem (VObj a) (VStr k) (VArray v) =>
      match mappings w !! a with
      | Some kv =>
          (LOk VNone,
           with_mappings w
             (<[a := KV (vector_size kv) (<[k := v]> (vectors kv))]>
                (mappings w)))
      | None => (LRaise (Exn "TypeError" "item assignment"), w)
      end
  | OpSetItem _ _ _ => (LRaise (Exn "TypeError" "item assignment"), w)
  | OpDelItem _ _ => (LRaise (Exn "TypeError" "item deletion"), w)
  | OpCallMethod (VObj a) m _ args kwargs
  | OpCall (VMethod (VObj a) m) args kwargs => invoke a m args kwargs w
  | OpCall (VObj a) args kwargs =>
      if (a =? 2)%nat then
        (match args with
         | [VStr f] => LOk (VStr ("/gensim/test/test_data/" ++ f))
         | _ => LRaise (Exn "TypeError" "datapath")
         end, w)
      else if (a =? 3)%nat then
        match args with
        | corpus :: _ =>
            (LOk (VObj (S (fresh w))),
             with_mappings w
               (<[fresh w := train corpus (kwarg_nat "size" 100 kwargs)]>
                  (mappings w)))
        | [] => (LRaise (Exn "TypeError" "Word2Vec"), w)
        end
      else (LRaise (Exn "TypeError" "not callable"), w)
  | OpCall _ _ _ | OpCallMethod _ _ _ _ _ =>
      (LRaise (Exn "TypeError" "not callable"), w)
  end.

(** Two worlds with nothing loaded: the network up, the network down. *)
Definition online : world := World ∅ ∅ 0.
Definition offline : world := World ∅ ∅ 1.

End Demo.


(** ** Reasoning about runs *)

Local Open Scope list_scope.

(** *** The interpreter's equations *)

Section Equations.

Variable lib : library.

Section Lists.

Variable line : nat.

Fixpoint eval_list (es : list expr) : M (list value) :=
  match es with
  | [] => ret []
  | e :: r =>
      do v <- eval lib line e;
      do vs <- eval_list r;
      ret (v :: vs)
  end.

Fixpoint eval_args (args : list (argkind * expr))
  : M (list value * list (string * value)) :=
  match args with
  | [] => ret ([], [])
  | (kind, e) :: r =>
      do v <- eval lib line e;
      match kind with
      | Pos => do pk <- eval_args r; ret (v :: fst pk, snd pk)
      | Star =>
          do vs <- unpack line v;
          do pk <- eval_args r;
          ret ((vs ++ fst pk)%list, snd pk)
      | Kw name => do pk <- eval_args r; ret (fst pk, (name, v) :: snd pk)
      end
  end.

End Lists.

Lemma eval_EList line es :
  eval lib line (EList es) = (do vs <- eval_list line es; ret (VList vs)).
Proof. reflexivity. Qed.

Lemma eval_method line e name args :
  eval lib line (ECall (EAttr e name) args)
  = (do obj <- eval lib line e;
     do fv <- getattr lib line obj name;
     do pk <- eval_args line args;
     call_method lib line obj name fv (fst pk) (snd pk)).
Proof. reflexivity. Qed.

(** Is the callee an attribute reference, that is, the call a method
    call? *)
Definition is_attr (f : expr) : bool :=
  match f with EAttr _ _ => true | _ => false end.

Lemma eval_call line f args :
  is_attr f = false ->
  eval lib line (ECall f args)
  = (do fv <- eval lib line f;
     do pk <- eval_args line args;
     call lib line fv (fst pk) (snd pk)).
Proof. destruct f; simpl; intros; try reflexivity; discriminate. Qed.

Lemma exec_block_app (p q : program) st :
  exec_block lib (p ++ q) st
  = (do _ <- exec_block lib p; exec_block lib q) st.
Proof.
  revert st. induction p as [|[l s] p IH]; intros st; simpl.
  - reflexivity.
  - unfold bind in *. destruct (exec lib l s st) as [[[]|? ? ?|] st1].
    + apply IH.
    + reflexivity.
    + reflexivity.
Qed.

End Equations.

(** *** Induction on expressions

    The callee of a method call is split from the other callees, as
    [eval] splits them. *)

Section ExprInd.

Variable P : expr -> Prop.

Hypothesis HName : forall x, P (EName x).
Hypothesis HStr : forall s, P (EStr s).
Hypothesis HInt : forall z, P (EInt z).
Hypothesis HFloat : forall x, P (EFloat x).
Hypothesis HBool : forall b, P (EBool b).
Hypothesis HList : forall es, Forall P es -> P (EList es).
Hypothesis HAttr : forall e name, P e -> P (EAttr e name).
Hypothesis HIndex : forall e i, P e -> P i -> P (EIndex e i).
Hypothesis HMethod : forall e name args,
  P e -> Forall (fun a => P a.2) args -> P (ECall (EAttr e name) args).
Hypothesis HCall : forall f args,
  is_attr f = false -> P f -> Forall (fun a => P a.2) args ->
  P (ECall f args).
Hypothesis HGt : forall a b, P a -> P b -> P (EGt a b).

Fixpoint expr_ind2 (e : expr) : P e :=
  match e with
  | EName x => HName x
  | EStr s => HStr s
  | EInt z => HInt z
  | EFloat x => HFloat x
  | EBool b => HBool b
  | EList es =>
      HList es
        ((fix go (es : list expr) : Forall P es :=
            match es with
            | [] => Forall_nil_2 P
            | e :: r => Forall_cons_2 P e r (expr_ind2 e) (go r)
            end) es)
  | EAttr e name => HAttr e name (expr_ind2 e)
  | EIndex e i => HIndex e i (expr_ind2 e) (expr_ind2 i)
  | ECall f args =>
      let all :=
        (fix go (args : list (argkind * expr))
           : Forall (fun a => P a.2) args :=
           match args with
           | [] => Forall_nil_2 _
           | a :: r => Forall_cons_2 _ a r (expr_ind2 a.2) (go r)
           end) args in
      match f as f0 return P f0 -> P (ECall f0 args) with
      | EAttr e name => fun _ => HMethod e name args (expr_ind2 e) all
      | f0 => fun Hf => HCall f0 args eq_refl Hf all
      end (expr_ind2 f)
  | EGt a b => HGt a b (expr_ind2 a) (expr_ind2 b)
  end.

End ExprInd.

(** *** What a program can ask of the library: its footprint *)

(** The kinds of events. *)
Inductive kind : Type :=
| KImport (module : string)
| KImportFrom (module name : string)
| KAttr (name : string)
| KItem
| KSetItem
| KDelItem
| KCall
| KMethod (name : string)
| KPrint.

#[global] Instance kind_eq_dec : EqDecision kind.
Proof. solve_decision. Defined.

Definition op_kind (op : libop) : kind :=
  match op with
  | OpImport m => KImport m
  | OpImportFrom m n => KImportFrom m n
  | OpGetAttr _ n => KAttr n
  | OpGetItem _ _ => KItem
  | OpSetItem _ _ _ => KSetItem
  | OpDelItem _ _ => KDelItem
  | OpCall _ _ _ => KCall
  | OpCallMethod _ n _ _ _ => KMethod n
  end.

Definition ev_kind (ev : event) : kind :=
  match ev with
  | EvLib _ op _ _ => op_kind op
  | EvPrint _ _ => KPrint
  end.

Definition ev_line (ev : event) : nat :=
  match ev with
  | EvLib l _ _ _ => l
  | EvPrint l _ => l
  end.

(** The string that an expression stands for, when its text tells:
    a literal, or [lower()] of such an expression. *)
Fixpoint str_value (e : expr) : option string :=
  match e with
  | EStr s => Some s
  | ECall (EAttr e' name) [] =>
      if String.eqb name "lower" then PyStr.lower <$> str_value e' else None
  | _ => None
  end.

(** The kinds of events that evaluating an expression can produce,
    read off its text.  A method call looks the method up and calls
    it, unless the object is a string, whose methods are the
    interpreter's; a call of a builtin's name prints; any other call
    may turn out to be either. *)
Fixpoint expr_kinds (e : expr) : list kind :=
  match e with
  | EName _ | EStr _ | EInt _ | EFloat _ | EBool _ => []
  | EList es => flat_map expr_kinds es
  | EAttr e name =>
      match str_value e with
      | Some _ => []
      | None => expr_kinds e ++ [KAttr name]
      end
  | EIndex e i => expr_kinds e ++ expr_kinds i ++ [KItem]
  | ECall f args =>
      let ka := flat_map (fun a => expr_kinds a.2) args in
      match f with
      | EAttr e name =>
          match str_value e with
          | Some _ => ka
          | None => expr_kinds e ++ [KAttr name] ++ ka ++ [KMethod name]
          end
      | EName x =>
          if bool_decide (x ∈ builtins) then ka ++ [KPrint]
          else ka ++ [KCall; KPrint]
      | _ => expr_kinds f ++ ka ++ [KCall; KPrint]
      end
  | EGt a b => expr_kinds a ++ expr_kinds b
  end.

(** The same for a statement of the straight-line fragment. *)
Definition stmt_kinds (s : stmt) : list kind :=
  match s with
  | SImportAs m _ => [KImport m]
  | SImportFrom m n => [KImportFrom m n]
  | SAssign _ e | SExpr e => expr_kinds e
  | SSetItem o k e => expr_kinds e ++ expr_kinds o ++ expr_kinds k ++ [KSetItem]
  | SDelItem o k => expr_kinds o ++ expr_kinds k ++ [KDelItem]
  | SIf _ _ _ | SFor _ _ _ | STry _ _ => []
  end.

(** The footprint of a program: what can happen on which line. *)
Definition sites (p : program) : list (nat * kind) :=
  flat_map (fun ls => pair ls.1 <$> stmt_kinds ls.2) p.

Definition ev_site (ev : event) : nat * kind := (ev_line ev, ev_kind ev).

(** The names a statement of the straight-line fragment binds. *)
Definition stmt_binds (s : stmt) : list string :=
  match s with
  | SImportAs _ x | SImportFrom _ x | SAssign x _ => [x]
  | _ => []
  end.

Definition binds (p : program) : list string :=
  flat_map (fun ls => stmt_binds ls.2) p.

(** The straight-line fragment: no statement that holds a block. *)
Definition simple (s : stmt) : bool :=
  match s with
  | SIf _ _ _ | SFor _ _ _ | STry _ _ => false
  | _ => true
  end.

(** A straight-line program: simple statements, on lines that
    increase. *)
Fixpoint increasing (ls : list nat) : bool :=
  match ls with
  | a :: (b :: _) as r => (a <? b)%nat && increasing r
  | _ => true
  end.

Definition straight_line (p : program) : bool :=
  forallb (fun ls => simple ls.2) p && increasing (fst <$> p).

(** No builtin is shadowed by a global of the module. *)
Definition unshadowed (st : state) : Prop :=
  forall x, x ∈ builtins -> env st !! x = None.

(** An event in which the library raised. *)
Definition raised_by_library (ev : event) : Prop :=
  match ev with
  | EvLib _ _ (LRaise _) _ => True
  | _ => False
  end.

(** No event of [evs] is an exception of the library. *)
Definition quiet (evs : list event) : Prop :=
  Forall (fun ev => ~ raised_by_library ev) evs.

(** How a result accounts for the events [evs] (the oldest first)
    that led to it.  An exception that comes out of the library is
    the last thing that happened, it is the exception the library
    raised, on that line, and the library raised nothing before; any
    other result means that the library raised nothing at all. *)
Definition reported {A} (r : res A) (evs : list event) : Prop :=
  match r with
  | Raised l InLibrary e =>
      exists evs0 op w, evs = evs0 ++ [EvLib l op (LRaise e) w] /\ quiet evs0
  | _ => quiet evs
  end.

Section Follows.

Variable lib : library.

(** The events [evs], the oldest first, are what the library did
    from world [w] to world [w'], and each satisfies [P]. *)
Fixpoint follows (P : event -> Prop) (w : world) (evs : list event)
    (w' : world) : Prop :=
  match evs with
  | [] => w' = w
  | EvPrint l s :: r => P (EvPrint l s) /\ follows P w r w'
  | EvLib l op res w1 :: r =>
      P (EvLib l op res w1) /\ (res, w1) = lib op w /\ follows P w1 r w'
  end.

(** A computation that leaves the globals alone, whose events
    satisfy [P], and whose result accounts for them. *)
Definition emits {A} (m : M A) (P : event -> Prop) : Prop :=
  forall st r st', unshadowed st -> m st = (r, st') ->
    env st' = env st /\
    exists evs, trace st' = rev evs ++ trace st
                /\ follows P (wld st) evs (wld st')
                /\ reported r evs.

(** The same for a statement, which may bind the names [xs]. *)
Definition emits_binding (m : M unit) (xs : list string)
    (P : event -> Prop) : Prop :=
  forall st r st', unshadowed st -> m st = (r, st') ->
    (forall y, y ∉ xs -> env st' !! y = env st !! y) /\
    exists evs, trace st' = rev evs ++ trace st
                /\ follows P (wld st) evs (wld st')
                /\ reported r evs.

End Follows.

(** *** The rules of [follows] and [emits] *)

Section Rules.

Variable lib : library.

Lemma follows_app P w evs1 w1 evs2 w2 :
  follows lib P w evs1 w1 -> follows lib P w1 evs2 w2 ->
  follows lib P w (evs1 ++ evs2) w2.
Proof.
  revert w. induction evs1 as [|[l op res w'|l s] evs1 IH]; intros w; simpl.
  - intros ->. auto.
  - intros (HP & Hop & Hf) H2. eauto.
  - intros (HP & Hf) H2. eauto.
Qed.

Lemma follows_mono (P Q : event -> Prop) w evs w' :
  (forall ev, P ev -> Q ev) ->
  follows lib P w evs w' -> follows lib Q w evs w'.
Proof.
  intros HPQ. revert w.
  induction evs as [|[l op res w1|l s] evs IH]; intros w; simpl; auto.
  - intros (HP & Hop & Hf). eauto.
  - intros (HP & Hf). eauto.
Qed.

Lemma follows_Forall P w evs w' :
  follows lib P w evs w' -> Forall P evs.
Proof.
  revert w. induction evs as [|[l op res w1|l s] evs IH]; intros w; simpl.
  - constructor.
  - intros (HP & Hop & Hf). constructor; eauto.
  - intros (HP & Hf). constructor; eauto.
Qed.

(** A result that is not an exception of the library. *)
Definition from_script {A} (r : res A) : Prop :=
  match r with
  | Raised _ InLibrary _ => False
  | _ => True
  end.

(** A computation that neither reads nor changes the state, nor
    reaches the library. *)
Definition state_free {A} (m : M A) : Prop :=
  exists r, from_script r /\ forall st, m st = (r, st).

Lemma state_free_ret {A} (a : A) : state_free (ret a).
Proof. exists (Ok a). split; [exact I|reflexivity]. Qed.

Lemma state_free_stuck {A} : state_free (@stuck A).
Proof. exists Stuck. split; [exact I|reflexivity]. Qed.

Lemma state_free_raise {A} line ty msg : state_free (@raise_here A line ty msg).
Proof. eexists. split; [|reflexivity]. exact I. Qed.

Lemma reported_nil {A} (r : res A) : from_script r -> reported r [].
Proof. destruct r as [a|l [] e|]; simpl; try contradiction; constructor. Qed.

Lemma quiet_app evs1 evs2 : quiet evs1 -> quiet evs2 -> quiet (evs1 ++ evs2).
Proof. apply Forall_app_2. Qed.

Lemma reported_app {A} (r : res A) evs1 evs2 :
  quiet evs1 -> reported r evs2 -> reported r (evs1 ++ evs2).
Proof.
  intros Hq. destruct r as [a|l [] e|]; simpl; auto using quiet_app.
  intros (evs0 & op & w & -> & Hq0). exists (evs1 ++ evs0), op, w.
  split; [by rewrite app_assoc|]. by apply quiet_app.
Qed.

(** A failure passes through [bind] as it is. *)
Lemma reported_fail {A B} l o e evs :
  reported (@Raised A l o e) evs -> reported (@Raised B l o e) evs.
Proof. destruct o; exact id. Qed.

Lemma state_free_bind {A B} (m : M A) (k : A -> M B) :
  state_free m -> (forall a, state_free (k a)) -> state_free (bind m k).
Proof.
  intros (r & Hfrom & Hr) Hk. destruct r as [a|l o e|].
  - destruct (Hk a) as (r' & Hfrom' & Hr'). exists r'.
    split; [assumption|]. intros st. unfold bind. rewrite Hr. apply Hr'.
  - exists (Raised l o e). split; [destruct o; exact Hfrom|].
    intros st. unfold bind. rewrite Hr. reflexivity.
  - exists Stuck. split; [exact I|].
    intros st. unfold bind. rewrite Hr. reflexivity.
Qed.

Lemma state_free_format_value line sp v : state_free (format_value line sp v).
Proof.
  destruct sp; simpl.
  - destruct (py_str v); auto using @state_free_ret, @state_free_stuck.
  - destruct v; try destruct (exact_float _);
      auto using @state_free_ret, @state_free_stuck, @state_free_raise.
Qed.

Lemma state_free_render line ps args : state_free (render line ps args).
Proof.
  revert args. induction ps as [|[c|f] ps IH]; intros args; simpl.
  - apply state_free_ret.
  - apply state_free_bind; [apply IH|]. intros. apply state_free_ret.
  - destruct (parse_field f); [|apply state_free_stuck].
    destruct args; [apply state_free_raise|].
    apply state_free_bind; [apply state_free_format_value|]. intros.
    apply state_free_bind; [apply IH|]. intros. apply state_free_ret.
Qed.

Lemma state_free_str_format line fmt args :
  state_free (str_format line fmt args).
Proof.
  unfold str_format. destruct (parse_format None fmt).
  - apply state_free_bind; [apply state_free_render|].
    intros. apply state_free_ret.
  - apply state_free_stuck.
Qed.

Lemma state_free_unpack line v : state_free (unpack line v).
Proof.
  destruct v; simpl;
    auto using @state_free_ret, @state_free_stuck, @state_free_raise.
Qed.

Lemma state_free_greater a b : state_free (greater a b).
Proof.
  destruct a, b; simpl; auto using @state_free_ret, @state_free_stuck.
Qed.

Lemma emits_state_free {A} (m : M A) P : state_free m -> emits lib m P.
Proof.
  intros (r0 & Hfrom & Hr) st r st' _ H. rewrite Hr in H. inversion H; subst.
  split; [reflexivity|]. exists []. simpl. auto using @reported_nil.
Qed.

Lemma emits_mono {A} (m : M A) (P Q : event -> Prop) :
  (forall ev, P ev -> Q ev) -> emits lib m P -> emits lib m Q.
Proof.
  intros HPQ Hm st r st' Hun H.
  destruct (Hm st r st' Hun H) as (He & evs & Ht & Hf & Hr).
  split; [assumption|]. exists evs. eauto using follows_mono.
Qed.

Lemma unshadowed_env st st' :
  env st' = env st -> unshadowed st -> unshadowed st'.
Proof. intros He Hun x Hx. rewrite He. auto. Qed.

Lemma emits_bind {A B} (m : M A) (k : A -> M B) P :
  emits lib m P -> (forall a, emits lib (k a) P) -> emits lib (bind m k) P.
Proof.
  intros Hm Hk st r st' Hun H. unfold bind in H.
  destruct (m st) as [[a|l o e|] st1] eqn:E;
    destruct (Hm _ _ _ Hun E) as (He1 & evs1 & Ht1 & Hf1 & Hr1).
  - assert (Hun1 : unshadowed st1) by eauto using unshadowed_env.
    destruct (Hk a _ _ _ Hun1 H) as (He2 & evs2 & Ht2 & Hf2 & Hr2).
    split; [congruence|]. exists (evs1 ++ evs2).
    rewrite rev_app_distr, <- app_assoc, <- Ht1, Ht2.
    eauto using follows_app, @reported_app.
  - inversion H; subst. eauto 6 using @reported_fail.
  - inversion H; subst. eauto 6.
Qed.

Lemma emits_call_lib line op (P : event -> Prop) :
  (forall r w, P (EvLib line op r w)) -> emits lib (call_lib lib line op) P.
Proof.
  intros HP st r st' _ H. unfold call_lib in H.
  destruct (lib op (wld st)) as [res w1] eqn:E. simpl in H.
  assert (Hst : env st' = env st /\
          trace st' = EvLib line op res w1 :: trace st /\
          wld st' = w1 /\ reported r [EvLib line op res w1]).
  { destruct res as [v|e]; [destruct (plain v)|];
      inversion H; subst; simpl; repeat split; auto.
    - repeat constructor. exact id.
    - repeat constructor. exact id.
    - exists [], op, w1. split; [reflexivity|constructor]. }
  destruct Hst as (He & Ht & Hw & Hr). split; [assumption|].
  exists [EvLib line op res w1].
  simpl. rewrite Ht, Hw. repeat split; auto.
Qed.

Lemma emits_print line s (P : event -> Prop) :
  P (EvPrint line s) -> emits lib (emit_print line s) P.
Proof.
  intros HP st r st' _ H. inversion H; subst; simpl.
  split; [reflexivity|]. exists [EvPrint line s]. simpl.
  repeat split; auto. repeat constructor. exact id.
Qed.

Lemma emits_lookup_name line x P : emits lib (lookup_name line x) P.
Proof.
  intros st r st' _ H. unfold lookup_name in H.
  assert (st' = st /\ from_script r) as [-> Hr].
  { destruct (env st !! x); [|destruct (bool_decide _)];
      inversion H; split; reflexivity || exact I. }
  split; [reflexivity|]. exists []. simpl. auto using @reported_nil.
Qed.

End Rules.

(** *** The footprint is sound *)

(** An event on line [line] of one of the kinds [ks]. *)
Definition at_site (line : nat) (ks : list kind) (ev : event) : Prop :=
  ev_line ev = line /\ ev_kind ev ∈ ks.

Section Footprint.

Variable lib : library.

Lemma at_site_mono line ks ks' ev :
  ks ⊆ ks' -> at_site line ks ev -> at_site line ks' ev.
Proof. intros Hs [Hl Hk]. split; auto. Qed.

Lemma emits_sub {A} (m : M A) line ks ks' :
  ks ⊆ ks' ->
  emits lib m (at_site line ks) -> emits lib m (at_site line ks').
Proof. intros Hs. apply emits_mono. intros ev. by apply at_site_mono. Qed.

Lemma emits_getattr line v name :
  emits lib (getattr lib line v name) (at_site line [KAttr name]).
Proof.
  destruct v; simpl;
    try (apply emits_state_free; apply state_free_stuck).
  - destruct (bool_decide _); apply emits_state_free;
      auto using @state_free_ret, @state_free_stuck.
  - destruct (String.eqb _ _); apply emits_state_free;
      auto using @state_free_ret, @state_free_stuck.
  - apply emits_call_lib. intros. split; simpl; [reflexivity|set_solver].
Qed.

Lemma state_free_index_error {A} line (o : option A) (f : A -> value) ty msg :
  state_free (match o with
              | Some x => ret (f x)
              | None => raise_here line ty msg
              end).
Proof. destruct o; auto using @state_free_ret, @state_free_raise. Qed.

Lemma emits_getitem line v k :
  emits lib (getitem lib line v k) (at_site line [KItem]).
Proof.
  destruct v; simpl;
    try (apply emits_state_free; apply state_free_raise).
  - (* str *)
    apply emits_state_free. destruct (as_index k).
    + destruct (seq_index _ _); auto using @state_free_ret, @state_free_raise.
    + destruct k; auto using @state_free_stuck, @state_free_raise.
  - (* list *)
    apply emits_state_free. destruct (as_index k).
    + destruct (seq_index _ _); auto using @state_free_ret, @state_free_raise.
    + destruct k; auto using @state_free_stuck, @state_free_raise.
  - (* tuple *)
    apply emits_state_free. destruct (as_index k).
    + destruct (seq_index _ _); auto using @state_free_ret, @state_free_raise.
    + destruct k; auto using @state_free_stuck, @state_free_raise.
  - (* array *)
    apply emits_state_free. destruct k; auto using @state_free_stuck.
    destruct (seq_index _ _); auto using @state_free_ret, @state_free_stuck.
  - apply emits_call_lib. intros. split; simpl; [reflexivity|set_solver].
Qed.

Lemma state_free_str_method line s name args kwargs :
  state_free (call lib line (VMethod (VStr s) name) args kwargs).
Proof.
  simpl. destruct kwargs; [|apply state_free_stuck].
  destruct (String.eqb name "format"); [apply state_free_str_format|].
  destruct (String.eqb name "lower").
  { destruct args; auto using @state_free_ret, @state_free_raise. }
  destruct (String.eqb name "split").
  { destruct args; auto using @state_free_ret, @state_free_stuck. }
  apply state_free_stuck.
Qed.

Lemma emits_call_builtin line x args kwargs :
  emits lib (call lib line (VBuiltin x) args kwargs) (at_site line [KPrint]).
Proof.
  simpl. destruct (String.eqb x "print").
  - destruct kwargs; [|apply emits_state_free, state_free_stuck].
    destruct (print_text args) as [s|];
      [|apply emits_state_free, state_free_stuck].
    apply emits_bind.
    + apply emits_print. split; simpl; [reflexivity|set_solver].
    + intros. apply emits_state_free, state_free_ret.
  - apply emits_state_free, state_free_stuck.
Qed.

Lemma emits_call line f args kwargs :
  emits lib (call lib line f args kwargs) (at_site line [KCall; KPrint]).
Proof.
  destruct f as [| | | | | | | |a|self name|x];
    try (apply emits_state_free; apply state_free_raise).
  - apply emits_call_lib. intros. split; simpl; [reflexivity|set_solver].
  - destruct self;
      try (apply emits_call_lib; intros; split; simpl;
           [reflexivity|set_solver]).
    apply emits_state_free, state_free_str_method.
  - eapply emits_sub; [|apply emits_call_builtin]. set_solver.
Qed.

Lemma emits_bind_post {A B} (m : M A) (k : A -> M B) P (Q : A -> Prop) :
  emits lib m P ->
  (forall st a st', unshadowed st -> m st = (Ok a, st') -> Q a) ->
  (forall a, Q a -> emits lib (k a) P) ->
  emits lib (bind m k) P.
Proof.
  intros Hm HQ Hk st r st' Hun H. unfold bind in H.
  destruct (m st) as [[a|l o e|] st1] eqn:E;
    destruct (Hm _ _ _ Hun E) as (He1 & evs1 & Ht1 & Hf1 & Hr1).
  - assert (Hun1 : unshadowed st1) by eauto using unshadowed_env.
    destruct (Hk a (HQ _ _ _ Hun E) _ _ _ Hun1 H)
      as (He2 & evs2 & Ht2 & Hf2 & Hr2).
    split; [congruence|]. exists (evs1 ++ evs2).
    rewrite rev_app_distr, <- app_assoc, <- Ht1, Ht2.
    eauto using follows_app, @reported_app.
  - inversion H; subst. eauto 6 using @reported_fail.
  - inversion H; subst. eauto 6.
Qed.

(** What the lookup of an attribute gives on a value that is not an
    object of the library: a method of [str], or a shape. *)
Definition own_attr (obj fv : value) : Prop :=
  match obj with
  | VObj _ => True
  | _ =>
      match fv with
      | VMethod (VStr _) _ | VTuple _ => True
      | _ => False
      end
  end.

Lemma getattr_own line obj name st fv st' :
  getattr lib line obj name st = (Ok fv, st') -> own_attr obj fv.
Proof.
  destruct obj; simpl; try discriminate; auto.
  - destruct (bool_decide _); [|discriminate].
    intros H; inversion H; subst. exact I.
  - destruct (String.eqb _ _); [|discriminate].
    intros H; inversion H; subst. exact I.
Qed.

Lemma emits_call_method line obj name fv args kwargs :
  own_attr obj fv ->
  emits lib (call_method lib line obj name fv args kwargs)
        (at_site line [KMethod name]).
Proof.
  intros Hown.
  destruct obj; simpl in *;
    try (destruct fv as [| | | | | | | | |[]|]; try contradiction;
         apply emits_state_free;
         first [apply state_free_str_method | apply state_free_raise]).
  apply emits_call_lib. intros. split; simpl; [reflexivity|set_solver].
Qed.

(** A method call: the lookup, the arguments, the call. *)
Lemma emits_method_call line obj name
    (margs : M (list value * list (string * value))) ks :
  KAttr name ∈ ks -> KMethod name ∈ ks ->
  emits lib margs (at_site line ks) ->
  emits lib (do fv <- getattr lib line obj name;
             do pk <- margs;
             call_method lib line obj name fv (fst pk) (snd pk))
        (at_site line ks).
Proof.
  intros Hattr Hmeth Hargs.
  apply emits_bind_post with (Q := own_attr obj).
  { eapply emits_sub; [|apply emits_getattr]. set_solver. }
  { intros st a st' _. apply getattr_own. }
  intros fv Hown. apply emits_bind; [assumption|]. intros pk.
  eapply emits_sub; [|apply emits_call_method; assumption]. set_solver.
Qed.

Lemma flat_map_sub {A B} (f : A -> list B) (x : A) (l : list A) :
  x ∈ l -> f x ⊆ flat_map f l.
Proof.
  intros Hx y Hy. apply list_elem_of_In, in_flat_map.
  exists x. split; by apply list_elem_of_In.
Qed.

Lemma emits_eval_list line es ks :
  Forall (fun e => emits lib (eval lib line e) (at_site line (expr_kinds e)))
         es ->
  flat_map expr_kinds es ⊆ ks ->
  emits lib (eval_list lib line es) (at_site line ks).
Proof.
  induction 1 as [|e es He Hes IH]; intros Hsub; simpl.
  - apply emits_state_free, state_free_ret.
  - simpl in Hsub. apply emits_bind.
    { eapply emits_sub; [|exact He]. set_solver. }
    intros v. apply emits_bind; [apply IH; set_solver|].
    intros vs. apply emits_state_free, state_free_ret.
Qed.

Lemma emits_eval_args line args ks :
  Forall (fun a => emits lib (eval lib line a.2)
                     (at_site line (expr_kinds a.2))) args ->
  flat_map (fun a => expr_kinds a.2) args ⊆ ks ->
  emits lib (eval_args lib line args) (at_site line ks).
Proof.
  induction 1 as [|[kd e] args He Hes IH]; intros Hsub; simpl.
  - apply emits_state_free, state_free_ret.
  - simpl in Hsub, He. apply emits_bind.
    { eapply emits_sub; [|exact He]. set_solver. }
    assert (Hrest : emits lib (eval_args lib line args) (at_site line ks))
      by (apply IH; set_solver).
    intros v. destruct kd.
    + apply emits_bind; [assumption|].
      intros. apply emits_state_free, state_free_ret.
    + apply emits_bind; [apply emits_state_free, state_free_unpack|].
      intros. apply emits_bind; [assumption|].
      intros. apply emits_state_free, state_free_ret.
    + apply emits_bind; [assumption|].
      intros. apply emits_state_free, state_free_ret.
Qed.

Lemma lookup_builtin line x st v st' :
  x ∈ builtins -> unshadowed st ->
  lookup_name line x st = (Ok v, st') -> v = VBuiltin x.
Proof.
  intros Hx Hun. unfold lookup_name. rewrite (Hun x Hx).
  rewrite bool_decide_eq_true_2 by assumption. congruence.
Qed.

(** An expression whose text tells its string evaluates to it. *)
Lemma str_value_eval line e s st :
  str_value e = Some s -> eval lib line e st = (Ok (VStr s), st).
Proof.
  revert s st.
  induction e as [x|s0|z|x|b|es IH|e name IH|e i IHe IHi
                 |e name args IHe IHargs|f args Hf IHf IHargs
                 |a b IHa IHb] using expr_ind2;
    intros s st Hs; try discriminate Hs.
  - injection Hs as ->. reflexivity.
  - simpl in Hs. destruct args; [|discriminate Hs].
    destruct (String.eqb name "lower") eqn:Hn; [|discriminate Hs].
    apply String.eqb_eq in Hn as ->.
    destruct (str_value e) as [s'|] eqn:Hs'; [|discriminate Hs].
    injection Hs as <-. rewrite eval_method. unfold bind.
    rewrite (IHe s' st eq_refl). reflexivity.
  - destruct f; try discriminate Hf; discriminate Hs.
Qed.

Lemma emits_str_value {A} line e s (k : value -> M A) P :
  str_value e = Some s ->
  emits lib (k (VStr s)) P ->
  emits lib (do v <- eval lib line e; k v) P.
Proof.
  intros Hs Hk st r st' Hun H. unfold bind in H.
  rewrite (str_value_eval line e s st Hs) in H. eauto.
Qed.

(** Evaluating an expression produces only events of its footprint,
    on the line of its statement. *)
Lemma emits_eval line e :
  emits lib (eval lib line e) (at_site line (expr_kinds e)).
Proof.
  induction e as [x|s|z|x|b|es IH|e name IH|e i IHe IHi
                 |e name args IHe IHargs|f args Hf IHf IHargs
                 |a b IHa IHb] using expr_ind2.
  - apply emits_lookup_name.
  - apply emits_state_free, state_free_ret.
  - apply emits_state_free, state_free_ret.
  - apply emits_state_free, state_free_ret.
  - apply emits_state_free, state_free_ret.
  - rewrite eval_EList. apply emits_bind.
    + apply emits_eval_list; [assumption|]. simpl. set_solver.
    + intros. apply emits_state_free, state_free_ret.
  - simpl. destruct (str_value e) as [s|] eqn:Hs.
    + apply (emits_str_value line e s); [assumption|].
      simpl. destruct (bool_decide _); apply emits_state_free;
        auto using @state_free_ret, @state_free_stuck.
    + apply emits_bind.
      * eapply emits_sub; [|exact IH]. set_solver.
      * intros v. eapply emits_sub; [|apply emits_getattr]. set_solver.
  - simpl. apply emits_bind.
    { eapply emits_sub; [|exact IHe]. set_solver. }
    intros v. apply emits_bind.
    { eapply emits_sub; [|exact IHi]. set_solver. }
    intros k. eapply emits_sub; [|apply emits_getitem]. set_solver.
  - rewrite eval_method.
    change (expr_kinds (ECall (EAttr e name) args))
      with (match str_value e with
            | Some _ => flat_map (fun a => expr_kinds a.2) args
            | None =>
                expr_kinds e ++ [KAttr name]
                ++ flat_map (fun a => expr_kinds a.2) args ++ [KMethod name]
            end).
    destruct (str_value e) as [s|] eqn:Hs.
    + apply (emits_str_value line e s); [assumption|].
      apply emits_bind_post with (Q := own_attr (VStr s)).
      { apply emits_state_free. simpl.
        destruct (bool_decide _);
          auto using @state_free_ret, @state_free_stuck. }
      { intros st a st' _. apply getattr_own. }
      intros fv Hown. apply emits_bind.
      { apply emits_eval_args; [assumption|]. set_solver. }
      intros pk. simpl in Hown.
      destruct fv as [| | | | | | | | |[]|]; try contradiction;
        apply emits_state_free;
        first [apply state_free_str_method | apply state_free_raise].
    + apply emits_bind.
      { eapply emits_sub; [|exact IHe]. set_solver. }
      intros obj. apply emits_method_call; [set_solver|set_solver|].
      apply emits_eval_args; [assumption|]. set_solver.
  - rewrite eval_call by assumption.
    assert (Hargs : forall ks,
      flat_map (fun a => expr_kinds a.2) args ⊆ ks ->
      emits lib (eval_args lib line args) (at_site line ks))
      by (intros; by apply emits_eval_args).
    assert (Hgen : forall ks,
      expr_kinds f ⊆ ks -> flat_map (fun a => expr_kinds a.2) args ⊆ ks ->
      KCall ∈ ks -> KPrint ∈ ks ->
      emits lib (do fv <- eval lib line f;
                 do pk <- eval_args lib line args;
                 call lib line fv pk.1 pk.2) (at_site line ks)).
    { intros ks H1 H2 H3 H4. apply emits_bind.
      { eapply emits_sub; [|exact IHf]. assumption. }
      intros fv. apply emits_bind; [by apply Hargs|].
      intros pk. eapply emits_sub; [|apply emits_call]. set_solver. }
    destruct f as [x| | | | | | | | |]; try discriminate Hf;
      try (apply Hgen; simpl; set_solver).
    simpl expr_kinds. destruct (bool_decide (x ∈ builtins)) eqn:Hb.
    + apply bool_decide_eq_true_1 in Hb.
      apply emits_bind_post with (Q := fun fv => fv = VBuiltin x).
      { apply emits_lookup_name. }
      { intros st a st' Hun. simpl. by apply lookup_builtin. }
      intros fv ->. apply emits_bind; [apply Hargs; set_solver|].
      intros pk. eapply emits_sub; [|apply emits_call_builtin]. set_solver.
    + apply Hgen; simpl; set_solver.
  - simpl. apply emits_bind.
    { eapply emits_sub; [|exact IHa]. set_solver. }
    intros x. apply emits_bind.
    { eapply emits_sub; [|exact IHb]. set_solver. }
    intros y. apply emits_state_free, state_free_greater.
Qed.

End Footprint.

(** *** Statements and blocks of the straight-line fragment *)

Section Blocks.

Variable lib : library.

Lemma emits_binding_of_emits (m : M unit) xs P :
  emits lib m P -> emits_binding lib m xs P.
Proof.
  intros Hm st r st' Hun H. destruct (Hm st r st' Hun H) as [He Hev].
  split; [|assumption]. intros y _. by rewrite He.
Qed.

Lemma emits_then_set (m : M value) x P :
  emits lib m P -> emits_binding lib (do v <- m; set_name x v) [x] P.
Proof.
  intros Hm st r st' Hun H. unfold bind in H.
  destruct (m st) as [[v|l o e|] st1] eqn:E;
    destruct (Hm _ _ _ Hun E) as (He & evs & Ht & Hf & Hr);
    inversion H; subst; simpl.
  - split; [|eauto]. intros y Hy. rewrite He.
    apply lookup_insert_ne. set_solver.
  - split; [|eauto using @reported_fail]. intros y _. by rewrite He.
  - split; [|eauto]. intros y _. by rewrite He.
Qed.

(** A simple statement produces only events of its footprint, on its
    line, and binds at most the name it assigns. *)
Lemma emits_exec line s :
  simple s = true ->
  emits_binding lib (exec lib line s) (stmt_binds s)
    (at_site line (stmt_kinds s)).
Proof.
  destruct s as [m a|m n|x e|o k e|o k|e| | |]; try discriminate; intros _.
  - apply emits_then_set. apply emits_call_lib.
    intros; split; simpl; [reflexivity|set_solver].
  - apply emits_then_set. apply emits_call_lib.
    intros; split; simpl; [reflexivity|set_solver].
  - apply emits_then_set. apply emits_eval.
  - apply emits_binding_of_emits. simpl.
    apply emits_bind.
    { eapply emits_sub; [|apply emits_eval]. set_solver. }
    intros v. apply emits_bind.
    { eapply emits_sub; [|apply emits_eval]. set_solver. }
    intros ov. apply emits_bind.
    { eapply emits_sub; [|apply emits_eval]. set_solver. }
    intros kv. destruct ov; try apply emits_state_free, state_free_stuck.
    apply emits_bind.
    + apply emits_call_lib. intros; split; simpl; [reflexivity|set_solver].
    + intros. apply emits_state_free, state_free_ret.
  - apply emits_binding_of_emits. simpl.
    apply emits_bind.
    { eapply emits_sub; [|apply emits_eval]. set_solver. }
    intros ov. apply emits_bind.
    { eapply emits_sub; [|apply emits_eval]. set_solver. }
    intros kv. destruct ov; try apply emits_state_free, state_free_stuck.
    apply emits_bind.
    + apply emits_call_lib. intros; split; simpl; [reflexivity|set_solver].
    + intros. apply emits_state_free, state_free_ret.
  - apply emits_binding_of_emits. simpl.
    apply emits_bind; [apply emits_eval|].
    intros. apply emits_state_free, state_free_ret.
Qed.

(** The lines of the events [evs] do not decrease. *)
Definition in_line_order (evs : list event) : Prop :=
  StronglySorted le (ev_line <$> evs).

(** What a block of simple statements does: events of its footprint,
    in the order of the lines, for which the result accounts, and no
    other names bound than those it assigns. *)
Definition block_post (p : program) (st : state) (r : res unit)
    (st' : state) : Prop :=
  (forall y, y ∉ binds p -> env st' !! y = env st !! y) /\
  exists evs, trace st' = rev evs ++ trace st
    /\ follows lib (fun ev => ev_site ev ∈ sites p) (wld st) evs (wld st')
    /\ reported r evs
    /\ (increasing (fst <$> p) = true -> in_line_order evs).

Lemma increasing_cons l ls :
  increasing (l :: ls) = true ->
  increasing ls = true /\ forall x, x ∈ ls -> (l < x)%nat.
Proof.
  revert l. induction ls as [|b ls IH]; intros l; simpl.
  - intros _. split; [reflexivity|]. intros x Hx. inversion Hx.
  - intros [Hlt Hinc]%andb_true_iff. apply Nat.ltb_lt in Hlt.
    split; [assumption|]. intros x [->|Hx]%elem_of_cons; [assumption|].
    destruct (IH b Hinc) as [_ Hb]. specialize (Hb x Hx). lia.
Qed.

Lemma site_line (p : program) ev :
  ev_site ev ∈ sites p -> ev_line ev ∈ fst <$> p.
Proof.
  unfold sites. intros Hin. apply list_elem_of_In, in_flat_map in Hin.
  destruct Hin as ([l s] & Hls & Hk). apply list_elem_of_In in Hls, Hk.
  apply list_elem_of_fmap in Hk as (k & Heq & _).
  apply list_elem_of_fmap. exists (l, s). split; [|assumption].
  unfold ev_site in Heq. simpl in *. congruence.
Qed.

Lemma same_line_order l evs :
  Forall (fun ev => ev_line ev = l) evs -> in_line_order evs.
Proof.
  unfold in_line_order. induction 1 as [|ev evs Hev Hevs IH]; simpl.
  - constructor.
  - constructor; [assumption|]. apply Forall_fmap.
    eapply Forall_impl; [exact Hevs|]. simpl. intros; lia.
Qed.

Lemma exec_block_post (p : program) st r st' :
  forallb (fun ls => simple ls.2) p = true ->
  (forall x, x ∈ builtins -> x ∉ binds p) ->
  unshadowed st ->
  exec_block lib p st = (r, st') ->
  block_post p st r st' /\ unshadowed st'.
Proof.
  revert st. induction p as [|[l s] p IH]; intros st Hsimple Hb Hun H.
  - inversion H; subst. split; [|assumption]. split; [auto|].
    exists []. simpl. repeat split; auto; [constructor|].
    intros _. constructor.
  - simpl in Hsimple. apply andb_true_iff in Hsimple as [Hs Hp].
    assert (Hb1 : forall x, x ∈ builtins -> x ∉ stmt_binds s).
    { intros x Hx Hin. apply (Hb x Hx). unfold binds. simpl.
      apply elem_of_app. by left. }
    assert (Hb2 : forall x, x ∈ builtins -> x ∉ binds p).
    { intros x Hx Hin. apply (Hb x Hx). unfold binds. simpl.
      apply elem_of_app. by right. }
    simpl in H. unfold bind in H.
    destruct (exec lib l s st) as [r1 st1] eqn:E.
    destruct (emits_exec l s Hs st r1 st1 Hun E)
      as (He1 & evs1 & Ht1 & Hf1 & Hr1).
    assert (Hun1 : unshadowed st1).
    { intros x Hx. rewrite He1 by auto. auto. }
    assert (Hf1' : follows lib (fun ev => ev_site ev ∈ sites ((l, s) :: p))
                     (wld st) evs1 (wld st1)).
    { eapply follows_mono; [|exact Hf1]. intros ev [Hl Hk].
      unfold sites. simpl. apply elem_of_app. left.
      apply list_elem_of_fmap. exists (ev_kind ev). split; [|assumption].
      unfold ev_site. by rewrite Hl. }
    assert (Hl1 : Forall (fun ev => ev_line ev = l) evs1).
    { eapply Forall_impl; [exact (follows_Forall lib _ _ _ _ Hf1)|].
      by intros ev [Hl _]. }
    assert (Hstop : r1 = r /\ st1 = st' \/
                    exists u, r1 = Ok u /\ exec_block lib p st1 = (r, st')).
    { destruct r1 as [u| |]; [right; eauto|left|left]; by inversion H. }
    destruct Hstop as [[-> ->]|(u & -> & Hrest)].
    + split; [|assumption]. split.
      { intros y Hy. apply He1. intros Hin. apply Hy. unfold binds. simpl.
        apply elem_of_app. by left. }
      exists evs1. repeat split; auto. intros _.
      by eapply same_line_order.
    + destruct (IH st1 Hp Hb2 Hun1 Hrest)
        as [(He2 & evs2 & Ht2 & Hf2 & Hr2 & Hs2) Hun2].
      split; [|assumption]. split.
      { intros y Hy. rewrite He2, He1; [reflexivity| |].
        - intros Hin. apply Hy. unfold binds. simpl.
          apply elem_of_app. by left.
        - intros Hin. apply Hy. unfold binds. simpl.
          apply elem_of_app. by right. }
      exists (evs1 ++ evs2). split; [|split; [|split]].
      * rewrite rev_app_distr, <- app_assoc, <- Ht1, Ht2. reflexivity.
      * eapply follows_app; [exact Hf1'|].
        eapply follows_mono; [|exact Hf2]. intros ev Hev.
        unfold sites. simpl. apply elem_of_app. by right.
      * by apply reported_app.
      * intros Hinc. simpl in Hinc.
        apply increasing_cons in Hinc as [Hinc Hlt].
        unfold in_line_order. rewrite fmap_app.
        apply StronglySorted_app_2.
        -- intros x1 x2 Hx1 Hx2.
           apply list_elem_of_fmap in Hx1 as (ev1 & -> & Hev1).
           apply list_elem_of_fmap in Hx2 as (ev2 & -> & Hev2).
           rewrite Forall_forall in Hl1. rewrite (Hl1 ev1 Hev1).
           pose proof (follows_Forall lib _ _ _ _ Hf2) as Hall.
           rewrite Forall_forall in Hall.
           specialize (Hlt _ (site_line p ev2 (Hall ev2 Hev2))). lia.
        -- by eapply same_line_order.
        -- by apply Hs2.
Qed.

End Blocks.

(** ** The scripts, line by line *)

Local Open Scope nat_scope.

(** The statements of a program up to line [n], and those after it. *)
Definition upto (n : nat) (p : program) : program :=
  List.filter (fun ls => (ls.1 <=? n)%nat) p.

Definition after (n : nat) (p : program) : program :=
  List.filter (fun ls => negb (ls.1 <=? n)%nat) p.

Lemma gs_similarity_split_50 :
  gs_similarity = upto 50 gs_similarity ++ after 50 gs_similarity.
Proof. vm_compute. reflexivity. Qed.

Lemma gs_similarity_split_4 :
  gs_similarity = upto 4 gs_similarity ++ after 4 gs_similarity.
Proof. vm_compute. reflexivity. Qed.

(** *** The name [model] in [gs_similarity.py] *)

Definition name_error (x : string) : exn :=
  Exn "NameError" ("name '" +:+ x +:+ "' is not defined").

(** Running the module raises [NameError] for [x] on line [line]. *)
Definition raises_name_error (lib : library) (p : program) (w : world)
    (line : nat) (x : string) : Prop :=
  (run lib p w).1 = Uncaught line InScript (name_error x).

Section Undefined.

Variable lib : library.

Lemma method_raises line x name1 name2 args st :
  env st !! x = None -> x ∉ builtins ->
  eval lib line (ECall (EAttr (EAttr (EName x) name1) name2) args) st
  = (Raised line InScript (name_error x), st).
Proof.
  intros Hx Hb. rewrite eval_method. unfold bind. simpl.
  unfold bind, lookup_name.
  rewrite Hx. rewrite bool_decide_eq_false_2 by assumption. reflexivity.
Qed.

Lemma after_50 :
  after 50 gs_similarity = drop 24 gs_similarity.
Proof. vm_compute. reflexivity. Qed.

Lemma evaluation_stops st :
  env st !! "model" = None ->
  exec_block lib (after 50 gs_similarity) st
  = (Raised 52 InScript (name_error "model"), st).
Proof.
  intros Hm. rewrite after_50. unfold gs_similarity. cbn [drop].
  cbn [exec_block exec]. unfold bind at 1. unfold bind at 1.
  unfold method. rewrite method_raises; [reflexivity|assumption|].
  unfold builtins. intros [=]%list_elem_of_singleton.
Qed.

Lemma head_post st r st' :
  unshadowed st ->
  exec_block lib (upto 50 gs_similarity) st = (r, st') ->
  block_post lib (upto 50 gs_similarity) st r st' /\ unshadowed st'.
Proof.
  apply exec_block_post.
  - vm_compute. reflexivity.
  - apply Forall_forall. compute_done.
Qed.

Lemma unshadowed_initial w : unshadowed (initial w).
Proof. intros x _. apply lookup_empty. Qed.

Lemma exec_gs_similarity st :
  exec_block lib gs_similarity st
  = (do _ <- exec_block lib (upto 50 gs_similarity);
     exec_block lib (after 50 gs_similarity)) st.
Proof.
  rewrite <- exec_block_app, <- gs_similarity_split_50. reflexivity.
Qed.

End Undefined.

(** C9, as amended.  In every run of [gs_similarity.py], against any
    library and in any world: the run does not finish normally;
    nothing happens on lines 52 and 56, so neither evaluation method
    is called, nor [datapath]; and whenever the statements of lines 2
    to 50 complete, the statement on line 52 raises [NameError] for
    [model], a name that no statement of the script binds. *)
Theorem gs_similarity_model_undefined (lib : library) (w : world) :
  (run lib gs_similarity w).1 <> Finished /\
  Forall (fun ev => ev_line ev <= 50 /\
                    ev_kind ev ∉ [KCall; KMethod "evaluate_word_pairs";
                                  KMethod "evaluate_word_analogies"])
         (events lib gs_similarity w) /\
  ((exec_block lib (upto 50 gs_similarity) (initial w)).1 = Ok tt ->
   (run lib gs_similarity w).1 = Uncaught 52 InScript (name_error "model")).
Proof.
  unfold events, run. rewrite exec_gs_similarity. unfold bind.
  destruct (exec_block lib (upto 50 gs_similarity) (initial w))
    as [r1 st1] eqn:E.
  destruct (head_post lib _ _ _ (unshadowed_initial w) E)
    as [(Henv & evs & Ht & Hf & _) _].
  assert (Hm : env st1 !! "model" = None).
  { rewrite Henv; [apply lookup_empty|]. compute_done. }
  assert (Hev : Forall (fun ev => ev_line ev <= 50 /\
                    ev_kind ev ∉ [KCall; KMethod "evaluate_word_pairs";
                                  KMethod "evaluate_word_analogies"])
                  (rev (trace st1))).
  { rewrite Ht. simpl. rewrite app_nil_r, rev_involutive.
    eapply Forall_impl; [exact (follows_Forall lib _ _ _ _ Hf)|].
    intros ev Hsite. simpl in Hsite.
    assert (Hall : Forall (fun lk : nat * kind => lk.1 <= 50 /\
               lk.2 ∉ [KCall; KMethod "evaluate_word_pairs";
                        KMethod "evaluate_word_analogies"])
             (sites (upto 50 gs_similarity))) by compute_done.
    rewrite Forall_forall in Hall. exact (Hall _ Hsite). }
  destruct r1 as [[]|l o e|].
  - rewrite (evaluation_stops lib st1 Hm). simpl.
    repeat split; [discriminate|assumption].
  - simpl. repeat split; [discriminate|assumption|discriminate].
  - simpl. repeat split; [discriminate|assumption|discriminate].
Qed.

(** Against the demonstration library, with the network up, lines 2
    to 50 complete and line 52 raises. *)
Lemma gs_similarity_model_undefined_witness :
  (run Demo.lib gs_similarity Demo.online).1
  = Uncaught 52 InScript (name_error "model").
Proof.
  apply (proj2 (proj2 (gs_similarity_model_undefined Demo.lib Demo.online))).
  vm_compute. reflexivity.
Defined.

(** C9 as stated fails: with the network down the download on line 4
    raises, and the run ends there, not with a [NameError] on line
    52. *)
Lemma gs_similarity_offline_no_name_error :
  ~ raises_name_error Demo.lib gs_similarity Demo.offline 52 "model".
Proof. unfold raises_name_error. vm_compute. discriminate. Qed.

(** *** Error handling *)

(** Does a statement hold a [try], at any depth? *)
Fixpoint handles (s : stmt) : bool :=
  let block :=
    fix block (p : list (nat * stmt)) : bool :=
      match p with
      | [] => false
      | (_, s') :: r => handles s' || block r
      end in
  match s with
  | STry _ _ => true
  | SIf _ thn els => block thn || block els
  | SFor _ _ body => block body
  | _ => false
  end.

Definition has_handlers (p : program) : bool :=
  existsb (fun ls => handles ls.2) p.

#[global] Instance raised_by_library_dec ev : Decision (raised_by_library ev).
Proof. destruct ev as [l op [v|e] w|l s]; simpl; apply _. Defined.

(** How a run ends accounts for what the library did. *)
Definition accounted (e : ending) (evs : list event) : Prop :=
  match e with
  | Uncaught l InLibrary x =>
      exists evs0 op w, evs = evs0 ++ [EvLib l op (LRaise x) w] /\ quiet evs0
  | _ => quiet evs
  end.

(** No statement of the program binds the name of a builtin. *)
Definition keeps_builtins (p : program) : Prop :=
  Forall (fun x => x ∉ binds p) builtins.

(** In a program of simple statements nothing stands between the
    library and the process: an exception that the library raises
    ends the run on the spot, as the exception it is; and a run that
    ends otherwise has seen no exception of the library. *)
Lemma library_exception_ends_run (lib : library) (p : program) (w : world) :
  forallb (fun ls => simple ls.2) p = true ->
  keeps_builtins p ->
  accounted (run lib p w).1 (events lib p w).
Proof.
  intros Hs Hb. unfold events, run.
  destruct (exec_block lib p (initial w)) as [r st] eqn:E.
  assert (Hb' : forall x, x ∈ builtins -> x ∉ binds p).
  { unfold keeps_builtins in Hb. rewrite Forall_forall in Hb. exact Hb. }
  assert (Hun : unshadowed (initial w)) by (intros x _; apply lookup_empty).
  destruct (exec_block_post lib p _ _ _ Hs Hb' Hun E)
    as [(_ & evs & Ht & _ & Hr & _) _].
  assert (Hev : rev (trace st) = evs).
  { rewrite Ht. simpl. by rewrite app_nil_r, rev_involutive. }
  destruct r as [[]|l o e|]; simpl; rewrite Hev; exact Hr.
Qed.

(** A [try] would stand in between: around the download, it turns
    the library's exception into a normal end of the run. *)
Definition guarded_load : program := [
  (1, SImportAs "gensim.downloader" "api");
  (2, STry [(3, SAssign "word_vectors"
                  (method (EName "api") "load"
                     [(Pos, EStr "glove-wiki-gigaword-100")]))]
           [(None, [(5, SAssign "word_vectors" (EList []))])])
].

Example guarded_load_recovers :
  (run Demo.lib guarded_load Demo.offline).1 = Finished
  /\ ~ quiet (events Demo.lib guarded_load Demo.offline).
Proof. split; [vm_compute; reflexivity|]. unfold quiet. compute_done. Qed.

Lemma modules_have_no_handlers doc :
  has_handlers gs_similarity = false
  /\ has_handlers gs_train_model = false
  /\ has_handlers (gensim_exm doc) = false.
Proof. repeat split; reflexivity. Qed.

(** C1 fails on the code.  Against a library on which the download
    and every query succeed, the run of [gs_similarity.py] ends with
    an exception that was raised in the script's own frame, the
    [NameError] for [model] on line 52, while the library raised
    nothing during the whole run. *)
Theorem gs_similarity_fails_in_own_code :
  (run Demo.lib gs_similarity Demo.online).1
  = Uncaught 52 InScript (name_error "model")
  /\ quiet (events Demo.lib gs_similarity Demo.online).
Proof. split; [vm_compute; reflexivity|]. unfold quiet. compute_done. Qed.

(** *** The training script *)

Definition hyperparameters : list (string * value) :=
  [("size", VInt 100); ("window", VInt 5); ("min_count", VInt 1);
   ("workers", VInt 4)].

Definition is_call (ev : event) : bool :=
  match ev_kind ev with
  | KCall | KMethod _ => true
  | _ => false
  end.

(** A value that is the library's to call. *)
Definition library_object (f : value) : bool :=
  plain f && match f with VObj _ | VMethod _ _ => true | _ => false end.

Definition import_corpus : libop :=
  OpImportFrom "gensim.test.utils" "common_texts".
Definition import_Word2Vec : libop := OpImportFrom "gensim.models" "Word2Vec".

(** The events of lines 1 to 4 of the training script: the two
    imports and, third, the call of what the second import gave on
    what the first gave. *)
Definition constructor_called (lib : library) (w : world)
    (evs : list event) : Prop :=
  (forall i ev, evs !! i = Some ev -> is_call ev = true ->
     i = 2 /\ exists f corpus r w1 w2 w3,
       ev = EvLib 4 (OpCall f [corpus] hyperparameters) r w3 /\
       evs !! 0 = Some (EvLib 1 import_corpus (LOk corpus) w1) /\
       evs !! 1 = Some (EvLib 2 import_Word2Vec (LOk f) w2))
  /\ (forall f corpus w1 w2,
        lib import_corpus w = (LOk corpus, w1) ->
        plain corpus = true ->
        lib import_Word2Vec w1 = (LOk f, w2) ->
        library_object f = true ->
        exists r w3,
          evs !! 2 = Some (EvLib 4 (OpCall f [corpus] hyperparameters) r w3)).

Lemma train_split :
  gs_train_model = upto 4 gs_train_model ++ after 4 gs_train_model.
Proof. reflexivity. Qed.


Section Inversion.

Variable lib : library.

Lemma bind_inv {A B} (m : M A) (k : A -> M B) st r st' :
  bind m k st = (r, st') ->
  (exists a st1, m st = (Ok a, st1) /\ k a st1 = (r, st'))
  \/ (exists l o e, m st = (Raised l o e, st') /\ r = Raised l o e)
  \/ (m st = (Stuck, st') /\ r = Stuck).
Proof.
  unfold bind. destruct (m st) as [[a|l o e|] st1]; intros H.
  - left. eauto.
  - right. left. inversion H; subst. eauto 6.
  - right. right. inversion H; subst. eauto.
Qed.

(** What an operation of the library leaves behind. *)
Definition after_op (line : nat) (op : libop) (st : state) : state :=
  State (env st) (lib op (wld st)).2
        (EvLib line op (lib op (wld st)).1 (lib op (wld st)).2 :: trace st).

Lemma call_lib_inv line op st r st' :
  call_lib lib line op st = (r, st') ->
  st' = after_op line op st /\
  r = match (lib op (wld st)).1 with
      | LOk v => if plain v then Ok v else Stuck
      | LRaise e => Raised line InLibrary e
      end.
Proof.
  unfold call_lib, after_op.
  destruct (lib op (wld st)).1 as [v|e]; [destruct (plain v)|];
    intros H; inversion H; subst; auto.
Qed.

(** An import binds the name, if the library delivers. *)
Lemma exec_import_from line m n st r st' :
  exec lib line (SImportFrom m n) st = (r, st') ->
  let st1 := after_op line (OpImportFrom m n) st in
  match (lib (OpImportFrom m n) (wld st)).1 with
  | LOk v =>
      if plain v
      then r = Ok tt /\ st' = State (<[n := v]> (env st1)) (wld st1) (trace st1)
      else r = Stuck /\ st' = st1
  | LRaise e => r = Raised line InLibrary e /\ st' = st1
  end.
Proof.
  cbn [exec]. intros H.
  apply bind_inv in H as [(a & st1 & H1 & H2)|[(l & o & e & H1 & ->)|(H1 & ->)]];
    apply call_lib_inv in H1 as [-> Hr];
    destruct (lib (OpImportFrom m n) (wld st)).1 as [v|e'];
    try destruct (plain v); try discriminate Hr.
  - inversion Hr; subst. inversion H2; subst. auto.
  - inversion Hr; subst. auto.
  - auto.
Qed.

(** Calling what the library delivered: the library is asked if the
    value is one of its objects, and nothing happens otherwise. *)
Lemma call_plain line f args kwargs st r st' :
  plain f = true ->
  call lib line f args kwargs st = (r, st') ->
  if library_object f
  then call_lib lib line (OpCall f args kwargs) st = (r, st')
  else st' = st /\ exists e, r = Raised line InScript e.
Proof.
  intros Hp. unfold library_object. rewrite Hp.
  destruct f as [| | | | | | | | |[]|]; try discriminate Hp; simpl;
    try (intros H; exact H);
    intros H; inversion H; subst; eauto.
Qed.

(** Line 4 of the training script calls [Word2Vec] on [common_texts]
    with the four keyword arguments. *)
Lemma eval_constructor f corpus st :
  env st !! "Word2Vec" = Some f ->
  env st !! "common_texts" = Some corpus ->
  eval lib 4
    (ECall (EName "Word2Vec")
       [(Pos, EName "common_texts");
        (Kw "size", EInt 100); (Kw "window", EInt 5);
        (Kw "min_count", EInt 1); (Kw "workers", EInt 4)]) st
  = call lib 4 f [corpus] hyperparameters st.
Proof.
  intros Hf Hc. rewrite eval_call by reflexivity.
  cbn [eval eval_args]. unfold bind, lookup_name, ret. rewrite Hf, Hc.
  reflexivity.
Qed.

End Inversion.

Ltac inv_bind H :=
  let a := fresh "a" in let st1 := fresh "st" in
  let H1 := fresh "Hfst" in let l := fresh "l" in let o := fresh "o" in
  let e := fresh "e" in
  apply bind_inv in H
    as [(a & st1 & H1 & H)|[(l & o & e & H1 & ->)|(H1 & ->)]].

Lemma constructor_called_app lib w (h t : list event) :
  constructor_called lib w h ->
  Forall (fun ev => is_call ev = false) t ->
  constructor_called lib w (h ++ t).
Proof.
  intros [Hcalls Hex] Ht. split.
  - intros i ev Hi Hc.
    destruct (decide (i < length h)) as [Hlt|Hge].
    + rewrite lookup_app_l in Hi by assumption.
      destruct (Hcalls i ev Hi Hc) as (-> & f & c & r & w1 & w2 & w3 & -> & H0 & H1).
      split; [reflexivity|]. exists f, c, r, w1, w2, w3.
      repeat split; auto.
      * apply lookup_app_l_Some. exact H0.
      * apply lookup_app_l_Some. exact H1.
    + rewrite lookup_app_r in Hi by lia.
      rewrite Forall_forall in Ht.
      apply list_elem_of_lookup_2 in Hi. apply Ht in Hi. congruence.
  - intros f c w1 w2 H1 H2 H3 H4.
    destruct (Hex f c w1 w2 H1 H2 H3 H4) as (r & w3 & H).
    exists r, w3. by apply lookup_app_l_Some.
Qed.

Lemma exec_assign_inv lib line x e st r st' :
  exec lib line (SAssign x e) st = (r, st') ->
  exists rv st1,
    eval lib line e st = (rv, st1) /\ trace st' = trace st1 /\
    wld st' = wld st1 /\
    match rv with
    | Ok v => r = Ok tt /\ env st' = <[x := v]> (env st1)
    | Raised l o x => r = Raised l o x /\ env st' = env st1
    | Stuck => r = Stuck /\ env st' = env st1
    end.
Proof.
  cbn [exec]. unfold bind, set_name.
  destruct (eval lib line e st) as [[v|l o x'|] st1];
    intros H; inversion H; subst; eauto 10.
Qed.

(** A block stops at the first statement that does not complete. *)
Lemma exec_block_cons_inv lib l s p st r st' :
  exec_block lib ((l, s) :: p) st = (r, st') ->
  (exists st1, exec lib l s st = (Ok tt, st1)
               /\ exec_block lib p st1 = (r, st'))
  \/ (exec lib l s st = (r, st') /\ r <> Ok tt).
Proof.
  cbn [exec_block]. intros H.
  apply bind_inv in H
    as [([] & st1 & H1 & H)|[(l' & o & e & H1 & ->)|(H1 & ->)]]; eauto.
Qed.

(** What lines 1 to 4 of the training script ask of the library. *)
Definition train_head_events (lib : library) (w : world) : list event :=
  let rw1 := lib import_corpus w in
  EvLib 1 import_corpus rw1.1 rw1.2 ::
  match rw1.1 with
  | LOk corpus =>
      if plain corpus then
        let rw2 := lib import_Word2Vec rw1.2 in
        EvLib 2 import_Word2Vec rw2.1 rw2.2 ::
        match rw2.1 with
        | LOk f =>
            if library_object f then
              let op := OpCall f [corpus] hyperparameters in
              let rw3 := lib op rw2.2 in
              [EvLib 4 op rw3.1 rw3.2]
            else []
        | LRaise _ => []
        end
      else []
  | LRaise _ => []
  end.

Lemma train_head lib w r st :
  exec_block lib (upto 4 gs_train_model) (initial w) = (r, st) ->
  rev (trace st) = train_head_events lib w.
Proof.
  change (upto 4 gs_train_model) with (take 3 gs_train_model).
  unfold gs_train_model, train_head_events. cbn [take]. intros H.
  apply exec_block_cons_inv in H as [(st1 & H1 & H)|[H1 Hne]];
    apply exec_import_from in H1; unfold after_op in H1; cbn in H1;
    fold import_corpus in H1 |- *;
    destruct (lib import_corpus w) as [[c|e1] w1]; cbn in H1 |- *;
    try destruct (plain c) eqn:Hc;
    destruct H1 as [Hr ->]; try discriminate Hr; try reflexivity;
    try contradiction.
  apply exec_block_cons_inv in H as [(st2 & H2 & H)|[H2 Hne]];
    apply exec_import_from in H2; unfold after_op in H2; cbn in H2;
    fold import_Word2Vec in H2 |- *;
    destruct (lib import_Word2Vec w1) as [[f|e2] w2]; cbn in H2 |- *;
    try (unfold library_object; destruct (plain f) eqn:Hf);
    destruct H2 as [Hr2 ->]; try discriminate Hr2; try reflexivity;
    try contradiction.
  assert (Hcall : exists rv st3,
            call lib 4 f [c] hyperparameters
              {| env := <["Word2Vec":=f]> (<["common_texts":=c]> ∅);
                 wld := w2;
                 trace := [EvLib 2 import_Word2Vec (LOk f) w2;
                           EvLib 1 import_corpus (LOk c) w1] |}
            = (rv, st3) /\ trace st = trace st3).
  { apply exec_block_cons_inv in H as [(st3 & H3 & H)|[H3 _]].
    - apply exec_assign_inv in H3 as (rv & st4 & He & Ht & _).
      rewrite (eval_constructor lib f c) in He.
      + inversion H; subst. eauto.
      + apply lookup_insert_eq.
      + cbn. rewrite lookup_insert_ne by discriminate. apply lookup_insert_eq.
    - apply exec_assign_inv in H3 as (rv & st4 & He & Ht & _).
      rewrite (eval_constructor lib f c) in He.
      + eauto.
      + apply lookup_insert_eq.
      + cbn. rewrite lookup_insert_ne by discriminate. apply lookup_insert_eq. }
  destruct Hcall as (rv & st3 & Hcall & ->).
  apply call_plain in Hcall; [|assumption].
  unfold library_object in Hcall. rewrite Hf in Hcall. cbn in Hcall |- *.
  destruct (match f with VObj _ | VMethod _ _ => true | _ => false end).
  - apply call_lib_inv in Hcall as [-> _]. reflexivity.
  - destruct Hcall as [-> _]. reflexivity.
Qed.

Lemma train_tail lib st r st' :
  unshadowed st ->
  exec_block lib (after 4 gs_train_model) st = (r, st') ->
  exists tail, rev (trace st') = rev (trace st) ++ tail
               /\ Forall (fun ev => ev_site ev = (5, KAttr "wv")) tail.
Proof.
  intros Hun H.
  eapply exec_block_post in H as [(_ & evs & Ht & Hf & _) _];
    [|reflexivity|apply Forall_forall; compute_done|assumption].
  exists evs. split.
  - by rewrite Ht, rev_app_distr, rev_involutive.
  - eapply Forall_impl; [exact (follows_Forall lib _ _ _ _ Hf)|].
    intros ev Hev. cbn in Hev. by apply list_elem_of_singleton in Hev.
Qed.

Lemma train_events lib w :
  exists tail,
    events lib gs_train_model w = train_head_events lib w ++ tail
    /\ Forall (fun ev => ev_site ev = (5, KAttr "wv")) tail.
Proof.
  unfold events, run. rewrite train_split, exec_block_app. unfold bind.
  destruct (exec_block lib (upto 4 gs_train_model) (initial w))
    as [r1 st1] eqn:E.
  pose proof (train_head lib w r1 st1 E) as Hhead.
  assert (Hun : unshadowed st1).
  { eapply exec_block_post in E as [_ Hun];
      [assumption|reflexivity|apply Forall_forall; compute_done
      |apply unshadowed_initial]. }
  destruct r1 as [[]|l o e|].
  - destruct (exec_block lib (after 4 gs_train_model) st1) as [r2 st2] eqn:E2.
    destruct (train_tail lib _ _ _ Hun E2) as (tail & Ht & Hall).
    exists tail. split; [|assumption]. rewrite <- Hhead, <- Ht.
    by destruct r2.
  - exists []. split; [|constructor]. by rewrite app_nil_r.
  - exists []. split; [|constructor]. by rewrite app_nil_r.
Qed.

Lemma head_constructor_called lib w :
  constructor_called lib w (train_head_events lib w).
Proof.
  unfold constructor_called, train_head_events. split.
  - intros i ev Hi Hc.
    destruct (lib import_corpus w) as [[c|e1] w1]; cbn in Hi |- *.
    2:{ destruct i as [|[|]]; inversion Hi; subst; discriminate Hc. }
    destruct (plain c).
    2:{ destruct i as [|[|]]; inversion Hi; subst; discriminate Hc. }
    destruct (lib import_Word2Vec w1) as [[f|e2] w2]; cbn in Hi |- *.
    2:{ destruct i as [|[|[|]]]; inversion Hi; subst; discriminate Hc. }
    destruct (library_object f).
    2:{ destruct i as [|[|[|]]]; inversion Hi; subst; discriminate Hc. }
    destruct i as [|[|[|]]]; inversion Hi; subst; try discriminate Hc.
    split; [reflexivity|]. eauto 10.
  - intros f c w1 w2 -> Hc. cbn. rewrite Hc. intros -> Hf. cbn.
    rewrite Hf. cbn. eauto.
Qed.

(** C6.  For every library and world, what the run of the training
    script asks of the library is: the two imports, then (lines 1 to
    4) one call, of what the import of [Word2Vec] gave, on exactly one
    positional argument, what the import of [common_texts] gave, and
    exactly the keyword arguments [size=100], [window=5],
    [min_count=1], [workers=4]; and afterwards only the lookup of [wv]
    on line 5.  No other call is made, and the call is made whenever
    both imports deliver and [Word2Vec] is an object of the library. *)
Theorem gs_train_model_constructor_call (lib : library) (w : world) :
  (exists tail,
     events lib gs_train_model w = train_head_events lib w ++ tail
     /\ Forall (fun ev => ev_site ev = (5, KAttr "wv")) tail)
  /\ constructor_called lib w (events lib gs_train_model w).
Proof.
  destruct (train_events lib w) as (tail & He & Htail).
  split; [eauto|]. rewrite He.
  apply constructor_called_app; [apply head_constructor_called|].
  eapply Forall_impl; [exact Htail|].
  intros [l op r w'|l s]; unfold ev_site, is_call; cbn; intros [= _ Hk].
  by rewrite Hk.
Qed.

Lemma gs_train_model_constructor_call_witness :
  exists r w3,
    events Demo.lib gs_train_model Demo.online !! 2
    = Some (EvLib 4 (OpCall (VObj 3) [Demo.common_texts] hyperparameters)
              r w3).
Proof.
  apply (proj2 (proj2 (gs_train_model_constructor_call Demo.lib Demo.online))
           (VObj 3) Demo.common_texts Demo.online Demo.online);
    reflexivity.
Defined.

(** *** File paths *)






(** *** The docstring of [gensim_exm.py] *)

(** The double quote. *)
Definition dq : string := String "034"%char EmptyString.

(** The text of the docstring, line by line: entry [i] is line
    [i + 1] of the file (the first without the quotes that open the
    docstring; the quotes that close it are line 139). *)
Definition gensim_exm_lines : list string :=
  ["This module implements word vectors and their similarity look-ups.";
   EmptyString;
   "Since trained word vectors are independent from the way they were trained (:class:`~gensim.models.word2vec.Word2Vec`,";
   ":class:`~gensim.models.fasttext.FastText`, :class:`~gensim.models.wrappers.wordrank.WordRank`,";
   ":class:`~gensim.models.wrappers.varembed.VarEmbed` etc), they can be represented by a standalone structure,";
   "as implemented in this module.";
   EmptyString;
   "The structure is called " +:+ dq +:+ "KeyedVectors" +:+ dq +:+ " and is essentially a mapping between *entities*";
   "and *vectors*. Each entity is identified by its string id, so this is a mapping between {str => 1D numpy array}.";
   EmptyString;
   "The entity typically corresponds to a word (so the mapping maps words to 1D vectors),";
   "but for some models, they key can also correspond to a document, a graph node etc. To generalize";
   "over different use-cases, this module calls the keys **entities**. Each entity is";
   "always represented by its string id, no matter whether the entity is a word, a document or a graph node.";
   EmptyString;
   "Why use KeyedVectors instead of a full model?";
   "=============================================";
   EmptyString;
   "+---------------------------+--------------+------------+-------------------------------------------------------------+";
   "|        capability         | KeyedVectors | full model |                               note                          |";
   "+---------------------------+--------------+------------+-------------------------------------------------------------+";
   "| continue training vectors | ❌           | ✅         | You need the full model to train or update vectors.         |";
   "+---------------------------+--------------+------------+-------------------------------------------------------------+";
   "| smaller objects           | ✅           | ❌         | KeyedVectors are smaller and need less RAM, because they    |";
   "|                           |              |            | don't need to store the model state that enables training.  |";
   "+---------------------------+--------------+------------+-------------------------------------------------------------+";
   "| save/load from native     |              |            | Vectors exported by the Facebook and Google tools           |";
   "| fasttext/word2vec format  | ✅           | ❌         | do not support further training, but you can still load     |";
   "|                           |              |            | them into KeyedVectors.                                     |";
   "+---------------------------+--------------+------------+-------------------------------------------------------------+";
   "| append new vectors        | ✅           | ✅         | Add new entity-vector entries to the mapping dynamically.   |";
   "+---------------------------+--------------+------------+-------------------------------------------------------------+";
   "| concurrency               | ✅           | ✅         | Thread-safe, allows concurrent vector queries.              |";
   "+---------------------------+--------------+------------+-------------------------------------------------------------+";
   "| shared RAM                | ✅           | ✅         | Multiple processes can re-use the same data, keeping only   |";
   "|                           |              |            | a single copy in RAM using                                  |";
   "|                           |              |            | `mmap <https://en.wikipedia.org/wiki/Mmap>`_.               |";
   "+---------------------------+--------------+------------+-------------------------------------------------------------+";
   "| fast load                 | ✅           | ✅         | Supports `mmap <https://en.wikipedia.org/wiki/Mmap>`_       |";
   "|                           |              |            | to load data from disk instantaneously.                     |";
   "+---------------------------+--------------+------------+-------------------------------------------------------------+";
   EmptyString;
   "TL;DR: the main difference is that KeyedVectors do not support further training.";
   "On the other hand, by shedding the internal data structures necessary for training, KeyedVectors offer a smaller RAM";
   "footprint and a simpler interface.";
   EmptyString;
   "How to obtain word vectors?";
   "===========================";
   EmptyString;
   "Train a full model, then access its `model.wv` property, which holds the standalone keyed vectors.";
   "For example, using the Word2Vec algorithm to train the vectors";
   EmptyString;
   ">>> from gensim.test.utils import common_texts";
   ">>> from gensim.models import Word2Vec";
   ">>>";
   ">>> model = Word2Vec(common_texts, size=100, window=5, min_count=1, workers=4)";
   ">>> word_vectors = model.wv";
   EmptyString;
   "Persist the word vectors to disk with";
   EmptyString;
   ">>> from gensim.test.utils import get_tmpfile";
   ">>> from gensim.models import KeyedVectors";
   ">>>";
   ">>> fname = get_tmpfile(" +:+ dq +:+ "vectors.kv" +:+ dq +:+ ")";
   ">>> word_vectors.save(fname)";
   ">>> word_vectors = KeyedVectors.load(fname, mmap='r')";
   EmptyString;
   "The vectors can also be instantiated from an existing file on disk";
   "in the original Google's word2vec C format as a KeyedVectors instance";
   EmptyString;
   ">>> from gensim.test.utils import datapath";
   ">>>";
   ">>> wv_from_text = KeyedVectors.load_word2vec_format(datapath('word2vec_pre_kv_c'), binary=False)  # C text format";
   ">>> wv_from_bin = KeyedVectors.load_word2vec_format(datapath(" +:+ dq +:+ "euclidean_vectors.bin" +:+ dq +:+ "), binary=True)  # C binary format";
   EmptyString;
   "What can I do with word vectors?";
   "================================";
   EmptyString;
   "You can perform various syntactic/semantic NLP word tasks with the trained vectors.";
   "Some of them are already built-in";
   EmptyString;
   ">>> import gensim.downloader as api";
   ">>>";
   ">>> word_vectors = api.load(" +:+ dq +:+ "glove-wiki-gigaword-100" +:+ dq +:+ ")  # load pre-trained word-vectors from gensim-data";
   ">>>";
   ">>> result = word_vectors.most_similar(positive=['woman', 'king'], negative=['man'])";
   ">>> print(" +:+ dq +:+ "{}: {:.4f}" +:+ dq +:+ ".format(" +:+ "*result[0]))";
   "queen: 0.7699";
   ">>>";
   ">>> result = word_vectors.most_similar_cosmul(positive=['woman', 'king'], negative=['man'])";
   ">>> print(" +:+ dq +:+ "{}: {:.4f}" +:+ dq +:+ ".format(" +:+ "*result[0]))";
   "queen: 0.8965";
   ">>>";
   ">>> print(word_vectors.doesnt_match(" +:+ dq +:+ "breakfast cereal dinner lunch" +:+ dq +:+ ".split()))";
   "cereal";
   ">>>";
   ">>> similarity = word_vectors.similarity('woman', 'man')";
   ">>> similarity > 0.8";
   "True";
   ">>>";
   ">>> result = word_vectors.similar_by_word(" +:+ dq +:+ "cat" +:+ dq +:+ ")";
   ">>> print(" +:+ dq +:+ "{}: {:.4f}" +:+ dq +:+ ".format(" +:+ "*result[0]))";
   "dog: 0.8798";
   ">>>";
   ">>> sentence_obama = 'Obama speaks to the media in Illinois'.lower().split()";
   ">>> sentence_president = 'The president greets the press in Chicago'.lower().split()";
   ">>>";
   ">>> similarity = word_vectors.wmdistance(sentence_obama, sentence_president)";
   ">>> print(" +:+ dq +:+ "{:.4f}" +:+ dq +:+ ".format(similarity))";
   "3.4893";
   ">>>";
   ">>> distance = word_vectors.distance(" +:+ dq +:+ "media" +:+ dq +:+ ", " +:+ dq +:+ "media" +:+ dq +:+ ")";
   ">>> print(" +:+ dq +:+ "{:.1f}" +:+ dq +:+ ".format(distance))";
   "0.0";
   ">>>";
   ">>> sim = word_vectors.n_similarity(['sushi', 'shop'], ['japanese', 'restaurant'])";
   ">>> print(" +:+ dq +:+ "{:.4f}" +:+ dq +:+ ".format(sim))";
   "0.7067";
   ">>>";
   ">>> vector = word_vectors['computer']  # numpy vector of a word";
   ">>> vector.shape";
   "(100,)";
   ">>>";
   ">>> vector = word_vectors.wv.word_vec('office', use_norm=True)";
   ">>> vector.shape";
   "(100,)";
   EmptyString;
   "Correlation with human opinion on word similarity";
   EmptyString;
   ">>> from gensim.test.utils import datapath";
   ">>>";
   ">>> similarities = model.wv.evaluate_word_pairs(datapath('wordsim353.tsv'))";
   EmptyString;
   "And on word analogies";
   EmptyString;
   ">>> analogy_scores = model.wv.evaluate_word_analogies(datapath('questions-words.txt'))";
   EmptyString;
   "and so on."].


(** The words of a line of code, as far as the examples need them:
    names, string literals (without escapes), and other signs; a
    comment runs to the end of the line. *)
Inductive token : Type :=
| TName (s : string)
| TText (s : string)
| TSign (c : ascii).

Definition is_name_char (c : ascii) : bool :=
  let n := nat_of_ascii c in
  ((48 <=? n) && (n <=? 57)) || ((65 <=? n) && (n <=? 90))
  || ((97 <=? n) && (n <=? 122)) || (n =? 95).

Definition is_quote (c : ascii) : bool :=
  Ascii.eqb c "'" || Ascii.eqb c "034".

(** Where the reading of a line is: in a name (its characters so
    far, reversed; none between words), or in a string literal that
    [q] opened. *)
Inductive reading : Type :=
| Plain (name : list ascii)
| Quoted (q : ascii) (text : list ascii).

Definition flush (name : list ascii) : list token :=
  match name with
  | [] => []
  | _ => [TName (string_of_list_ascii (rev name))]
  end.

Fixpoint lex (m : reading) (s : string) : list token :=
  match s with
  | EmptyString =>
      match m with
      | Plain name => flush name
      | Quoted _ _ => []
      end
  | String c r =>
      match m with
      | Quoted q text =>
          if Ascii.eqb c q
          then TText (string_of_list_ascii (rev text)) :: lex (Plain []) r
          else lex (Quoted q (c :: text)) r
      | Plain name =>
          if is_name_char c then lex (Plain (c :: name)) r
          else if is_quote c then flush name ++ lex (Quoted c []) r
          else if Ascii.eqb c "#" then flush name
          else if PyStr.is_space c then flush name ++ lex (Plain []) r
          else flush name ++ TSign c :: lex (Plain []) r
      end
  end.

(** The code of an example: what follows the prompt. *)
Definition example_code (l : string) : option string :=
  match l with
  | String ">" (String ">" (String ">" (String " " code))) => Some code
  | _ => None
  end.







Example lex_line_74 :
  lex (Plain []) <$> (gensim_exm_lines !! 73 ≫= example_code)
  = Some [TName "wv_from_bin"; TSign "="; TName "KeyedVectors"; TSign ".";
          TName "load_word2vec_format"; TSign "("; TName "datapath";
          TSign "("; TText "euclidean_vectors.bin"; TSign ")"; TSign ",";
          TName "binary"; TSign "="; TName "True"; TSign ")"].
Proof. vm_compute. reflexivity. Qed.




(** *** Straight-line code *)

(** The modules a program imports. *)
Definition imports (p : program) : list string :=
  omap (fun lk => match lk.2 with
                  | KImport m | KImportFrom m _ => Some m
                  | _ => None
                  end) (sites p).

Definition gensim_modules : list string :=
  ["gensim.downloader"; "gensim.test.utils"; "gensim.models"].

(** A straight-line program runs from top to bottom: what it asks of
    the library and what it prints comes in the order of its lines,
    and each event belongs to the statement on its line. *)
Lemma straight_line_run (lib : library) (p : program) (w : world) :
  straight_line p = true ->
  keeps_builtins p ->
  in_line_order (events lib p w)
  /\ Forall (fun ev => ev_site ev ∈ sites p) (events lib p w).
Proof.
  intros [Hs Hinc]%andb_true_iff Hb. unfold events, run.
  destruct (exec_block lib p (initial w)) as [r st] eqn:E.
  assert (Hb' : forall x, x ∈ builtins -> x ∉ binds p).
  { unfold keeps_builtins in Hb. rewrite Forall_forall in Hb. exact Hb. }
  destruct (exec_block_post lib p _ _ _ Hs Hb' (unshadowed_initial w) E)
    as [(_ & evs & Ht & Hf & _ & Hord) _].
  assert (Hev : rev (trace st) = evs).
  { rewrite Ht. simpl. by rewrite app_nil_r, rev_involutive. }
  assert (Hgoal : in_line_order evs /\ Forall (fun ev => ev_site ev ∈ sites p) evs).
  { split; [auto|]. exact (follows_Forall lib _ _ _ _ Hf). }
  destruct r as [[]|l o e|]; simpl; rewrite Hev; exact Hgoal.
Qed.

(** C8.  Each of the three modules is a straight-line program: a
    sequence of simple statements (imports, assignments, expression
    statements; no block, no loop, no branch, no handler) on
    increasing lines, importing only modules of the library.  Every
    run, against any library, goes through it from top to bottom: the
    events come in the order of the lines, each from the statement on
    its line. *)
Theorem modules_run_top_to_bottom (doc : string) (lib : library) (w : world) :
  Forall (fun p =>
            straight_line p = true
            /\ imports p ⊆ gensim_modules
            /\ in_line_order (events lib p w)
            /\ Forall (fun ev => ev_site ev ∈ sites p) (events lib p w))
         [gs_similarity; gs_train_model; gensim_exm doc].
Proof.
  assert (H : forall p, straight_line p = true -> keeps_builtins p ->
                        imports p ⊆ gensim_modules ->
            straight_line p = true
            /\ imports p ⊆ gensim_modules
            /\ in_line_order (events lib p w)
            /\ Forall (fun ev => ev_site ev ∈ sites p) (events lib p w)).
  { intros p Hs Hb Hi. repeat split; try assumption;
      by apply straight_line_run. }
  assert (Hsub : forall p,
            bool_decide (imports p ⊆ gensim_modules) = true ->
            imports p ⊆ gensim_modules)
    by (intros p; apply bool_decide_eq_true_1).
  rewrite !Forall_cons.
  split; [|split; [|split; [|apply Forall_nil_2]]]; apply H;
    first [reflexivity | unfold keeps_builtins; compute_done
          | apply Hsub; reflexivity].
Qed.

(** *** The mapping is only read *)

(** What of the world a mapping lives in: the mappings in memory and
    those on disk. *)
Definition store (w : world) : gmap nat KeyedVectors * gmap string KeyedVectors :=
  (mappings w, saved w).

(** The kinds of events that only read: imports, lookups of
    attributes and of items, calls of the query methods (and
    printing, which does not reach the library).  Item assignment,
    item deletion, calls of other methods ([add], [save], ...) and
    calls of functions are not among them. *)
Definition reads (k : kind) : bool :=
  match k with
  | KImport _ | KImportFrom _ _ | KAttr _ | KItem | KPrint => true
  | KMethod name => bool_decide (name ∈ query_methods)
  | KCall | KSetItem | KDelItem => false
  end.

(** The library keeps its side: an operation that only reads leaves
    the mappings, in memory and on disk, as they are. *)
Definition read_only (lib : library) : Prop :=
  forall op w, reads (op_kind op) = true -> store (lib op w).2 = store w.

(** The world after the events [evs]. *)
Definition world_after (w : world) (evs : list event) : world :=
  foldl (fun w ev => match ev with EvLib _ _ _ w' => w' | _ => w end) w evs.

Section ReadOnly.

Variable lib : library.

Lemma follows_app_inv P w evs1 evs2 w' :
  follows lib P w (evs1 ++ evs2) w' ->
  exists wm, follows lib P w evs1 wm /\ follows lib P wm evs2 w'.
Proof.
  revert w. induction evs1 as [|[l op res w1|l s] evs1 IH]; intros w; simpl.
  - eauto.
  - intros (HP & Hop & Hf). destruct (IH _ Hf) as (wm & H1 & H2). eauto 6.
  - intros (HP & Hf). destruct (IH _ Hf) as (wm & H1 & H2). eauto 6.
Qed.

Lemma follows_world_after P w evs w' :
  follows lib P w evs w' -> world_after w evs = w'.
Proof.
  revert w. induction evs as [|[l op res w1|l s] evs IH]; intros w; simpl.
  - auto.
  - intros (_ & _ & Hf). by apply IH.
  - intros (_ & Hf). by apply IH.
Qed.

Lemma reads_keep_store w evs w' :
  read_only lib ->
  follows lib (fun ev => reads (ev_kind ev) = true) w evs w' ->
  store w' = store w.
Proof.
  intros Hro. revert w.
  induction evs as [|[l op res w1|l s] evs IH]; intros w; simpl.
  - by intros ->.
  - intros (Hk & Hop & Hf). rewrite (IH _ Hf).
    specialize (Hro op w Hk). by rewrite <- Hop in Hro.
  - intros (_ & Hf). by apply IH.
Qed.

(** A run whose events after line [n] only read keeps the store from
    any point after line [n] to its end. *)
Lemma store_kept P n w evs w' :
  read_only lib ->
  (forall ev, P ev -> n < ev_line ev -> reads (ev_kind ev) = true) ->
  follows lib P w evs w' ->
  forall evs1 evs2,
    evs = evs1 ++ evs2 ->
    Forall (fun ev => n < ev_line ev) evs2 ->
    store (world_after w (evs1 ++ evs2)) = store (world_after w evs1).
Proof.
  intros Hro HP Hf evs1 evs2 -> Hlate.
  rewrite (follows_world_after _ _ _ _ Hf).
  apply follows_app_inv in Hf as (wm & H1 & H2).
  rewrite (follows_world_after _ _ _ _ H1).
  apply reads_keep_store with (evs := evs2); [assumption|].
  clear H1. revert wm H2.
  induction Hlate as [|ev evs2 Hev Hlate IH]; intros wm; simpl; [auto|].
  destruct ev as [l op res w1|l s].
  - intros (Hp & Hop & Hf). split; [exact (HP _ Hp Hev)|].
    split; [exact Hop|]. by apply IH.
  - intros (Hp & Hf). split; [exact (HP _ Hp Hev)|by apply IH].
Qed.

(** The events of a run, as the library produced them one after the
    other from the initial world. *)
Lemma run_follows (p : program) (w : world) :
  forallb (fun ls => simple ls.2) p = true ->
  keeps_builtins p ->
  follows lib (fun ev => ev_site ev ∈ sites p) w (events lib p w)
    (wld (run lib p w).2).
Proof.
  intros Hs Hb. unfold events, run.
  destruct (exec_block lib p (initial w)) as [r st] eqn:E.
  assert (Hb' : forall x, x ∈ builtins -> x ∉ binds p).
  { unfold keeps_builtins in Hb. rewrite Forall_forall in Hb. exact Hb. }
  destruct (exec_block_post lib p _ _ _ Hs Hb' (unshadowed_initial w) E)
    as [(_ & evs & Ht & Hf & _) _].
  assert (Hev : rev (trace st) = evs).
  { rewrite Ht. simpl. by rewrite app_nil_r, rev_involutive. }
  destruct r as [[]|l o e|]; simpl; rewrite Hev; exact Hf.
Qed.

(** In the query script nothing happens after line 50. *)
Lemma gs_similarity_follows (w : world) :
  follows lib (fun ev => ev_site ev ∈ sites (upto 50 gs_similarity)) w
    (events lib gs_similarity w) (wld (run lib gs_similarity w).2).
Proof.
  unfold events, run. rewrite exec_gs_similarity. unfold bind.
  destruct (exec_block lib (upto 50 gs_similarity) (initial w))
    as [r1 st1] eqn:E.
  destruct (head_post lib _ _ _ (unshadowed_initial w) E)
    as [(Henv & evs & Ht & Hf & _) _].
  assert (Hm : env st1 !! "model" = None).
  { rewrite Henv; [apply lookup_empty|]. compute_done. }
  assert (Hev : rev (trace st1) = evs).
  { rewrite Ht. simpl. by rewrite app_nil_r, rev_involutive. }
  destruct r1 as [[]|l o e|]; [rewrite (evaluation_stops lib st1 Hm)| |];
    simpl; rewrite Hev; exact Hf.
Qed.

End ReadOnly.

(** After line 4, where the mapping is created, a run only reads: the
    events are reads; the world at the end of the run is the one the
    events lead to; and, when the library keeps its side, the store
    at the end of the run is the store at any point after line 4. *)
Definition only_read (lib : library) (w : world) (p : program) : Prop :=
  Forall (fun ev => 4 < ev_line ev -> reads (ev_kind ev) = true)
         (events lib p w)
  /\ wld (run lib p w).2 = world_after w (events lib p w)
  /\ (read_only lib ->
      forall evs1 evs2,
        events lib p w = evs1 ++ evs2 ->
        Forall (fun ev => 4 < ev_line ev) evs2 ->
        store (world_after w (events lib p w)) = store (world_after w evs1)).

Lemma only_read_of_follows lib w p (S : list (nat * kind)) :
  follows lib (fun ev => ev_site ev ∈ S) w (events lib p w)
    (wld (run lib p w).2) ->
  Forall (fun lk => 4 < lk.1 -> reads lk.2 = true) S ->
  only_read lib w p.
Proof.
  intros Hf HS. rewrite Forall_forall in HS.
  assert (HP : forall ev, ev_site ev ∈ S -> 4 < ev_line ev ->
                          reads (ev_kind ev) = true).
  { intros ev Hev. exact (HS _ Hev). }
  split; [|split].
  - eapply Forall_impl; [exact (follows_Forall lib _ _ _ _ Hf)|]. exact HP.
  - symmetry. by eapply follows_world_after.
  - intros Hro evs1 evs2 He Hlate. rewrite He in Hf |- *.
    exact (store_kept lib _ 4 w (evs1 ++ evs2) _ Hro HP Hf
             evs1 evs2 eq_refl Hlate).
Qed.

(** C3.  In both scripts the mapping is created on line 4 (the call of
    [load], the call of [Word2Vec]).  For every library and world:
    every event of a run after line 4 is a read, that is an import, a
    lookup of an attribute or of an item, a call of one of the nine
    query methods, or a print; no item is assigned or deleted, no
    other method ([add], [save], ...) and no function is called.  So,
    with a library whose reads leave the mappings alone, the mappings
    in memory and on disk stay from line 4 to the end of the run as
    the creating call left them: nothing is changed, inserted,
    deleted or saved. *)
Theorem mapping_is_only_read (lib : library) (w : world) :
  Forall (only_read lib w) scripts.
Proof.
  unfold scripts. rewrite !Forall_cons.
  split; [|split; [|apply Forall_nil_2]].
  - eapply only_read_of_follows; [apply gs_similarity_follows|].
    compute_done.
  - eapply only_read_of_follows.
    + apply run_follows; [reflexivity|unfold keeps_builtins; compute_done].
    + compute_done.
Qed.

(** The demonstration library keeps its side. *)
Lemma demo_read_only : read_only Demo.lib.
Proof.
  intros op w Hk.
  destruct op as [m|m n|obj n|obj k|obj k v|obj k|f args kw|obj n f args kw];
    simpl in Hk; try discriminate Hk; simpl.
  - by destruct (String.eqb _ _).
  - repeat (destruct (_ && _); [reflexivity|]). reflexivity.
  - destruct obj; try reflexivity.
    destruct (addr =? 1)%nat; [reflexivity|].
    by destruct (mappings w !! addr), (mappings w !! Init.Nat.pred addr).
  - destruct obj; try reflexivity. destruct k; try reflexivity.
    by destruct (mappings w !! addr).
  - apply bool_decide_eq_true_1 in Hk.
    destruct obj; try reflexivity. unfold Demo.invoke.
    assert (Hload : String.eqb n "load" = false).
    { apply String.eqb_neq. intros ->. revert Hk. compute_done. }
    assert (Hadd : String.eqb n "add" = false).
    { apply String.eqb_neq. intros ->. revert Hk. compute_done. }
    assert (Hsave : String.eqb n "save" = false).
    { apply String.eqb_neq. intros ->. revert Hk. compute_done. }
    rewrite Hload, Hadd, Hsave. simpl.
    destruct (addr =? 1)%nat; [reflexivity|].
    by destruct (mappings w !! addr).
Qed.

Lemma mapping_is_only_read_witness :
  let evs := events Demo.lib gs_similarity Demo.online in
  store (world_after Demo.online evs)
  = store (world_after Demo.online (take 3 evs)).
Proof.
  intros evs.
  pose proof (mapping_is_only_read Demo.lib Demo.online) as H.
  apply Forall_cons in H as [(_ & _ & H) _].
  apply (H demo_read_only (take 3 evs) (drop 3 evs)).
  - symmetry. apply take_drop.
  - unfold evs. compute_done.
Defined.

(** *** Queries and what is printed *)

(** An answer of the library to a query: to a call of one of the
    query methods, or to the lookup of a vector by its key. *)
Definition is_query (ev : event) : bool :=
  match ev with
  | EvLib _ (OpCallMethod _ name _ _ _) (LOk _) _ =>
      bool_decide (name ∈ query_methods)
  | EvLib _ (OpGetItem _ (VStr _)) (LOk _) _ => true
  | _ => false
  end.

Definition is_print (ev : event) : bool :=
  match ev with
  | EvPrint _ _ => true
  | _ => false
  end.

(** Every answer to a query is printed before the next query is
    answered; [pending] tells that an answer waits to be printed. *)
Fixpoint answers_printed (pending : bool) (evs : list event) : bool :=
  match evs with
  | [] => true
  | ev :: r =>
      if is_query ev then negb pending && answers_printed true r
      else if is_print ev then answers_printed false r
      else answers_printed pending r
  end.

(** Less than that: after every answer to a query something is
    printed. *)
Fixpoint printed_later (evs : list event) : bool :=
  match evs with
  | [] => true
  | ev :: r =>
      (if is_query ev then existsb is_print r else true) && printed_later r
  end.

Definition import_downloader : libop := OpImport "gensim.downloader".

(** What lines 2 to 4 of the query script ask of the library: the
    import, the lookup of [load] on the module, and the call of
    [load] on the name of the data set. *)
Definition similarity_head_events (lib : library) (w : world) : list event :=
  let rw1 := lib import_downloader w in
  EvLib 2 import_downloader rw1.1 rw1.2 ::
  match rw1.1 with
  | LOk (VObj a) =>
      let api := VObj a in
      let op2 := OpGetAttr api "load" in
      let rw2 := lib op2 rw1.2 in
      EvLib 4 op2 rw2.1 rw2.2 ::
      match rw2.1 with
      | LOk f =>
          if plain f then
            let op3 := OpCallMethod api "load" f
                         [VStr "glove-wiki-gigaword-100"] [] in
            let rw3 := lib op3 rw2.2 in
            [EvLib 4 op3 rw3.1 rw3.2]
          else []
      | LRaise _ => []
      end
  | _ => []
  end.

Section Answers.

Variable lib : library.

(** An import under another name binds that name, if the library
    delivers. *)
Lemma exec_import_as line m x st r st' :
  exec lib line (SImportAs m x) st = (r, st') ->
  let st1 := after_op lib line (OpImport m) st in
  match (lib (OpImport m) (wld st)).1 with
  | LOk v =>
      if plain v
      then r = Ok tt /\ st' = State (<[x := v]> (env st1)) (wld st1) (trace st1)
      else r = Stuck /\ st' = st1
  | LRaise e => r = Raised line InLibrary e /\ st' = st1
  end.
Proof.
  cbn [exec]. intros H.
  apply bind_inv in H as [(a & st1 & H1 & H2)|[(l & o & e & H1 & ->)|(H1 & ->)]];
    apply call_lib_inv in H1 as [-> Hr];
    destruct (lib (OpImport m) (wld st)).1 as [v|e'];
    try destruct (plain v); try discriminate Hr.
  - inversion Hr; subst. inversion H2; subst. auto.
  - inversion Hr; subst. auto.
  - auto.
Qed.

(** A method call that is answered: the answer is the newest event,
    the call of the method on an object of the library. *)
Lemma method_call_answer line e m args st v st' :
  m ∉ str_methods -> m <> "shape" ->
  eval lib line (ECall (EAttr e m) args) st = (Ok v, st') ->
  exists obj f a k w1 tr,
    trace st' = EvLib line (OpCallMethod obj m f a k) (LOk v) w1 :: tr.
Proof.
  intros Hm Hshape H. rewrite eval_method in H.
  apply bind_inv in H as [(obj & st1 & H1 & H)|[(?&?&?&_&[=])|(_&[=])]].
  apply bind_inv in H as [(fv & st2 & H2 & H)|[(?&?&?&_&[=])|(_&[=])]].
  apply bind_inv in H as [(pk & st3 & H3 & H)|[(?&?&?&_&[=])|(_&[=])]].
  destruct obj; simpl in H2; try discriminate H2.
  - rewrite bool_decide_eq_false_2 in H2 by assumption. discriminate H2.
  - apply String.eqb_neq in Hshape. rewrite Hshape in H2. discriminate H2.
  - cbn [call_method] in H. apply call_lib_inv in H as [-> Hr].
    unfold after_op. cbn [trace].
    destruct (lib _ (wld st3)).1 as [v'|e'] eqn:E; [|discriminate Hr].
    destruct (plain v'); [|discriminate Hr]. injection Hr as ->. eauto 10.
Qed.

(** A [print] statement that completes has printed the text of the
    value of its argument, as its last act. *)
Lemma print_inv line arg st st' :
  unshadowed st ->
  exec lib line (SExpr (print arg)) st = (Ok tt, st') ->
  exists val s st1,
    eval lib line arg st = (Ok val, st1) /\ py_str val = Some s /\
    st' = State (env st1) (wld st1) (EvPrint line s :: trace st1).
Proof.
  intros Hun H. cbn [exec] in H. unfold print in H.
  apply bind_inv in H as [(r0 & st0 & H & Hret)|[(?&?&?&_&[=])|(_&[=])]].
  injection Hret as <-.
  rewrite eval_call in H by reflexivity.
  apply bind_inv in H as [(fv & st2 & H2 & H)|[(?&?&?&_&[=])|(_&[=])]].
  assert (fv = VBuiltin "print" /\ st2 = st) as [-> ->].
  { cbn [eval] in H2. unfold lookup_name in H2.
    rewrite (Hun "print") in H2 by (unfold builtins; set_solver).
    rewrite bool_decide_eq_true_2 in H2 by (unfold builtins; set_solver).
    injection H2 as <- <-. done. }
  apply bind_inv in H as [(pk & st3 & H3 & H)|[(?&?&?&_&[=])|(_&[=])]].
  cbn [eval_args] in H3.
  apply bind_inv in H3 as [(val & st4 & H4 & H3)|[(?&?&?&_&[=])|(_&[=])]].
  cbn in H3. injection H3 as <- <-. cbn in H.
  destruct (py_str val) as [s|] eqn:Hs; [|discriminate H].
  cbn in H. injection H as <- <-. eauto 10.
Qed.

(** A block that completes leaves no builtin shadowed. *)
Lemma block_unshadowed (p : program) w r st :
  forallb (fun ls => simple ls.2) p = true -> keeps_builtins p ->
  exec_block lib p (initial w) = (r, st) -> unshadowed st.
Proof.
  intros Hs Hb E.
  assert (Hb' : forall x, x ∈ builtins -> x ∉ binds p).
  { unfold keeps_builtins in Hb. rewrite Forall_forall in Hb. exact Hb. }
  by destruct (exec_block_post lib p _ _ _ Hs Hb' (unshadowed_initial w) E).
Qed.

(** A block followed by one more statement. *)
Lemma exec_block_snoc (p : program) l s st :
  exec_block lib (p ++ [(l, s)]) st
  = match exec_block lib p st with
    | (Ok _, st1) => exec lib l s st1
    | other => other
    end.
Proof.
  rewrite exec_block_app. unfold bind. cbn [exec_block].
  destruct (exec_block lib p st) as [[[]|? ? ?|] st1]; try reflexivity.
  unfold bind. destruct (exec lib l s st1) as [[[]|? ? ?|] st2]; reflexivity.
Qed.

(** The answer to the query on line [lq], bound to [x], is what the
    statement on line [lp] prints: if the block completes, the
    query was answered with some [v], as the newest event then, [x]
    holds [v], and the text printed is that of the value of [arg]
    evaluated there. *)
Definition answer_shown (w : world) (ask : program) (lq : nat) (m x : string)
    (lp : nat) (arg : expr) : Prop :=
  let asked := exec_block lib ask (initial w) in
  let shown := exec_block lib (ask ++ [(lp, SExpr (print arg))]) (initial w) in
  shown.1 = Ok tt ->
  exists obj f a k v wq tr val s st1,
    asked.1 = Ok tt
    /\ trace asked.2 = EvLib lq (OpCallMethod obj m f a k) (LOk v) wq :: tr
    /\ env asked.2 !! x = Some v
    /\ eval lib lp arg asked.2 = (Ok val, st1)
    /\ py_str val = Some s
    /\ trace shown.2 = EvPrint lp s :: trace st1.

Lemma answer_then_print pre lq x e m args lp arg w :
  forallb (fun ls => simple ls.2) pre = true ->
  keeps_builtins (pre ++ [(lq, SAssign x (ECall (EAttr e m) args))]) ->
  m ∉ str_methods -> m <> "shape" ->
  answer_shown w (pre ++ [(lq, SAssign x (ECall (EAttr e m) args))])
    lq m x lp arg.
Proof.
  intros Hs Hb Hm Hshape. unfold answer_shown. cbv zeta.
  set (ask := pre ++ [(lq, SAssign x (ECall (EAttr e m) args))]) in *.
  rewrite (exec_block_snoc ask).
  destruct (exec_block lib ask (initial w)) as [rq stq] eqn:Eq.
  assert (Hunq : unshadowed stq).
  { eapply (block_unshadowed ask); [|exact Hb|exact Eq].
    unfold ask. rewrite forallb_app, Hs. reflexivity. }
  destruct rq as [[]|? ? ?|]; cbn [fst snd]; [|discriminate|discriminate].
  destruct (exec lib lp (SExpr (print arg)) stq) as [rp stp] eqn:Ep.
  cbn [fst snd]. intros ->.
  apply print_inv in Ep as (val & s & st1 & Hval & Hs' & ->); [|assumption].
  unfold ask in Eq. rewrite exec_block_snoc in Eq.
  destruct (exec_block lib pre (initial w)) as [[[]|? ? ?|] st0] eqn:E0;
    try discriminate Eq.
  apply exec_assign_inv in Eq as (rv & st2 & He & Ht & _ & Hrv).
  destruct rv as [v|? ? ?|]; try (destruct Hrv; discriminate).
  destruct Hrv as [_ Henv].
  apply method_call_answer in He as (obj & f & a & k & w1 & tr & Htr);
    [|assumption|assumption].
  exists obj, f, a, k, v, w1, tr, val, s, st1.
  repeat split; auto.
  - by rewrite Ht.
  - rewrite Henv. apply lookup_insert_eq.
Qed.

Lemma answer_shown_upto ask pre lq x e m args lp arg w :
  ask = pre ++ [(lq, SAssign x (ECall (EAttr e m) args))] ->
  forallb (fun ls => simple ls.2) pre = true ->
  keeps_builtins ask ->
  m ∉ str_methods -> m <> "shape" ->
  answer_shown w ask lq m x lp arg.
Proof. intros ->. apply answer_then_print. Qed.

(** The same when the query is the argument of [print]. *)
Definition answer_shown_at (w : world) (pre : program) (l : nat) (m : string)
  : Prop :=
  forall e args,
  let shown :=
    exec_block lib (pre ++ [(l, SExpr (print (ECall (EAttr e m) args)))])
      (initial w) in
  shown.1 = Ok tt ->
  exists obj f a k v wq tr s,
    trace shown.2
    = EvPrint l s :: EvLib l (OpCallMethod obj m f a k) (LOk v) wq :: tr
    /\ py_str v = Some s.

Lemma print_answer pre l m w :
  forallb (fun ls => simple ls.2) pre = true ->
  keeps_builtins pre ->
  m ∉ str_methods -> m <> "shape" ->
  answer_shown_at w pre l m.
Proof.
  intros Hs Hb Hm Hshape e args. cbv zeta. rewrite exec_block_snoc.
  destruct (exec_block lib pre (initial w)) as [r0 st0] eqn:E0.
  assert (Hun : unshadowed st0) by (by eapply (block_unshadowed pre)).
  destruct r0 as [[]|? ? ?|]; cbn [fst snd]; [|discriminate|discriminate].
  destruct (exec lib l _ st0) as [rp stp] eqn:Ep. cbn [fst snd]. intros ->.
  apply print_inv in Ep as (val & s & st1 & Hval & Hs' & ->); [|assumption].
  apply method_call_answer in Hval as (obj & f & a & k & w1 & tr & Htr);
    [|assumption|assumption].
  cbn [trace]. rewrite Htr. eauto 10.
Qed.

End Answers.

Section Head.

Variable lib : library.

Lemma eval_method_name line r m args obj st :
  env st !! r = Some obj ->
  eval lib line (ECall (EAttr (EName r) m) args) st
  = (do fv <- getattr lib line obj m;
     do pk <- eval_args lib line args;
     call_method lib line obj m fv pk.1 pk.2) st.
Proof.
  intros Hr. rewrite eval_method. unfold bind at 1. cbn [eval].
  unfold lookup_name. rewrite Hr. reflexivity.
Qed.

#[global] Instance is_object_dec (v : value) : Decision (exists a, v = VObj a).
Proof.
  destruct v; first [left; eauto; fail | right; intros [? [=]]].
Defined.

(** A value that is not an object of the library has none of the
    library's methods. *)
Lemma getattr_foreign line obj m st :
  m ∉ str_methods -> m <> "shape" -> (forall a, obj <> VObj a) ->
  getattr lib line obj m st = (Stuck, st).
Proof.
  intros Hm Hshape Hobj. destruct obj; simpl; try reflexivity.
  - by rewrite bool_decide_eq_false_2.
  - apply String.eqb_neq in Hshape. by rewrite Hshape.
  - by destruct (Hobj addr).
Qed.

Lemma similarity_head w r st :
  exec_block lib (upto 4 gs_similarity) (initial w) = (r, st) ->
  rev (trace st) = similarity_head_events lib w.
Proof.
  change (upto 4 gs_similarity) with (take 2 gs_similarity).
  unfold gs_similarity, similarity_head_events. cbn [take]. intros H.
  apply exec_block_cons_inv in H as [(st1 & H1 & H)|[H1 Hne]];
    apply exec_import_as in H1; unfold after_op in H1; cbn in H1;
    fold import_downloader in H1 |- *;
    destruct (lib import_downloader w) as [[api|e1] w1]; cbn in H1 |- *;
    try destruct (plain api) eqn:Hapi;
    destruct H1 as [Hr ->]; try discriminate Hr; try contradiction;
    try reflexivity;
    try (by destruct api as [| | | | | | | | |[]|]).
  assert (Hcall : exists rv st3,
            eval lib 4 (method (EName "api") "load"
                          [(Pos, EStr "glove-wiki-gigaword-100")])
              {| env := <["api":=api]> ∅; wld := w1;
                 trace := [EvLib 2 import_downloader (LOk api) w1] |}
            = (rv, st3) /\ trace st = trace st3).
  { apply exec_block_cons_inv in H as [(st3 & H3 & H)|[H3 _]];
      apply exec_assign_inv in H3 as (rv & st4 & He & Ht & _);
      [inversion H; subst|]; eauto. }
  destruct Hcall as (rv & st3 & Hcall & ->). clear H.
  unfold method in Hcall.
  rewrite (eval_method_name 4 "api" "load" _ api) in Hcall
    by apply lookup_insert_eq.
  destruct (decide (exists a, api = VObj a)) as [[a ->]|Hno].
  - (* the module is an object of the library *)
    apply bind_inv in Hcall
      as [(f & st2 & Hg & Hcall)|[(?&?&?& Hg & _)|(Hg & _)]];
      cbn [getattr] in Hg; apply call_lib_inv in Hg as [-> Hr2];
      unfold after_op in *; cbn in Hr2 |- *;
      destruct (lib (OpGetAttr (VObj a) "load") w1) as [[f'|e2] w2] eqn:E2;
      cbn in Hr2 |- *; try destruct (plain f') eqn:Hf;
      try discriminate Hr2; try reflexivity.
    injection Hr2 as ->.
    apply bind_inv in Hcall
      as [(pk & st5 & Hargs & Hcall)|[(?&?&?& [=] & _)|([=] & _)]].
    cbn in Hargs. injection Hargs as <- <-.
    cbn [call_method fst snd] in Hcall.
    apply call_lib_inv in Hcall as [-> _].
    unfold after_op. cbn. rewrite E2. reflexivity.
  - (* anything else has no method [load] *)
    unfold bind in Hcall. rewrite getattr_foreign in Hcall.
    + injection Hcall as _ <-.
      by destruct api as [| | | | | | | |a| |]; [..|destruct Hno; eauto| |].
    + unfold str_methods. set_solver.
    + discriminate.
    + intros a ->. apply Hno. eauto.
Qed.

End Head.

(** *** Prefixes of a program *)

Lemma upto_all_later n (p : program) :
  Forall (fun l => n < l) (fst <$> p) -> upto n p = [] /\ after n p = p.
Proof.
  induction p as [|[l s] p IH]; intros Hall; [done|].
  apply Forall_cons in Hall as [Hl Hall]. destruct (IH Hall) as [IH1 IH2].
  unfold upto, after in *. cbn [List.filter fst].
  assert (Hleb : (l <=? n) = false) by (apply Nat.leb_gt; exact Hl).
  rewrite Hleb. cbn. by rewrite IH1, IH2.
Qed.

Lemma upto_after_split n (p : program) :
  increasing (fst <$> p) = true -> p = upto n p ++ after n p.
Proof.
  induction p as [|[l s] p IH]; intros Hinc; [done|].
  cbn [fmap list_fmap fst] in Hinc.
  apply increasing_cons in Hinc as [Hinc Hlt].
  destruct (l <=? n) eqn:Hleb.
  - unfold upto, after in *. cbn [List.filter fst]. rewrite Hleb. cbn.
    f_equal. by apply IH.
  - destruct (upto_all_later n ((l, s) :: p)) as [-> ->]; [|done].
    apply Nat.leb_gt in Hleb. constructor; [exact Hleb|].
    apply Forall_forall. intros x Hx. specialize (Hlt x Hx). lia.
Qed.

Lemma simple_filter (f : nat * stmt -> bool) (p : program) :
  forallb (fun ls => simple ls.2) p = true ->
  forallb (fun ls => simple ls.2) (List.filter f p) = true.
Proof.
  induction p as [|ls p IH]; [done|]. cbn.
  intros [Hs Hp]%andb_true_iff. destruct (f ls); cbn; [rewrite Hs|]; auto.
Qed.

Lemma binds_filter (f : nat * stmt -> bool) (p : program) :
  binds (List.filter f p) ⊆ binds p.
Proof.
  induction p as [|ls p IH]; [done|]. unfold binds in *. cbn.
  destruct (f ls); cbn; set_solver.
Qed.

Lemma keeps_builtins_filter (f : nat * stmt -> bool) (p : program) :
  keeps_builtins p -> keeps_builtins (List.filter f p).
Proof.
  unfold keeps_builtins. intros H. eapply Forall_impl; [exact H|].
  intros x Hx Hin. by apply Hx, (binds_filter f).
Qed.

(** The run of the statements up to line [n] is the beginning of the
    run of the whole program. *)
Lemma upto_prefix (lib : library) (p : program) (n : nat) (w : world) :
  straight_line p = true -> keeps_builtins p ->
  rev (trace (exec_block lib (upto n p) (initial w)).2)
  `prefix_of` events lib p w.
Proof.
  intros [Hs Hinc]%andb_true_iff Hb. unfold events, run.
  assert (Hsplit : exec_block lib p (initial w)
          = (do _ <- exec_block lib (upto n p); exec_block lib (after n p))
              (initial w)).
  { rewrite <- exec_block_app. by rewrite <- upto_after_split. }
  rewrite Hsplit. unfold bind.
  destruct (exec_block lib (upto n p) (initial w)) as [r1 st1] eqn:E1.
  assert (Hun : unshadowed st1).
  { eapply (block_unshadowed lib (upto n p)); [| |exact E1].
    - by apply simple_filter.
    - by apply keeps_builtins_filter. }
  cbn [snd].
  destruct r1 as [[]|l o e|]; [|by exists []; rewrite app_nil_r..].
  destruct (exec_block lib (after n p) st1) as [r2 st2] eqn:E2.
  assert (Hb2 : forall x, x ∈ builtins -> x ∉ binds (after n p)).
  { pose proof (keeps_builtins_filter
                  (fun ls => negb (ls.1 <=? n)) p Hb) as Hk.
    unfold keeps_builtins in Hk. rewrite Forall_forall in Hk. exact Hk. }
  destruct (exec_block_post lib (after n p) _ _ _
              (simple_filter _ p Hs) Hb2 Hun E2)
    as [(_ & evs & Ht & _) _].
  exists evs. rewrite <- (rev_involutive evs), <- rev_app_distr, <- Ht.
  by destruct r2.
Qed.

(** *** The two scripts: one creating call, then queries and prints *)

Definition print_lines : list nat := [7; 11; 14; 22; 29; 33; 37].

(** The expressions whose text the query script prints. *)
Definition show_pair : expr :=
  method (EStr "{}: {:.4f}") "format"
    [(Star, EIndex (EName "result") (EInt 0))].

Definition show_float (fmt x : string) : expr :=
  method (EStr fmt) "format" [(Pos, EName x)].

(** The queries whose answer is printed by the statement that
    follows: line of the query, method, name the answer is bound to,
    line of the print, expression printed. *)
Definition shown_answers : list (nat * string * string * nat * expr) :=
  [(6, "most_similar", "result", 7, show_pair);
   (10, "most_similar_cosmul", "result", 11, show_pair);
   (21, "similar_by_word", "result", 22, show_pair);
   (28, "wmdistance", "similarity", 29, show_float "{:.4f}" "similarity");
   (32, "distance", "distance", 33, show_float "{:.1f}" "distance");
   (36, "n_similarity", "sim", 37, show_float "{:.4f}" "sim")].

Definition query_kind (k : kind) : bool :=
  match k with
  | KMethod name => bool_decide (name ∈ query_methods)
  | KItem => true
  | _ => false
  end.

Lemma is_query_kind ev : is_query ev = true -> query_kind (ev_kind ev) = true.
Proof.
  destruct ev as [l [] [] w|l s]; simpl; try discriminate; auto.
Qed.

Lemma is_print_kind ev : is_print ev = true -> ev_kind ev = KPrint.
Proof. by destruct ev. Qed.

Section Scripts.

Variable lib : library.
Variable w : world.

Lemma similarity_events :
  exists tail,
    events lib gs_similarity w = similarity_head_events lib w ++ tail
    /\ Forall (fun ev => 4 < ev_line ev
                         /\ ev_kind ev ∉ [KMethod "load"; KCall]) tail.
Proof.
  pose proof (follows_Forall lib _ _ _ _ (gs_similarity_follows lib w))
    as Hall.
  revert Hall. unfold events, run.
  assert (Hsplit : exec_block lib gs_similarity (initial w)
          = (do _ <- exec_block lib (upto 4 gs_similarity);
             exec_block lib (after 4 gs_similarity)) (initial w)).
  { by rewrite <- exec_block_app, <- gs_similarity_split_4. }
  rewrite Hsplit. unfold bind.
  destruct (exec_block lib (upto 4 gs_similarity) (initial w))
    as [r1 st1] eqn:E1.
  pose proof (similarity_head lib w r1 st1 E1) as Hhead.
  assert (Hun : unshadowed st1).
  { eapply (block_unshadowed lib (upto 4 gs_similarity)); [..|exact E1];
      [reflexivity|unfold keeps_builtins; compute_done]. }
  destruct r1 as [[]|l o e|];
    [|intros _; exists []; rewrite app_nil_r; split; [done|constructor]..].
  destruct (exec_block lib (after 4 gs_similarity) st1) as [r2 st2] eqn:E2.
  assert (Hb2 : forall x, x ∈ builtins -> x ∉ binds (after 4 gs_similarity)).
  { apply Forall_forall. compute_done. }
  destruct (exec_block_post lib (after 4 gs_similarity) _ _ _
              eq_refl Hb2 Hun E2) as [(_ & evs & Ht & Hf & _) _].
  assert (Hev : forall u : ending,
            rev (trace (u, st2).2) = similarity_head_events lib w ++ evs).
  { intros u. cbn [snd]. by rewrite Ht, rev_app_distr, rev_involutive, Hhead. }
  intros Hall. exists evs.
  assert (Hgoal : Forall (fun ev => 4 < ev_line ev
                         /\ ev_kind ev ∉ [KMethod "load"; KCall]) evs).
  { assert (Hall' : Forall (fun ev => ev_site ev
                                      ∈ sites (upto 50 gs_similarity)) evs).
    { destruct r2; rewrite Hev in Hall; by apply Forall_app in Hall as [_ ?]. }
    apply Forall_forall. intros ev Hin.
    rewrite Forall_forall in Hall'. specialize (Hall' ev Hin).
    pose proof (follows_Forall lib _ _ _ _ Hf) as Hlate.
    rewrite Forall_forall in Hlate. specialize (Hlate ev Hin).
    assert (H1 : Forall (fun lk : nat * kind => 4 < lk.1)
                   (sites (after 4 gs_similarity))) by compute_done.
    assert (H2 : Forall (fun lk : nat * kind =>
                   4 < lk.1 -> lk.2 ∉ [KMethod "load"; KCall])
                   (sites (upto 50 gs_similarity))) by compute_done.
    rewrite Forall_forall in H1, H2.
    specialize (H1 _ Hlate). specialize (H2 _ Hall' H1). by split. }
  split; [|exact Hgoal]. by destruct r2; rewrite Hev.
Qed.

Lemma similarity_queries_and_prints :
  Forall (fun ev => (is_query ev = true -> 4 < ev_line ev)
                    /\ (is_print ev = true -> ev_line ev ∈ print_lines))
         (events lib gs_similarity w).
Proof.
  eapply Forall_impl;
    [exact (follows_Forall lib _ _ _ _ (gs_similarity_follows lib w))|].
  intros ev Hsite.
  assert (H1 : Forall (fun lk : nat * kind =>
                 (query_kind lk.2 = true -> 4 < lk.1)
                 /\ (lk.2 = KPrint -> lk.1 ∈ print_lines))
                 (sites (upto 50 gs_similarity))) by compute_done.
  rewrite Forall_forall in H1. destruct (H1 _ Hsite) as [Hq Hp].
  split.
  - intros H. by apply Hq, is_query_kind.
  - intros H. by apply Hp, is_print_kind.
Qed.

Lemma train_no_query_no_print :
  Forall (fun ev => is_query ev = false /\ is_print ev = false)
         (events lib gs_train_model w).
Proof.
  destruct (train_events lib w) as (tail & -> & Htail).
  apply Forall_app. split.
  - unfold train_head_events.
    destruct (lib import_corpus w) as [[c|e1] w1]; cbn;
      [destruct (plain c)|]; repeat constructor.
    destruct (lib import_Word2Vec w1) as [[f|e2] w2]; cbn;
      [destruct (library_object f)|]; repeat constructor.
  - eapply Forall_impl; [exact Htail|].
    by intros [l [] r w'|l s]; unfold ev_site; cbn; intros [=].
Qed.

End Scripts.

(** X11.  For every library and world:
    - each script makes one creating call at most, on line 4, and it
      comes before everything else but the imports and the lookup of
      [load]: the events of a run are those of lines 1 to 4, with the
      call of [load] (of [Word2Vec]) last among them, followed by
      events of later lines, none of which is a call of [load] or of
      a function;
    - the events come in the order of the lines; every answer to a
      query comes after line 4; the query script prints on lines 7,
      11, 14, 22, 29, 33 and 37 only, so nothing is printed for the
      answers of [similarity] (line 17), of the vector lookup (line
      40) and of [word_vec] (line 44); the training script makes no
      query and prints nothing;
    - the run of the statements up to any line is the beginning of
      the run of the script;
    - for [most_similar], [most_similar_cosmul], [similar_by_word],
      [wmdistance], [distance] and [n_similarity]: when the print
      statement after the query completes, the query was answered,
      the answer is what the assigned name holds, and the text printed
      is that of the format expression evaluated there; for
      [doesnt_match], when the statement on line 14 completes, the
      text printed is that of the answer. *)
Theorem queries_and_prints (lib : library) (w : world) :
  (exists tail,
     events lib gs_similarity w = similarity_head_events lib w ++ tail
     /\ Forall (fun ev => 4 < ev_line ev
                          /\ ev_kind ev ∉ [KMethod "load"; KCall]) tail)
  /\ (exists tail,
        events lib gs_train_model w = train_head_events lib w ++ tail
        /\ Forall (fun ev => ev_site ev = (5, KAttr "wv")) tail)
  /\ in_line_order (events lib gs_similarity w)
  /\ Forall (fun ev => (is_query ev = true -> 4 < ev_line ev)
                       /\ (is_print ev = true -> ev_line ev ∈ print_lines))
            (events lib gs_similarity w)
  /\ Forall (fun ev => is_query ev = false /\ is_print ev = false)
            (events lib gs_train_model w)
  /\ (forall n,
        rev (trace (exec_block lib (upto n gs_similarity) (initial w)).2)
        `prefix_of` events lib gs_similarity w)
  /\ Forall (fun '(lq, m, x, lp, arg) =>
               upto lp gs_similarity
               = upto lq gs_similarity ++ [(lp, SExpr (print arg))]
               /\ answer_shown lib w (upto lq gs_similarity) lq m x lp arg)
            shown_answers
  /\ (upto 14 gs_similarity
      = upto 11 gs_similarity
        ++ [(14, SExpr (print (method (EName "word_vectors") "doesnt_match"
                                 [(Pos, method
                                          (EStr "breakfast cereal dinner lunch")
                                          "split" [])])))]
      /\ answer_shown_at lib w (upto 11 gs_similarity) 14 "doesnt_match").
Proof.
  assert (Hsl : straight_line gs_similarity = true) by reflexivity.
  assert (Hkb : keeps_builtins gs_similarity)
    by (unfold keeps_builtins; compute_done).
  split; [apply similarity_events|].
  split; [apply train_events|].
  split; [by apply straight_line_run|].
  split; [apply similarity_queries_and_prints|].
  split; [apply train_no_query_no_print|].
  split; [intros n; by apply upto_prefix|].
  split.
  - unfold shown_answers. rewrite !Forall_cons.
    repeat split; try apply Forall_nil_2; try reflexivity.
    + eapply answer_shown_upto with (pre := upto 5 gs_similarity);
        [reflexivity|reflexivity|unfold keeps_builtins; compute_done
        |compute_done|discriminate].
    + eapply answer_shown_upto with (pre := upto 9 gs_similarity);
        [reflexivity|reflexivity|unfold keeps_builtins; compute_done
        |compute_done|discriminate].
    + eapply answer_shown_upto with (pre := upto 20 gs_similarity);
        [reflexivity|reflexivity|unfold keeps_builtins; compute_done
        |compute_done|discriminate].
    + eapply answer_shown_upto with (pre := upto 27 gs_similarity);
        [reflexivity|reflexivity|unfold keeps_builtins; compute_done
        |compute_done|discriminate].
    + eapply answer_shown_upto with (pre := upto 31 gs_similarity);
        [reflexivity|reflexivity|unfold keeps_builtins; compute_done
        |compute_done|discriminate].
    + eapply answer_shown_upto with (pre := upto 35 gs_similarity);
        [reflexivity|reflexivity|unfold keeps_builtins; compute_done
        |compute_done|discriminate].
  - split; [reflexivity|].
    apply print_answer;
      [reflexivity|unfold keeps_builtins; compute_done
      |compute_done|discriminate].
Qed.

(** Against the demonstration library the print on line 29 completes,
    and shows the answer of [wmdistance]. *)
Lemma queries_and_prints_witness :
  exists s tr,
    trace (exec_block Demo.lib
             (upto 28 gs_similarity
              ++ [(29, SExpr (print (show_float "{:.4f}" "similarity")))])
             (initial Demo.online)).2
    = EvPrint 29 s :: tr.
Proof.
  destruct (queries_and_prints Demo.lib Demo.online)
    as (_ & _ & _ & _ & _ & _ & Hshown & _).
  unfold shown_answers in Hshown.
  apply Forall_cons in Hshown as [_ Hshown].
  apply Forall_cons in Hshown as [_ Hshown].
  apply Forall_cons in Hshown as [_ Hshown].
  apply Forall_cons in Hshown as [[_ H] _].
  destruct H as (obj & f & a & k & v & wq & tr & val & s & st1 & H);
    [vm_compute; reflexivity|].
  exists s, (trace st1). apply H.
Defined.

(** C2 fails on the code.  In the run of [gs_similarity.py] against
    the demonstration library, in which every call succeeds, ten
    queries are answered (lines 6, 10, 14, 17, 21, 28, 32, 36, 40 and
    44) and seven lines are printed: nothing at all is printed after
    the vector of "computer" is looked up on line 40, and the answer
    of [similarity] (line 17) is not printed before the next query,
    [similar_by_word] (line 21), is answered. *)
Lemma similarity_answer_not_printed :
  let evs := events Demo.lib gs_similarity Demo.online in
  printed_later evs = false
  /\ answers_printed false evs = false
  /\ map ev_line (filter (fun ev => is_query ev = true) evs)
     = [6; 10; 14; 17; 21; 28; 32; 36; 40; 44]
  /\ printed evs
     = ["queen: 1.0000"; "queen: 1.0000"; "cereal"; "dog: 0.9963";
        "0.2000"; "-0.0"; "0.9993"].
Proof. vm_compute. repeat split. Qed.

(** ** What the scripts ask of the library, told from their text *)

(** *** Expressions whose value the text tells *)

(** The value of an expression that needs nothing from the library:
    a literal, a list of such expressions, a name whose value is
    known ([known] holds the names that are), [lower()] or [split()]
    of such a string. *)
Fixpoint static (known : gmap string value) (e : expr) : option value :=
  match e with
  | EStr s => Some (VStr s)
  | EInt z => Some (VInt z)
  | EFloat x => Some (VFloat x)
  | EBool b => Some (VBool b)
  | EName x => known !! x
  | EList es => VList <$> mapM (static known) es
  | ECall (EAttr r m) [] =>
      if String.eqb m "lower" then
        match static known r with
        | Some (VStr s) => Some (VStr (PyStr.lower s))
        | _ => None
        end
      else if String.eqb m "split" then
        match static known r with
        | Some (VStr s) => Some (VList (VStr <$> PyStr.split s))
        | _ => None
        end
      else None
  | _ => None
  end.

(** The same for the arguments of a call: positional and keyword
    arguments, in their order; no starred argument. *)
Fixpoint static_args (known : gmap string value)
    (args : list (argkind * expr))
  : option (list value * list (string * value)) :=
  match args with
  | [] => Some ([], [])
  | (Pos, e) :: r =>
      v ← static known e; pk ← static_args known r; Some (v :: pk.1, pk.2)
  | (Kw name, e) :: r =>
      v ← static known e; pk ← static_args known r;
      Some (pk.1, (name, v) :: pk.2)
  | (Star, _) :: _ => None
  end.

Section Static.

Variable lib : library.

Lemma static_eval_list known line es vs :
  Forall (fun e => forall v st, static known e = Some v ->
            known ⊆ env st -> eval lib line e st = (Ok v, st)) es ->
  mapM (static known) es = Some vs ->
  forall st, known ⊆ env st -> eval_list lib line es st = (Ok vs, st).
Proof.
  intros Hall. revert vs.
  induction Hall as [|e es He Hes IH]; intros vs Hm st Hst.
  - injection Hm as <-. reflexivity.
  - cbn [mapM] in Hm.
    destruct (static known e) as [v|] eqn:Hv; [|discriminate Hm].
    destruct (mapM (static known) es) as [vs'|] eqn:Hvs; [|discriminate Hm].
    injection Hm as <-. cbn [eval_list]. unfold bind.
    rewrite (He v st eq_refl Hst), (IH vs' eq_refl st Hst). reflexivity.
Qed.

(** An expression whose value the text tells evaluates to it, and
    asks nothing of the library. *)
Lemma static_eval known line e v st :
  static known e = Some v -> known ⊆ env st ->
  eval lib line e st = (Ok v, st).
Proof.
  revert v st.
  induction e as [x|s0|z|x|b|es IH|e name IH|e i IHe IHi
                 |e name args IHe IHargs|f args Hf IHf IHargs
                 |a b IHa IHb] using expr_ind2;
    intros v st Hs Hst; try discriminate Hs.
  - cbn [static] in Hs. cbn [eval]. unfold lookup_name.
    by rewrite (lookup_weaken _ _ _ _ Hs Hst).
  - by injection Hs as <-.
  - by injection Hs as <-.
  - by injection Hs as <-.
  - by injection Hs as <-.
  - cbn [static] in Hs.
    destruct (mapM (static known) es) as [vs|] eqn:Hvs; [|discriminate Hs].
    injection Hs as <-. rewrite eval_EList. unfold bind.
    by rewrite (static_eval_list known line es vs IH Hvs st Hst).
  - cbn [static] in Hs. destruct args; [|discriminate Hs].
    rewrite eval_method. unfold bind.
    destruct (String.eqb name "lower") eqn:Hl.
    + apply String.eqb_eq in Hl as ->.
      destruct (static known e) as [[]|] eqn:Hr; try discriminate Hs.
      injection Hs as <-. by rewrite (IHe _ st eq_refl Hst).
    + destruct (String.eqb name "split") eqn:Hp; [|discriminate Hs].
      apply String.eqb_eq in Hp as ->.
      destruct (static known e) as [[]|] eqn:Hr; try discriminate Hs.
      injection Hs as <-. by rewrite (IHe _ st eq_refl Hst).
  - destruct f; try discriminate Hf; destruct args; discriminate Hs.
Qed.

Lemma static_eval_args known line args pk st :
  static_args known args = Some pk -> known ⊆ env st ->
  eval_args lib line args st = (Ok pk, st).
Proof.
  revert pk. induction args as [|[[| |name] e] args IH]; intros pk Hs Hst.
  - by injection Hs as <-.
  - cbn [static_args] in Hs.
    destruct (static known e) as [v|] eqn:Hv; [|discriminate Hs].
    destruct (static_args known args) as [pk'|]; [|discriminate Hs].
    injection Hs as <-. cbn [eval_args]. unfold bind.
    by rewrite (static_eval known line e v st Hv Hst), (IH pk' eq_refl).
  - discriminate Hs.
  - cbn [static_args] in Hs.
    destruct (static known e) as [v|] eqn:Hv; [|discriminate Hs].
    destruct (static_args known args) as [pk'|]; [|discriminate Hs].
    injection Hs as <-. cbn [eval_args]. unfold bind.
    by rewrite (static_eval known line e v st Hv Hst), (IH pk' eq_refl).
Qed.

End Static.

(** *** Calls of methods, and the requests a text stands for *)

(** A call of a method of an object of the library, as it reaches
    the library. *)
Record method_call : Type := MethodCall {
  call_line : nat;
  call_obj : value;
  call_name : string;
  call_args : list value;
  call_kwargs : list (string * value)
}.

(** A call as the text of the script tells it: the object, where the
    text tells it. *)
Record request : Type := Request {
  req_line : nat;
  req_obj : option value;
  req_name : string;
  req_args : list value;
  req_kwargs : list (string * value)
}.

Definition asked (ev : event) : option method_call :=
  match ev with
  | EvLib l (OpCallMethod obj m _ a k) _ _ => Some (MethodCall l obj m a k)
  | _ => None
  end.

(** The calls of methods among the events. *)
Definition method_calls (evs : list event) : list method_call :=
  omap asked evs.

(** The call [c] is the one that [rq] stands for. *)
Definition meets (rq : request) (c : method_call) : Prop :=
  req_line rq = call_line c /\ req_name rq = call_name c
  /\ req_args rq = call_args c /\ req_kwargs rq = call_kwargs c
  /\ forall v, req_obj rq = Some v -> call_obj c = v.

Definition is_ok {A} (r : res A) : bool :=
  match r with
  | Ok _ => true
  | _ => false
  end.

(** The calls [cs] are those of the requests [L], in their order: of
    all of them if [complete], of the first ones otherwise. *)
Definition served (L : list request) (cs : list method_call)
    (complete : bool) : Prop :=
  exists done rest,
    L = done ++ rest /\ Forall2 meets done cs
    /\ (complete = true -> rest = []).

Lemma served_nil complete : served [] [] complete.
Proof. exists [], []. repeat split; auto. Qed.

Lemma served_app L1 cs1 L2 cs2 complete :
  served L1 cs1 true -> served L2 cs2 complete ->
  served (L1 ++ L2) (cs1 ++ cs2) complete.
Proof.
  intros (d1 & r1 & -> & H1 & Hr1) (d2 & r2 & -> & H2 & Hr2).
  rewrite (Hr1 eq_refl), app_nil_r.
  exists (d1 ++ d2), r2. rewrite app_assoc.
  repeat split; auto. by apply Forall2_app.
Qed.

Lemma served_stop L1 cs L2 : served L1 cs false -> served (L1 ++ L2) cs false.
Proof.
  intros (d & r & -> & H & _). exists d, (r ++ L2).
  rewrite app_assoc. repeat split; auto. discriminate.
Qed.

Lemma served_weaken L cs : served L cs true -> forall b, served L cs b.
Proof. intros (d & r & -> & H & Hr) b. exists d, r. auto. Qed.

(** The kinds [ks] hold no call of a method. *)
Definition quiet_kinds (ks : list kind) : bool :=
  forallb (fun k => match k with KMethod _ => false | _ => true end) ks.

Lemma quiet_kinds_calls line ks evs :
  quiet_kinds ks = true -> Forall (at_site line ks) evs ->
  method_calls evs = [].
Proof.
  intros Hq. induction 1 as [|ev evs [_ Hk] _ IH]; [reflexivity|].
  unfold method_calls in *. cbn [omap list_omap]. rewrite IH.
  destruct ev as [l [] r w|l s]; try reflexivity.
  unfold quiet_kinds in Hq. rewrite forallb_forall in Hq.
  apply list_elem_of_In, Hq in Hk. discriminate Hk.
Qed.

Section Asks.

Variable lib : library.
Variable known : gmap string value.

(** A computation that leaves the globals alone and makes the calls
    of the requests [L]: all of them when it completes, the first
    ones when it fails. *)
Definition asks {A} (m : M A) (L : list request) : Prop :=
  forall st r st', unshadowed st -> known ⊆ env st -> m st = (r, st') ->
    env st' = env st /\
    exists evs, trace st' = rev evs ++ trace st
                /\ served L (method_calls evs) (is_ok r).

Lemma method_calls_app evs1 evs2 :
  method_calls (evs1 ++ evs2) = method_calls evs1 ++ method_calls evs2.
Proof. apply omap_app. Qed.

Lemma asks_bind {A B} (m : M A) (k : A -> M B) L1 L2 :
  asks m L1 -> (forall a, asks (k a) L2) -> asks (bind m k) (L1 ++ L2).
Proof.
  intros Hm Hk st r st' Hun Hst H. unfold bind in H.
  destruct (m st) as [[a|l o e|] st1] eqn:E;
    destruct (Hm _ _ _ Hun Hst E) as (He1 & evs1 & Ht1 & Hs1).
  - assert (Hun1 : unshadowed st1) by eauto using unshadowed_env.
    assert (Hst1 : known ⊆ env st1) by (by rewrite He1).
    destruct (Hk a _ _ _ Hun1 Hst1 H) as (He2 & evs2 & Ht2 & Hs2).
    split; [congruence|]. exists (evs1 ++ evs2).
    rewrite rev_app_distr, <- app_assoc, <- Ht1, Ht2, method_calls_app.
    split; [reflexivity|]. by apply served_app.
  - inversion H; subst. split; [assumption|]. exists evs1.
    split; [assumption|]. by apply served_stop.
  - inversion H; subst. split; [assumption|]. exists evs1.
    split; [assumption|]. by apply served_stop.
Qed.

(** A computation whose footprint holds no call of a method. *)
Lemma asks_quiet {A} (m : M A) line ks :
  quiet_kinds ks = true -> emits lib m (at_site line ks) -> asks m [].
Proof.
  intros Hq Hm st r st' Hun _ H.
  destruct (Hm st r st' Hun H) as (He & evs & Ht & Hf & _).
  split; [assumption|]. exists evs. split; [assumption|].
  rewrite (quiet_kinds_calls line ks evs Hq (follows_Forall lib _ _ _ _ Hf)).
  apply served_nil.
Qed.

Lemma asks_state_free {A} (m : M A) : state_free m -> asks m [].
Proof.
  intros (r0 & _ & Hr) st r st' _ _ H. rewrite Hr in H.
  injection H as <- <-. split; [reflexivity|]. exists [].
  split; [reflexivity|]. apply served_nil.
Qed.

Lemma asks_static line e v : static known e = Some v -> asks (eval lib line e) [].
Proof.
  intros Hs st r st' _ Hst H.
  rewrite (static_eval lib known line e v st Hs Hst) in H.
  injection H as <- <-. split; [reflexivity|]. exists [].
  split; [reflexivity|]. apply served_nil.
Qed.

Lemma served_one rq c complete :
  meets rq c -> served [rq] [c] complete.
Proof.
  intros H. exists [rq], []. repeat split; auto.
Qed.

Lemma served_none L : served L [] false.
Proof. exists [], L. repeat split; auto. discriminate. Qed.

(** A method call whose arguments the text tells: the method is
    looked up on the object, and called with these arguments.  On
    anything but an object of the library a method that is not one
    of [str] fails. *)
Lemma asks_invoke line obj m args pk :
  m ∉ str_methods -> static_args known args = Some pk ->
  asks (do fv <- getattr lib line obj m;
        do pk <- eval_args lib line args;
        call_method lib line obj m fv pk.1 pk.2)
       [Request line (Some obj) m pk.1 pk.2].
Proof.
  intros Hm Hs st r st' Hun Hst H.
  destruct (decide (exists a, obj = VObj a)) as [[a ->]|Hno].
  - cbn [getattr] in H.
    apply bind_inv in H as [(fv & st1 & Hg & H)|[(?&?&?& Hg & ->)|(Hg & ->)]];
      apply call_lib_inv in Hg as [-> _].
    + unfold bind in H.
      rewrite (static_eval_args lib known line args pk
                 (after_op lib line (OpGetAttr (VObj a) m) st) Hs Hst) in H.
      cbn [call_method] in H. apply call_lib_inv in H as [-> _].
      split; [reflexivity|].
      eexists [_; _]. split; [reflexivity|].
      apply served_one. repeat split. by intros v [= <-].
    + split; [reflexivity|]. eexists [_]. split; [reflexivity|].
      apply served_none.
    + split; [reflexivity|]. eexists [_]. split; [reflexivity|].
      apply served_none.
  - assert (Hfail : is_ok r = false /\ st' = st).
    { unfold bind in H.
      destruct obj; cbn [getattr] in H;
        try (injection H as <- <-; by split).
      - rewrite bool_decide_eq_false_2 in H by assumption.
        injection H as <- <-. by split.
      - destruct (String.eqb m "shape"); [|injection H as <- <-; by split].
        cbn [ret] in H.
        rewrite (static_eval_args lib known line args pk _ Hs Hst) in H.
        cbn in H. injection H as <- <-. by split.
      - destruct Hno. eauto. }
    destruct Hfail as [-> ->]. split; [reflexivity|]. exists [].
    split; [reflexivity|]. apply served_none.
Qed.

Lemma asks_bind_post {A B} (m : M A) (k : A -> M B) L1 L2 (Q : A -> Prop) :
  asks m L1 ->
  (forall st a st', known ⊆ env st -> m st = (Ok a, st') -> Q a) ->
  (forall a, Q a -> asks (k a) L2) ->
  asks (bind m k) (L1 ++ L2).
Proof.
  intros Hm HQ Hk st r st' Hun Hst H. unfold bind in H.
  destruct (m st) as [[a|l o e|] st1] eqn:E;
    destruct (Hm _ _ _ Hun Hst E) as (He1 & evs1 & Ht1 & Hs1).
  - assert (Hun1 : unshadowed st1) by eauto using unshadowed_env.
    assert (Hst1 : known ⊆ env st1) by (by rewrite He1).
    destruct (Hk a (HQ _ _ _ Hst E) _ _ _ Hun1 Hst1 H)
      as (He2 & evs2 & Ht2 & Hs2).
    split; [congruence|]. exists (evs1 ++ evs2).
    rewrite rev_app_distr, <- app_assoc, <- Ht1, Ht2, method_calls_app.
    split; [reflexivity|]. by apply served_app.
  - inversion H; subst. split; [assumption|]. exists evs1.
    split; [assumption|]. by apply served_stop.
  - inversion H; subst. split; [assumption|]. exists evs1.
    split; [assumption|]. by apply served_stop.
Qed.

(** A request that tells less of the object. *)
Lemma served_object line obj o m a k cs complete :
  (forall v, o = Some v -> obj = v) ->
  served [Request line (Some obj) m a k] cs complete ->
  served [Request line o m a k] cs complete.
Proof.
  intros Ho (d & r & Heq & H & Hr).
  destruct d as [|rq d].
  - simpl in Heq. subst r. exists [], [Request line o m a k].
    repeat split; auto. intros Hc. specialize (Hr Hc). discriminate Hr.
  - injection Heq as <- Heq.
    assert (d = [] /\ r = []) as [-> ->] by (by destruct d).
    apply Forall2_cons_inv_l in H as (c & cs' & Hc & Hcs & ->).
    apply Forall2_nil_inv_l in Hcs as ->.
    apply served_one. destruct Hc as (H1 & H2 & H3 & H4 & H5).
    repeat split; auto. simpl in *. intros v Hv. rewrite <- (Ho v Hv).
    by apply H5.
Qed.

Lemma asks_object {A} (m : M A) line obj o name a k :
  (forall v, o = Some v -> obj = v) ->
  asks m [Request line (Some obj) name a k] ->
  asks m [Request line o name a k].
Proof.
  intros Ho Hm st r st' Hun Hst H.
  destruct (Hm st r st' Hun Hst H) as (He & evs & Ht & Hs).
  split; [assumption|]. exists evs. split; [assumption|].
  by apply (served_object line obj).
Qed.

End Asks.

(** The request of a method call [r.m(args)]: the arguments are told
    by the text; the object is, or it comes from an expression that
    calls no method. *)
Definition call_request (known : gmap string value) (line : nat) (e : expr)
  : option request :=
  match e with
  | ECall (EAttr r m) args =>
      if bool_decide (m ∈ str_methods) then None
      else if bool_decide (is_Some (static known r))
              || quiet_kinds (expr_kinds r) then
        pk ← static_args known args;
        Some (Request line (static known r) m pk.1 pk.2)
      else None
  | _ => None
  end.

(** The requests of an expression: none if its footprint holds no
    call of a method; one for a method call, alone or as the argument
    of a function such as [print]. *)
Definition expr_requests (known : gmap string value) (line : nat) (e : expr)
  : option (list request) :=
  if quiet_kinds (expr_kinds e) then Some []
  else
    match call_request known line e with
    | Some rq => Some [rq]
    | None =>
        match e with
        | ECall f [(Pos, a)] =>
            if negb (is_attr f) && quiet_kinds (expr_kinds f)
            then rq ← call_request known line a; Some [rq]
            else None
        | _ => None
        end
    end.

Section Requests.

Variable lib : library.

Lemma asks_call_request known line e rq :
  call_request known line e = Some rq -> asks known (eval lib line e) [rq].
Proof.
  destruct e as [| | | | | | | |f args|]; try discriminate.
  destruct f as [| | | | | |r m| | |]; try discriminate.
  cbn [call_request].
  destruct (bool_decide (m ∈ str_methods)) eqn:Hm; [discriminate|].
  apply bool_decide_eq_false_1 in Hm.
  destruct (bool_decide (is_Some (static known r))
            || quiet_kinds (expr_kinds r)) eqn:Hr; [|discriminate].
  destruct (static_args known args) as [pk|] eqn:Hpk; [|discriminate].
  intros [= <-]. rewrite eval_method.
  change [Request line (static known r) m pk.1 pk.2]
    with ([] ++ [Request line (static known r) m pk.1 pk.2]).
  apply asks_bind_post
    with (Q := fun obj => forall v, static known r = Some v -> obj = v).
  - destruct (static known r) as [v|] eqn:Hv.
    + by apply (asks_static lib known line r v).
    + simpl in Hr. eapply asks_quiet; [exact Hr|apply emits_eval].
  - intros st a st' Hst He v Hv.
    rewrite (static_eval lib known line r v st Hv Hst) in He. congruence.
  - intros obj Hobj. apply (asks_object known _ line obj); [exact Hobj|].
    by apply asks_invoke.
Qed.

(** The analysis of an expression is sound. *)
Lemma asks_expr known line e L :
  expr_requests known line e = Some L -> asks known (eval lib line e) L.
Proof.
  unfold expr_requests.
  destruct (quiet_kinds (expr_kinds e)) eqn:Hq.
  { intros [= <-]. eapply asks_quiet; [exact Hq|apply emits_eval]. }
  destruct (call_request known line e) as [rq|] eqn:Hrq.
  { intros [= <-]. by apply asks_call_request. }
  destruct e as [| | | | | | | |f args|]; try discriminate.
  destruct args as [|[[] a] [|]]; try discriminate.
  destruct (negb (is_attr f) && quiet_kinds (expr_kinds f)) eqn:Hf;
    [|discriminate].
  apply andb_true_iff in Hf as [Hattr Hqf]. apply negb_true_iff in Hattr.
  destruct (call_request known line a) as [rq'|] eqn:Ha; [|discriminate].
  intros [= <-]. rewrite eval_call by assumption.
  change [rq'] with ([] ++ ([rq'] ++ ([] ++ [])) ++ []).
  apply asks_bind.
  { eapply asks_quiet; [exact Hqf|apply emits_eval]. }
  intros fv. apply asks_bind.
  - cbn [eval_args]. apply asks_bind; [by apply asks_call_request|].
    intros v. apply asks_bind.
    + apply asks_state_free, state_free_ret.
    + intros. apply asks_state_free, state_free_ret.
  - intros pk. eapply (asks_quiet lib known _ line [KCall; KPrint]);
      [reflexivity|apply emits_call].
Qed.

End Requests.

(** *** Statements and programs *)

(** The requests of a simple statement, and what is known after it:
    a name bound to a value that the text tells becomes known, any
    other binding makes the name unknown. *)
Definition stmt_requests (known : gmap string value) (line : nat) (s : stmt)
  : option (list request * gmap string value) :=
  match s with
  | SImportAs _ x | SImportFrom _ x => Some ([], delete x known)
  | SAssign x e =>
      match static known e with
      | Some v => Some ([], <[x := v]> known)
      | None => L ← expr_requests known line e; Some (L, delete x known)
      end
  | SExpr e => L ← expr_requests known line e; Some (L, known)
  | _ => None
  end.

(** The requests of a program, in the order of its statements. *)
Fixpoint requests (known : gmap string value) (p : program)
  : option (list request) :=
  match p with
  | [] => Some []
  | (l, s) :: r =>
      match stmt_requests known l s with
      | Some (L, known') => app L <$> requests known' r
      | None => None
      end
  end.

Section Programs.

Variable lib : library.

Lemma known_rebound (known env0 : gmap string value) x v :
  known ⊆ env0 -> delete x known ⊆ <[x := v]> env0.
Proof.
  intros Hk. apply map_subseteq_spec. intros i w Hi.
  destruct (decide (i = x)) as [->|Hne].
  - by rewrite lookup_delete_eq in Hi.
  - rewrite lookup_delete_ne in Hi by done.
    rewrite lookup_insert_ne by done. by eapply lookup_weaken.
Qed.

Lemma unshadowed_set x v (st : state) w tr :
  x ∉ builtins -> unshadowed st ->
  unshadowed (State (<[x := v]> (env st)) w tr).
Proof.
  intros Hx Hun y Hy. cbn [env]. rewrite lookup_insert_ne; [by apply Hun|].
  by intros ->.
Qed.

(** What a statement leaves, with the requests it made. *)
Definition stmt_post (known' : gmap string value) (L : list request)
    (st : state) (r : res unit) (st' : state) : Prop :=
  unshadowed st' /\ (r = Ok tt -> known' ⊆ env st') /\
  exists evs, trace st' = rev evs ++ trace st
              /\ served L (method_calls evs) (is_ok r).

Lemma asks_import known line op x st r st' :
  asked (EvLib line op (lib op (wld st)).1 (lib op (wld st)).2) = None ->
  x ∉ builtins -> unshadowed st -> known ⊆ env st ->
  (do v <- call_lib lib line op; set_name x v) st = (r, st') ->
  stmt_post (delete x known) [] st r st'.
Proof.
  intros Hop Hx Hun Hst H.
  apply bind_inv in H as [(v & st1 & Hg & H)|[(?&?&?& Hg & ->)|(Hg & ->)]];
    apply call_lib_inv in Hg as [-> _].
  - injection H as <- <-. split; [by apply unshadowed_set|].
    split; [intros _; by apply known_rebound|].
    eexists [_]. split; [reflexivity|].
    unfold method_calls. cbn [omap list_omap]. rewrite Hop. apply served_nil.
  - split; [exact Hun|]. split; [discriminate|].
    eexists [_]. split; [reflexivity|].
    unfold method_calls. cbn [omap list_omap]. rewrite Hop. apply served_nil.
  - split; [exact Hun|]. split; [discriminate|].
    eexists [_]. split; [reflexivity|].
    unfold method_calls. cbn [omap list_omap]. rewrite Hop. apply served_nil.
Qed.

(** The analysis of a statement is sound. *)
Lemma asks_stmt known line s L known' st r st' :
  stmt_requests known line s = Some (L, known') ->
  (forall x, x ∈ stmt_binds s -> x ∉ builtins) ->
  unshadowed st -> known ⊆ env st ->
  exec lib line s st = (r, st') ->
  stmt_post known' L st r st'.
Proof.
  intros Hs Hb Hun Hst H.
  destruct s as [m x|m x|x e|o k e|o k|e| | |]; try discriminate Hs;
    cbn [stmt_requests] in Hs.
  - injection Hs as <- <-. cbn [exec] in H.
    eapply asks_import; eauto; [reflexivity|]. apply Hb. set_solver.
  - injection Hs as <- <-. cbn [exec] in H.
    eapply asks_import; eauto; [reflexivity|]. apply Hb. set_solver.
  - assert (Hx : x ∉ builtins) by (apply Hb; set_solver).
    destruct (static known e) as [v|] eqn:Hv.
    + injection Hs as <- <-. cbn [exec] in H. unfold bind in H.
      rewrite (static_eval lib known line e v st Hv Hst) in H.
      injection H as <- <-. split; [by apply unshadowed_set|].
      split; [intros _; by apply insert_mono|].
      exists []. split; [reflexivity|]. apply served_nil.
    + destruct (expr_requests known line e) as [L'|] eqn:HL;
        [|discriminate Hs].
      injection Hs as <- <-.
      apply exec_assign_inv in H as (rv & st1 & He & Ht & _ & Hrv).
      destruct (asks_expr lib known line e L' HL st rv st1 Hun Hst He)
        as (Henv & evs & Htr & Hserved).
      destruct rv as [v| |]; destruct Hrv as [-> Henv'].
      * split.
        { intros y Hy. rewrite Henv', Henv.
          rewrite lookup_insert_ne; [by apply Hun|]. by intros ->. }
        split.
        { intros _. rewrite Henv', Henv. by apply known_rebound. }
        exists evs. by rewrite Ht.
      * split; [intros y Hy; rewrite Henv', Henv; by apply Hun|].
        split; [discriminate|]. exists evs. by rewrite Ht.
      * split; [intros y Hy; rewrite Henv', Henv; by apply Hun|].
        split; [discriminate|]. exists evs. by rewrite Ht.
  - destruct (expr_requests known line e) as [L'|] eqn:HL; [|discriminate Hs].
    injection Hs as <- <-. cbn [exec] in H.
    apply bind_inv in H as [(v & st1 & He & H)|[(?&?&?& He & ->)|(He & ->)]];
      destruct (asks_expr lib known line e L' HL _ _ _ Hun Hst He)
        as (Henv & evs & Htr & Hserved).
    + injection H as <- <-.
      split; [intros y Hy; rewrite Henv; by apply Hun|].
      split; [intros _; by rewrite Henv|]. by exists evs.
    + split; [intros y Hy; rewrite Henv; by apply Hun|].
      split; [discriminate|]. by exists evs.
    + split; [intros y Hy; rewrite Henv; by apply Hun|].
      split; [discriminate|]. by exists evs.
Qed.

(** The analysis of a program is sound: the calls of methods in a
    run are those of its requests, all of them if the run completes,
    the first ones otherwise. *)
Lemma asks_block (p : program) known L st r st' :
  requests known p = Some L ->
  (forall x, x ∈ binds p -> x ∉ builtins) ->
  unshadowed st -> known ⊆ env st ->
  exec_block lib p st = (r, st') ->
  exists evs, trace st' = rev evs ++ trace st
              /\ served L (method_calls evs) (is_ok r).
Proof.
  revert known L st.
  induction p as [|[l s] p IH]; intros known L st HL Hb Hun Hst H.
  - injection HL as <-. injection H as <- <-. exists [].
    split; [reflexivity|]. apply served_nil.
  - cbn [requests] in HL.
    destruct (stmt_requests known l s) as [[L1 known1]|] eqn:Hs;
      [|discriminate HL].
    destruct (requests known1 p) as [L2|] eqn:Hp; [|discriminate HL].
    injection HL as <-.
    assert (Hb1 : forall x, x ∈ stmt_binds s -> x ∉ builtins).
    { intros x Hx. apply Hb. unfold binds. cbn. set_solver. }
    assert (Hb2 : forall x, x ∈ binds p -> x ∉ builtins).
    { intros x Hx. apply Hb. unfold binds. cbn. set_solver. }
    apply exec_block_cons_inv in H as [(st1 & H1 & H)|[H1 Hne]].
    + destruct (asks_stmt known l s L1 known1 _ _ _ Hs Hb1 Hun Hst H1)
        as (Hun1 & Hk1 & evs1 & Ht1 & Hs1).
      destruct (IH known1 L2 st1 Hp Hb2 Hun1 (Hk1 eq_refl) H)
        as (evs2 & Ht2 & Hs2).
      exists (evs1 ++ evs2).
      rewrite rev_app_distr, <- app_assoc, <- Ht1, Ht2, method_calls_app.
      split; [reflexivity|]. by apply served_app.
    + destruct (asks_stmt known l s L1 known1 _ _ _ Hs Hb1 Hun Hst H1)
        as (_ & _ & evs1 & Ht1 & Hs1).
      exists evs1. split; [assumption|].
      assert (Hr : is_ok r = false) by (by destruct r as [[]| |]).
      rewrite Hr in *. by apply served_stop.
Qed.

End Programs.

(** *** The method calls of the query script *)

(** The queries on the mapping, lines 6 to 36, as the text has them;
    [obj] is what is known of the object. *)
Definition query_requests (obj : option value) : list request :=
  [Request 6 obj "most_similar" []
     [("positive", VList [VStr "woman"; VStr "king"]);
      ("negative", VList [VStr "man"])];
   Request 10 obj "most_similar_cosmul" []
     [("positive", VList [VStr "woman"; VStr "king"]);
      ("negative", VList [VStr "man"])];
   Request 14 obj "doesnt_match"
     [VList [VStr "breakfast"; VStr "cereal"; VStr "dinner"; VStr "lunch"]]
     [];
   Request 17 obj "similarity" [VStr "woman"; VStr "man"] [];
   Request 21 obj "similar_by_word" [VStr "cat"] [];
   Request 28 obj "wmdistance"
     [VList [VStr "obama"; VStr "speaks"; VStr "to"; VStr "the";
             VStr "media"; VStr "in"; VStr "illinois"];
      VList [VStr "the"; VStr "president"; VStr "greets"; VStr "the";
             VStr "press"; VStr "in"; VStr "chicago"]]
     [];
   Request 32 obj "distance" [VStr "media"; VStr "media"] [];
   Request 36 obj "n_similarity"
     [VList [VStr "sushi"; VStr "shop"];
      VList [VStr "japanese"; VStr "restaurant"]]
     []].

Definition load_request : request :=
  Request 4 None "load" [VStr "glove-wiki-gigaword-100"] [].

Definition word_vec_request : request :=
  Request 44 None "word_vec" [VStr "office"] [("use_norm", VBool true)].

(** All the method calls of [gs_similarity.py]. *)
Definition similarity_requests : list request :=
  load_request :: query_requests None ++ [word_vec_request].

(** A call without its object. *)
Definition call_shape (c : method_call)
  : nat * string * list value * list (string * value) :=
  (call_line c, call_name c, call_args c, call_kwargs c).

Definition request_shape (rq : request)
  : nat * string * list value * list (string * value) :=
  (req_line rq, req_name rq, req_args rq, req_kwargs rq).

Lemma meets_shape rqs cs :
  Forall2 meets rqs cs -> request_shape <$> rqs = call_shape <$> cs.
Proof.
  induction 1 as [|rq c rqs cs (H1 & H2 & H3 & H4 & _) _ IH]; [reflexivity|].
  rewrite !fmap_cons, IH. unfold request_shape, call_shape.
  by rewrite H1, H2, H3, H4.
Qed.

Lemma served_shape L cs complete :
  served L cs complete ->
  call_shape <$> cs `prefix_of` request_shape <$> L
  /\ (complete = true -> call_shape <$> cs = request_shape <$> L).
Proof.
  intros (d & r & -> & H & Hr). rewrite fmap_app, (meets_shape d cs H).
  split; [by eexists|]. intros Hc. rewrite (Hr Hc), fmap_nil.
  by rewrite app_nil_r.
Qed.

Lemma requests_upto_50 :
  requests ∅ (upto 50 gs_similarity) = Some similarity_requests.
Proof. vm_compute. reflexivity. Qed.

Lemma requests_upto_46 :
  requests ∅ (upto 46 gs_similarity) = Some similarity_requests.
Proof. vm_compute. reflexivity. Qed.

Lemma requests_after_4 (wv : value) :
  requests {["word_vectors" := wv]} (after 4 (upto 50 gs_similarity))
  = Some (query_requests (Some wv) ++ [word_vec_request]).
Proof. vm_compute. reflexivity. Qed.

Section Calls.

Variable lib : library.

(** The events of a run of the query script are those of lines 2 to
    50. *)
Lemma events_upto_50 w :
  events lib gs_similarity w
  = rev (trace (exec_block lib (upto 50 gs_similarity) (initial w)).2).
Proof.
  unfold events, run. rewrite exec_gs_similarity. unfold bind.
  destruct (exec_block lib (upto 50 gs_similarity) (initial w))
    as [r1 st1] eqn:E.
  destruct (head_post lib _ _ _ (unshadowed_initial w) E)
    as [(Henv & _) _].
  assert (Hm : env st1 !! "model" = None).
  { rewrite Henv; [apply lookup_empty|]. compute_done. }
  destruct r1 as [[]|l o e|]; [rewrite (evaluation_stops lib st1 Hm)| |];
    reflexivity.
Qed.

Lemma block_calls (p : program) L w :
  requests ∅ p = Some L -> keeps_builtins p ->
  served L (method_calls (rev (trace (exec_block lib p (initial w)).2)))
         (is_ok (exec_block lib p (initial w)).1).
Proof.
  intros HL Hb.
  destruct (exec_block lib p (initial w)) as [r st] eqn:E.
  assert (Hb' : forall x, x ∈ binds p -> x ∉ builtins).
  { intros x Hx Hin. unfold keeps_builtins in Hb.
    rewrite Forall_forall in Hb. by apply (Hb x). }
  destruct (asks_block lib p ∅ L (initial w) r st HL Hb'
              (unshadowed_initial w) (map_empty_subseteq _) E)
    as (evs & Ht & Hs).
  cbn [fst snd]. rewrite Ht. cbn [initial trace].
  by rewrite app_nil_r, rev_involutive.
Qed.

End Calls.

(** X1.  The method calls that reach the library in a run of
    [gs_similarity.py] are the first ones of a fixed list of ten,
    with the arguments that the text of the script gives them,
    whatever the library answers; they are all ten when the
    statements up to line 46 complete. *)
Theorem similarity_calls_fixed (lib : library) (w : world) :
  let calls := call_shape <$> method_calls (events lib gs_similarity w) in
  calls `prefix_of` request_shape <$> similarity_requests
  /\ ((exec_block lib (upto 46 gs_similarity) (initial w)).1 = Ok tt ->
      calls = request_shape <$> similarity_requests).
Proof.
  cbv zeta.
  assert (Hb50 : keeps_builtins (upto 50 gs_similarity))
    by (unfold keeps_builtins; compute_done).
  assert (Hb46 : keeps_builtins (upto 46 gs_similarity))
    by (unfold keeps_builtins; compute_done).
  pose proof (block_calls lib _ _ w requests_upto_50 Hb50) as H50.
  rewrite <- events_upto_50 in H50.
  apply served_shape in H50 as [Hpre _]. split; [exact Hpre|].
  intros Hok.
  pose proof (block_calls lib _ _ w requests_upto_46 Hb46) as H46.
  rewrite Hok in H46. apply served_shape in H46 as [_ Heq].
  specialize (Heq eq_refl).
  assert (Hsub : rev (trace (exec_block lib (upto 46 gs_similarity)
                               (initial w)).2)
                 `prefix_of` events lib gs_similarity w).
  { apply upto_prefix; [reflexivity|unfold keeps_builtins; compute_done]. }
  destruct Hsub as [k Hk]. rewrite Hk, method_calls_app, fmap_app, Heq in *.
  destruct Hpre as [k' Hk'].
  rewrite <- app_assoc in Hk'.
  rewrite <- (app_nil_r (request_shape <$> similarity_requests)) in Hk' at 1.
  apply app_inv_head in Hk'. symmetry in Hk'.
  apply app_eq_nil in Hk' as [-> _]. by rewrite app_nil_r.
Qed.

Lemma similarity_calls_fixed_witness :
  call_shape <$> method_calls (events Demo.lib gs_similarity Demo.online)
  = request_shape <$> similarity_requests.
Proof.
  apply (similarity_calls_fixed Demo.lib Demo.online).
  vm_compute. reflexivity.
Defined.

(** *** The object of the queries *)

Section Loaded.

Variable lib : library.

(** A block that ends with the assignment of a method call and
    completes: the answer to the call is the newest event, and the
    name holds it. *)
Lemma assigned_answer (pre : program) l x e m args st0 st :
  m ∉ str_methods -> m <> "shape" ->
  exec_block lib (pre ++ [(l, SAssign x (ECall (EAttr e m) args))]) st0
  = (Ok tt, st) ->
  exists obj f a k v wq tr,
    trace st = EvLib l (OpCallMethod obj m f a k) (LOk v) wq :: tr
    /\ env st !! x = Some v.
Proof.
  intros Hm Hshape H. rewrite exec_block_snoc in H.
  destruct (exec_block lib pre st0) as [[[]|? ? ?|] st1]; try discriminate H.
  apply exec_assign_inv in H as (rv & st2 & He & Ht & _ & Hrv).
  destruct rv as [v|? ? ?|]; try (destruct Hrv; discriminate).
  destruct Hrv as [_ Henv].
  apply method_call_answer in He as (obj & f & a & k & w1 & tr & Htr);
    [|assumption|assumption].
  exists obj, f, a, k, v, w1, tr. split; [by rewrite Ht|].
  rewrite Henv. apply lookup_insert_eq.
Qed.

Lemma method_calls_lines (P : nat -> Prop) evs :
  Forall (fun ev => P (ev_line ev)) evs ->
  Forall (fun c => P (call_line c)) (method_calls evs).
Proof.
  induction 1 as [|ev evs Hev _ IH]; [constructor|].
  unfold method_calls in *. cbn [omap list_omap].
  destruct ev as [l [] r w|l s]; cbn [asked]; try exact IH.
  constructor; [exact Hev|exact IH].
Qed.

Lemma served_objects L cs complete (P : nat -> Prop) wv :
  Forall (fun rq => P (req_line rq) -> req_obj rq = Some wv) L ->
  served L cs complete ->
  Forall (fun c => P (call_line c) -> call_obj c = wv) cs.
Proof.
  intros HL (d & r & -> & H & _). apply Forall_app in HL as [Hd _].
  induction H as [|rq c d cs (H1 & _ & _ & _ & H5) _ IH]; [constructor|].
  apply Forall_cons in Hd as [Hrq Hd].
  constructor; [|by apply IH].
  intros Hc. apply H5, Hrq. by rewrite H1.
Qed.

End Loaded.

(** X2.  In a run of [gs_similarity.py] in which the load on line 4
    completes, every method call of lines 6 to 40 is made on the
    object that [load] returned. *)
Theorem queries_address_loaded_mapping (lib : library) (w : world) :
  let loaded := exec_block lib (upto 4 gs_similarity) (initial w) in
  loaded.1 = Ok tt ->
  exists wv obj f a k wq tr,
    trace loaded.2 = EvLib 4 (OpCallMethod obj "load" f a k) (LOk wv) wq :: tr
    /\ Forall (fun c => 6 <= call_line c <= 40 -> call_obj c = wv)
         (method_calls (events lib gs_similarity w)).
Proof.
  cbv zeta. intros Hok.
  destruct (exec_block lib (upto 4 gs_similarity) (initial w))
    as [r4 st4] eqn:E4.
  cbn [fst snd] in *. subst r4.
  assert (Hs4 : forallb (fun ls => simple ls.2) (upto 4 gs_similarity) = true)
    by reflexivity.
  assert (Hb4 : forall x, x ∈ builtins -> x ∉ binds (upto 4 gs_similarity)).
  { apply Forall_forall. compute_done. }
  destruct (exec_block_post lib _ _ _ _ Hs4 Hb4 (unshadowed_initial w) E4)
    as [(_ & evs4 & Ht4 & Hf4 & _) Hun4].
  pose proof E4 as Hload.
  change (upto 4 gs_similarity)
    with ([(2, SImportAs "gensim.downloader" "api")]
          ++ [(4, SAssign "word_vectors"
                    (ECall (EAttr (EName "api") "load")
                       [(Pos, EStr "glove-wiki-gigaword-100")]))]) in Hload.
  apply assigned_answer in Hload
    as (obj & f & a & k & wv & wq & tr & Htr & Henv);
    [|compute_done|discriminate].
  exists wv, obj, f, a, k, wq, tr. split; [exact Htr|].
  rewrite events_upto_50.
  assert (Hsplit : upto 50 gs_similarity
                   = upto 4 gs_similarity ++ after 4 (upto 50 gs_similarity))
    by reflexivity.
  rewrite Hsplit, exec_block_app. unfold bind. rewrite E4.
  destruct (exec_block lib (after 4 (upto 50 gs_similarity)) st4)
    as [r st] eqn:E.
  assert (Hb : forall x,
            x ∈ binds (after 4 (upto 50 gs_similarity)) -> x ∉ builtins).
  { apply Forall_forall. compute_done. }
  destruct (asks_block lib _ _ _ st4 r st (requests_after_4 wv) Hb Hun4)
    as (evs & Ht & Hserved); [|exact E|].
  { by apply map_singleton_subseteq_l. }
  cbn [snd]. rewrite Ht, rev_app_distr, rev_involutive, method_calls_app.
  apply Forall_app. split.
  - assert (Hlines : Forall (fun ev => ev_line ev <= 4) (rev (trace st4))).
    { rewrite Ht4. cbn [initial trace].
      rewrite app_nil_r, rev_involutive.
      eapply Forall_impl; [exact (follows_Forall lib _ _ _ _ Hf4)|].
      intros ev Hev. apply site_line in Hev. revert Hev.
      generalize (ev_line ev). apply Forall_forall. compute_done. }
    eapply Forall_impl;
      [exact (method_calls_lines (fun l => l <= 4) _ Hlines)|].
    intros c Hc [H6 _]. simpl in Hc. lia.
  - apply (served_objects _ _ _ (fun l => 6 <= l <= 40) wv) in Hserved;
      [exact Hserved|].
    unfold query_requests, word_vec_request. cbn [app].
    repeat (apply Forall_cons; split; [intros _; reflexivity|]).
    apply Forall_cons. split; [|constructor].
    cbn [req_line]. lia.
Qed.

Lemma queries_address_loaded_mapping_witness :
  exists wv,
    Forall (fun c => 6 <= call_line c <= 40 -> call_obj c = wv)
      (method_calls (events Demo.lib gs_similarity Demo.online)).
Proof.
  destruct (queries_address_loaded_mapping Demo.lib Demo.online)
    as (wv & _ & _ & _ & _ & _ & _ & _ & H).
  - vm_compute. reflexivity.
  - exists wv. exact H.
Defined.
(** ** What the print statements do with an answer *)

(** The statement of a program on line [l]. *)
Definition statement_at (l : nat) (p : program) : program :=
  List.filter (fun ls => (ls.1 =? l)%nat) p.

Section Prints.

Variable lib : library.

(** [print(e)] where no global shadows [print]: the argument is
    evaluated, and its text is printed. *)
Lemma exec_print line e st :
  unshadowed st ->
  exec lib line (SExpr (print e)) st
  = (do v <- eval lib line e;
     do _ <- call lib line (VBuiltin "print") [v] [];
     ret tt) st.
Proof.
  intros Hun. cbn [exec]. unfold print. unfold bind at 1.
  rewrite eval_call by reflexivity. unfold bind at 1. cbn [eval].
  unfold lookup_name. rewrite (Hun "print") by (unfold builtins; set_solver).
  rewrite bool_decide_eq_true_2 by (unfold builtins; set_solver).
  cbn [eval_args]. unfold bind.
  destruct (eval lib line e st) as [[v|? ? ?|] st1]; reflexivity.
Qed.

(** [fmt.format(args)] on a literal: the arguments are evaluated and
    the text is rendered, without the library. *)
Lemma eval_format line fmt args st :
  eval lib line (method (EStr fmt) "format" args) st
  = (do pk <- eval_args lib line args;
     call lib line (VMethod (VStr fmt) "format") pk.1 pk.2) st.
Proof.
  unfold method. rewrite eval_method. reflexivity.
Qed.

Lemma eval_first line x v st :
  env st !! x = Some v ->
  eval lib line (EIndex (EName x) (EInt 0)) st
  = getitem lib line v (VInt 0) st.
Proof.
  intros Hx. cbn [eval]. unfold bind, lookup_name. rewrite Hx. reflexivity.
Qed.

End Prints.

Lemma append_empty_r (s : string) : s +:+ "" = s.
Proof.
  induction s as [|c s IH]; [reflexivity|].
  change (String c (s +:+ "") = String c s). by rewrite IH.
Qed.

(** The two format strings of the script. *)
Lemma parse_pair_format :
  parse_format None "{}: {:.4f}"
  = Some [PField ""; PText ":"; PText " "; PField ":.4f"].
Proof. vm_compute. reflexivity. Qed.

Lemma parse_field_fixed :
  parse_field ":.4f" = Some (FFixed 4) /\ parse_field ":.1f" = Some (FFixed 1).
Proof. split; vm_compute; reflexivity. Qed.

(** A word and a number under [{}: {:.4f}]. *)
Lemma format_pair line (word : string) (x : float) (st : state) :
  str_format line "{}: {:.4f}" [VStr word; VFloat x] st
  = (Ok (VStr (word +:+ ": " +:+ PyStr.format_fixed 4 x)), st).
Proof.
  unfold str_format. rewrite parse_pair_format.
  cbn [render]. rewrite (proj1 parse_field_fixed).
  change (parse_field "") with (Some FDefault).
  cbn [format_value py_str]. unfold bind, ret.
  by rewrite append_empty_r.
Qed.

Lemma seq_index_first {A} (a : A) (l : list A) : seq_index (a :: l) 0 = Some a.
Proof.
  unfold seq_index. cbn [List.length].
  rewrite Nat2Z.inj_succ.
  assert (H : (0 <? Z.succ (Z.of_nat (List.length l)))%Z = true).
  { apply Z.ltb_lt. lia. }
  rewrite H. reflexivity.
Qed.

Lemma print_pair_lines l :
  l ∈ [7; 11; 22] ->
  statement_at l gs_similarity = [(l, SExpr (print show_pair))].
Proof.
  intros Hl. repeat (apply elem_of_cons in Hl as [->|Hl]);
    [reflexivity..|inversion Hl].
Qed.

(** X3.  If the list of neighbours that [result] holds is empty, the
    print statement that follows the query (lines 7, 11 and 22)
    raises [IndexError] in the script's own frame, for [result[0]];
    nothing is printed and nothing is asked of the library. *)
Theorem no_neighbours_index_error (lib : library) (l : nat) (st : state) :
  l ∈ [7; 11; 22] ->
  unshadowed st ->
  env st !! "result" = Some (VList []) ->
  exec_block lib (statement_at l gs_similarity) st
  = (Raised l InScript (Exn "IndexError" "list index out of range"), st).
Proof.
  intros Hl Hun Hres. rewrite (print_pair_lines l Hl).
  cbn [exec_block]. unfold bind at 1.
  rewrite exec_print by assumption. unfold bind at 1.
  unfold show_pair. rewrite eval_format. unfold bind at 1.
  cbn [eval_args]. unfold bind at 1.
  rewrite (eval_first lib l "result" _ st Hres). reflexivity.
Qed.

(** X4.  If [result] holds a list whose first entry is a pair of a word
    and a number, the statement prints the word, a colon and the
    number with four decimals, on one line; the other entries are
    not looked at, and nothing is asked of the library. *)
Theorem first_neighbour_printed (lib : library) (l : nat) (st : state)
    (word : string) (x : float) (others : list value) :
  l ∈ [7; 11; 22] ->
  unshadowed st ->
  env st !! "result" = Some (VList (VTuple [VStr word; VFloat x] :: others)) ->
  exec_block lib (statement_at l gs_similarity) st
  = (Ok tt,
     State (env st) (wld st)
       (EvPrint l (word +:+ ": " +:+ PyStr.format_fixed 4 x) :: trace st)).
Proof.
  intros Hl Hun Hres. rewrite (print_pair_lines l Hl).
  cbn [exec_block]. unfold bind at 1.
  rewrite exec_print by assumption. unfold bind at 1.
  unfold show_pair. rewrite eval_format. unfold bind at 1.
  cbn [eval_args]. unfold bind at 1.
  rewrite (eval_first lib l "result" _ st Hres).
  cbn [getitem as_index]. rewrite seq_index_first.
  unfold ret at 1. cbn [unpack]. unfold bind at 1, ret at 1.
  unfold bind at 1, ret at 1. unfold ret at 1. cbn [app fst snd].
  unfold bind at 1.
  change (call lib l (VMethod (VStr "{}: {:.4f}") "format")
            [VStr word; VFloat x] [])
    with (str_format l "{}: {:.4f}" [VStr word; VFloat x]).
  rewrite format_pair. reflexivity.
Qed.

Lemma no_neighbours_index_error_witness :
  exec_block Demo.lib (statement_at 7 gs_similarity)
    (State (<["result" := VList []]> ∅) Demo.online [])
  = (Raised 7 InScript (Exn "IndexError" "list index out of range"),
     State (<["result" := VList []]> ∅) Demo.online []).
Proof.
  apply (no_neighbours_index_error Demo.lib 7).
  - constructor.
  - intros x ->%list_elem_of_singleton. reflexivity.
  - reflexivity.
Defined.

Lemma first_neighbour_printed_witness :
  let answer := VList [VTuple [VStr "queen"; VFloat 0.75%float];
                       VTuple [VStr "monarch"; VFloat 0.5%float]] in
  (exec_block Demo.lib (statement_at 22 gs_similarity)
     (State (<["result" := answer]> ∅) Demo.online [])).1
  = Ok tt.
Proof.
  intros answer.
  rewrite (first_neighbour_printed Demo.lib 22 _ "queen" 0.75%float
             [VTuple [VStr "monarch"; VFloat 0.5%float]]).
  - reflexivity.
  - repeat constructor.
  - intros x ->%list_elem_of_singleton. reflexivity.
  - reflexivity.
Defined.

(** The statements that print a number: the line, the name that is
    printed, the number of decimals. *)
Definition number_prints : list (nat * string * nat) :=
  [(29, "similarity", 4); (33, "distance", 1); (37, "sim", 4)].

Lemma number_print_lines l x prec :
  (l, x, prec) ∈ number_prints ->
  exists fmt,
    statement_at l gs_similarity = [(l, SExpr (print (show_float fmt x)))]
    /\ parse_format None fmt
       = Some [PField (String ":" (String "."
                 (PyStr.of_int (Z.of_nat prec) +:+ "f")))].
Proof.
  intros H. unfold number_prints in H.
  repeat (apply elem_of_cons in H as [[= -> -> ->]|H]);
    [exists "{:.4f}"|exists "{:.1f}"|exists "{:.4f}"|inversion H];
    split; vm_compute; reflexivity.
Qed.

(** X5.  If the name holds a number (a [float]), the statement prints it
    with the decimals of its format, four or one, and asks nothing
    of the library; if the name holds a string, it raises
    [ValueError] in the script's own frame. *)
Theorem number_printed (lib : library) (l : nat) (x : string) (prec : nat)
    (st : state) :
  (l, x, prec) ∈ number_prints ->
  unshadowed st ->
  (forall y, env st !! x = Some (VFloat y) ->
     exec_block lib (statement_at l gs_similarity) st
     = (Ok tt,
        State (env st) (wld st)
          (EvPrint l (PyStr.format_fixed prec y) :: trace st)))
  /\ (forall s, env st !! x = Some (VStr s) ->
       exec_block lib (statement_at l gs_similarity) st
       = (Raised l InScript
            (Exn "ValueError"
               "Unknown format code 'f' for object of type 'str'"), st)).
Proof.
  intros Hl Hun.
  destruct (number_print_lines l x prec Hl) as (fmt & -> & Hfmt).
  assert (Hfield : parse_field (String ":" (String "."
                     (PyStr.of_int (Z.of_nat prec) +:+ "f")))
                   = Some (FFixed prec)).
  { unfold number_prints in Hl.
    repeat (apply elem_of_cons in Hl as [[= -> -> ->]|Hl]);
      [..|inversion Hl]; vm_compute; reflexivity. }
  assert (Hexec : forall v, env st !! x = Some v ->
          exec_block lib [(l, SExpr (print (show_float fmt x)))] st
          = (do s <- format_value l (FFixed prec) v;
             do _ <- call lib l (VBuiltin "print") [VStr (s +:+ "")] [];
             ret tt) st).
  { intros v Hx. cbn [exec_block]. unfold bind at 1.
    rewrite exec_print by assumption. unfold bind at 1.
    unfold show_float. rewrite eval_format. unfold bind at 1.
    cbn [eval_args eval]. unfold bind at 1. unfold lookup_name. rewrite Hx.
    unfold bind at 1, ret at 1. unfold ret at 1. cbn [fst snd].
    change (call lib l (VMethod (VStr fmt) "format") [v] [])
      with (str_format l fmt [v]).
    unfold str_format. rewrite Hfmt. cbn [render]. rewrite Hfield.
    unfold bind, ret.
    destruct (format_value l (FFixed prec) v st) as [[s|? ? ?|] st1];
      reflexivity. }
  split.
  - intros y Hx. rewrite (Hexec _ Hx). cbn [format_value].
    unfold bind, ret. rewrite append_empty_r. reflexivity.
  - intros s Hx. rewrite (Hexec _ Hx). reflexivity.
Qed.

Lemma number_printed_witness :
  exec_block Demo.lib (statement_at 33 gs_similarity)
    (State (<["distance" := VFloat 0.25%float]> ∅) Demo.online [])
  = (Ok tt,
     State (<["distance" := VFloat 0.25%float]> ∅) Demo.online
       [EvPrint 33 (PyStr.format_fixed 1 0.25%float)]).
Proof.
  assert (Hl : (33, "distance", 1) ∈ number_prints) by repeat constructor.
  assert (Hun : unshadowed
            (State (<["distance" := VFloat 0.25%float]> ∅) Demo.online [])).
  { intros x ->%list_elem_of_singleton. reflexivity. }
  exact (proj1 (number_printed Demo.lib 33 "distance" 1 _ Hl Hun)
           0.25%float eq_refl).
Defined.
(** ** The string methods of the scripts *)

Module PyStrFacts.

Import PyStr.

Lemma is_space_lower c : is_space (lower_ascii c) = is_space c.
Proof. by destruct c as [[] [] [] [] [] [] [] []]. Qed.

Lemma lower_of_list l :
  lower (string_of_list_ascii l) = string_of_list_ascii (lower_ascii <$> l).
Proof.
  induction l as [|c l IH]; [reflexivity|]. cbn. by rewrite IH.
Qed.

Lemma fmap_rev {A B} (f : A -> B) (l : list A) : f <$> rev l = rev (f <$> l).
Proof.
  induction l as [|a l IH]; [reflexivity|].
  cbn [rev]. rewrite fmap_app, IH. reflexivity.
Qed.

Lemma elem_of_rev {A} (x : A) (l : list A) : x ∈ rev l -> x ∈ l.
Proof. rewrite !list_elem_of_In. apply in_rev. Qed.

Lemma split_go_lower cur s :
  split_go (lower_ascii <$> cur) (lower s) = lower <$> split_go cur s.
Proof.
  revert cur. induction s as [|c s IH]; intros cur.
  - destruct cur as [|a cur]; [reflexivity|]. cbn [split_go lower].
    rewrite fmap_cons. cbn [fmap list_fmap].
    rewrite lower_of_list, fmap_rev. reflexivity.
  - cbn [split_go lower]. rewrite is_space_lower.
    destruct (is_space c).
    + destruct cur as [|a cur].
      * apply (IH []).
      * rewrite fmap_cons. cbn [fmap list_fmap].
        rewrite lower_of_list, fmap_rev. f_equal. apply (IH []).
    + apply (IH (c :: cur)).
Qed.

(** A word: not empty, and free of whitespace. *)
Definition word (t : string) : Prop :=
  t <> "" /\ forall c, c ∈ list_ascii_of_string t -> is_space c = false.

Lemma word_of_list a cur :
  (forall c, c ∈ a :: cur -> is_space c = false) ->
  word (string_of_list_ascii (rev (a :: cur))).
Proof.
  intros H. split.
  - intros Heq. apply (f_equal list_ascii_of_string) in Heq.
    rewrite list_ascii_of_string_of_list_ascii in Heq.
    cbn in Heq. by destruct (rev cur).
  - intros c. rewrite list_ascii_of_string_of_list_ascii.
    intros Hc%elem_of_rev. by apply H.
Qed.

Lemma split_go_words cur s :
  (forall c, c ∈ cur -> is_space c = false) ->
  Forall word (split_go cur s).
Proof.
  revert cur. induction s as [|c s IH]; intros cur Hcur; cbn [split_go].
  - destruct cur as [|a cur]; [constructor|].
    constructor; [by apply word_of_list|constructor].
  - destruct (is_space c) eqn:Hc.
    + assert (Hrest : Forall word (split_go [] s)).
      { apply IH. intros x Hx. inversion Hx. }
      destruct cur as [|a cur]; [exact Hrest|].
      constructor; [by apply word_of_list|exact Hrest].
    + apply IH. intros x [->|Hx]%elem_of_cons; auto.
Qed.

End PyStrFacts.

(** X6.  [s.lower().split()], as on lines 25 and 26, for any text [s]
    of the ASCII range: the words are those of [s.split()], each in
    lower case; and a word of [split()] is never empty and holds no
    whitespace. *)
Theorem lower_then_split (s : string) :
  PyStr.split (PyStr.lower s) = PyStr.lower <$> PyStr.split s
  /\ Forall PyStrFacts.word (PyStr.split s)
  /\ Forall PyStrFacts.word (PyStr.split (PyStr.lower s)).
Proof.
  split; [apply (PyStrFacts.split_go_lower [])|].
  split; apply PyStrFacts.split_go_words; intros c Hc; inversion Hc.
Qed.

(** *** Numbers in fixed-point notation *)

Module FixedFacts.

Import PyStr.

Local Open Scope Z_scope.

Definition is_digit (c : ascii) : bool :=
  let n := nat_of_ascii c in ((48 <=? n) && (n <=? 57))%nat.

Lemma digit_char_digit d : 0 <= d < 10 -> is_digit (digit_char d) = true.
Proof.
  intros Hd.
  assert (H : d = 0 \/ d = 1 \/ d = 2 \/ d = 3 \/ d = 4 \/ d = 5 \/ d = 6
              \/ d = 7 \/ d = 8 \/ d = 9) by lia.
  repeat destruct H as [->|H]; try reflexivity. by subst.
Qed.

Lemma digits_go_digits fuel n acc :
  0 <= n -> Forall (fun c => is_digit c = true) acc ->
  Forall (fun c => is_digit c = true) (digits_go fuel n acc).
Proof.
  revert n acc. induction fuel as [|fuel IH]; intros n acc Hn Hacc;
    cbn [digits_go]; [exact Hacc|].
  destruct (n <? 10) eqn:Hlt.
  - apply Z.ltb_lt in Hlt. constructor; [|exact Hacc].
    apply digit_char_digit. lia.
  - apply IH.
    + apply Z.div_pos; lia.
    + constructor; [|exact Hacc]. apply digit_char_digit.
      apply Z.mod_pos_bound. lia.
Qed.

(** Digits, a point, and [prec] digits. *)
Definition fixed_text (prec : nat) (s : string) : Prop :=
  exists ip fp,
    s = string_of_list_ascii (ip ++ "."%char :: fp)%list
    /\ ip <> [] /\ List.length fp = prec
    /\ Forall (fun c => is_digit c = true) (ip ++ fp)%list.

Lemma fixed_of_scaled_text p n :
  0 <= n -> fixed_text (S p) (fixed_of_scaled (S p) n).
Proof.
  intros Hn. unfold fixed_of_scaled.
  set (ds := (repeat "0"%char (S (S p) - List.length (digits n))
              ++ digits n)%list).
  assert (Hlen : (S (S p) <= List.length ds)%nat).
  { unfold ds. rewrite length_app, repeat_length. lia. }
  assert (Hds : Forall (fun c => is_digit c = true) ds).
  { unfold ds. apply Forall_app. split.
    - apply Forall_forall. intros c Hc%list_elem_of_In.
      by apply repeat_spec in Hc as ->.
    - apply digits_go_digits; [exact Hn|constructor]. }
  set (k := (List.length ds - S p)%nat).
  exists (take k ds), (drop k ds). split; [reflexivity|].
  split; [|split].
  - intros Heq.
    assert (Hk : List.length (take k ds) = k)
      by (rewrite length_take; unfold k; lia).
    rewrite Heq in Hk. cbn [List.length] in Hk. unfold k in Hk. lia.
  - rewrite length_drop. unfold k. lia.
  - by rewrite take_drop.
Qed.

Lemma round_half_even_nonneg num den :
  0 <= num -> 0 < den -> 0 <= round_half_even num den.
Proof.
  intros Hn Hd. unfold round_half_even.
  assert (0 <= num / den) by (apply Z.div_pos; lia).
  destruct (_ || _); lia.
Qed.

End FixedFacts.

(** X7.  The text of a number under [{:.4f}] and [{:.1f}] (any positive
    number of decimals): [nan], [inf] or [-inf], or else an optional
    minus sign, at least one digit, a point, and exactly that many
    digits. *)
Theorem format_fixed_decimals (p : nat) (x : float) :
  PyStr.format_fixed (S p) x ∈ ["nan"; "inf"; "-inf"]
  \/ exists body,
       FixedFacts.fixed_text (S p) body
       /\ (PyStr.format_fixed (S p) x = body
           \/ PyStr.format_fixed (S p) x = String "-" body).
Proof.
  unfold PyStr.format_fixed.
  destruct (Prim2SF x) as [s|s| |s m e].
  - right. eexists. split; [|destruct s; [right|left]; reflexivity].
    apply FixedFacts.fixed_of_scaled_text. lia.
  - left. destruct s; set_solver.
  - left. set_solver.
  - right. eexists. split; [|destruct s; [right|left]; reflexivity].
    apply FixedFacts.fixed_of_scaled_text.
    assert (Hp : (0 <= 10 ^ Z.of_nat (S p))%Z) by (apply Z.pow_nonneg; lia).
    destruct (0 <=? e)%Z eqn:He.
    + apply Z.leb_le in He.
      assert (0 <= 2 ^ e)%Z by (apply Z.pow_nonneg; lia). nia.
    + apply FixedFacts.round_half_even_nonneg; [nia|].
      apply Z.pow_pos_nonneg; lia.
Qed.
(** ** The globals of the scripts *)

Definition similarity_globals : list string :=
  ["api"; "word_vectors"; "result"; "similarity"; "sentence_obama";
   "sentence_president"; "distance"; "sim"; "vector"; "datapath"].

Definition train_globals : list string :=
  ["common_texts"; "Word2Vec"; "model"; "word_vectors"].

Section Globals.

Variable lib : library.

(** The state in which the query script ends is the one that the
    statements of lines 2 to 50 leave. *)
Lemma run_upto_50 w :
  (run lib gs_similarity w).2
  = (exec_block lib (upto 50 gs_similarity) (initial w)).2.
Proof.
  unfold run. rewrite exec_gs_similarity. unfold bind.
  destruct (exec_block lib (upto 50 gs_similarity) (initial w))
    as [r1 st1] eqn:E.
  destruct (head_post lib _ _ _ (unshadowed_initial w) E)
    as [(Henv & _) _].
  assert (Hm : env st1 !! "model" = None).
  { rewrite Henv; [apply lookup_empty|]. compute_done. }
  destruct r1 as [[]|l o e|]; [rewrite (evaluation_stops lib st1 Hm)| |];
    reflexivity.
Qed.

Lemma block_globals (p : program) w x v :
  forallb (fun ls => simple ls.2) p = true -> keeps_builtins p ->
  env (exec_block lib p (initial w)).2 !! x = Some v -> x ∈ binds p.
Proof.
  intros Hs Hb Hx.
  destruct (exec_block lib p (initial w)) as [r st] eqn:E.
  assert (Hb' : forall y, y ∈ builtins -> y ∉ binds p).
  { unfold keeps_builtins in Hb. rewrite Forall_forall in Hb. exact Hb. }
  destruct (exec_block_post lib p _ _ _ Hs Hb' (unshadowed_initial w) E)
    as [(Henv & _) _].
  destruct (decide (x ∈ binds p)) as [Hin|Hout]; [exact Hin|].
  cbn [snd] in Hx. rewrite (Henv x Hout) in Hx.
  cbn [initial env] in Hx. by rewrite lookup_empty in Hx.
Qed.

End Globals.

(** X8.  Whatever the library does, the only globals that a run of a
    script defines are the names that the script assigns or imports:
    ten names in [gs_similarity.py] (not [model], [similarities] or
    [analogy_scores]), four in [gs_train_model.py]; and no run
    rebinds [print]. *)
Theorem scripts_globals (lib : library) (w : world) :
  (forall x v, env (run lib gs_similarity w).2 !! x = Some v ->
     x ∈ similarity_globals)
  /\ (forall x v, env (run lib gs_train_model w).2 !! x = Some v ->
        x ∈ train_globals)
  /\ unshadowed (run lib gs_similarity w).2
  /\ unshadowed (run lib gs_train_model w).2.
Proof.
  assert (H1 : forall x v, env (run lib gs_similarity w).2 !! x = Some v ->
                 x ∈ similarity_globals).
  { intros x v. rewrite run_upto_50. intros Hx.
    apply block_globals in Hx;
      [|reflexivity|unfold keeps_builtins; compute_done].
    revert x Hx. apply Forall_forall. compute_done. }
  assert (H2 : forall x v, env (run lib gs_train_model w).2 !! x = Some v ->
                 x ∈ train_globals).
  { intros x v Hx.
    assert (Hrun : (run lib gs_train_model w).2
                   = (exec_block lib gs_train_model (initial w)).2).
    { unfold run.
      by destruct (exec_block lib gs_train_model (initial w))
        as [[[]|? ? ?|] ?]. }
    rewrite Hrun in Hx.
    apply block_globals in Hx;
      [|reflexivity|unfold keeps_builtins; compute_done].
    revert x Hx. apply Forall_forall. compute_done. }
  split; [exact H1|]. split; [exact H2|].
  split; intros x ->%list_elem_of_singleton.
  - destruct (env (run lib gs_similarity w).2 !! "print") as [v|] eqn:E;
      [|reflexivity].
    apply H1 in E. revert E. compute_done.
  - destruct (env (run lib gs_train_model w).2 !! "print") as [v|] eqn:E;
      [|reflexivity].
    apply H2 in E. revert E. compute_done.
Qed.

(** ** The mapping of the training script *)

Section Trained.

Variable lib : library.

(** An attribute read off a name and assigned, as on line 5: when
    the block completes, the name held an object of the library, the
    lookup on it is the newest event, and its answer is what the
    assigned name holds. *)
Lemma assigned_attribute (pre : program) l x y name st0 st :
  name ∉ str_methods -> name <> "shape" ->
  exec_block lib (pre ++ [(l, SAssign x (EAttr (EName y) name))]) st0
  = (Ok tt, st) ->
  exists st1 a v wq,
    exec_block lib pre st0 = (Ok tt, st1)
    /\ env st1 !! y = Some (VObj a)
    /\ trace st = EvLib l (OpGetAttr (VObj a) name) (LOk v) wq :: trace st1
    /\ env st = <[x := v]> (env st1).
Proof.
  intros Hm Hshape H. rewrite exec_block_snoc in H.
  destruct (exec_block lib pre st0) as [[[]|? ? ?|] st1]; try discriminate H.
  apply exec_assign_inv in H as (rv & st2 & He & Ht & _ & Hrv).
  destruct rv as [v|? ? ?|]; try (destruct Hrv; discriminate).
  destruct Hrv as [_ Henv]. cbn [eval] in He.
  apply bind_inv in He as [(obj & st3 & Hy & He)|[(?&?&?&_&[=])|(_&[=])]].
  unfold lookup_name in Hy.
  destruct (env st1 !! y) as [o|] eqn:Ey.
  - injection Hy as <- <-.
    destruct (decide (exists a, o = VObj a)) as [[a ->]|Hno].
    + cbn [getattr] in He. apply call_lib_inv in He as [-> Hr].
      unfold after_op in *. cbn [env trace] in *.
      destruct (lib (OpGetAttr (VObj a) name) (wld st1)) as [[v'|e] wq];
        cbn [fst snd] in *; [|discriminate Hr].
      destruct (plain v'); [|discriminate Hr]. injection Hr as ->.
      exists st1, a, v', wq. by rewrite Ht, Henv.
    + rewrite getattr_foreign in He; [discriminate He|assumption..|].
      intros a ->. apply Hno. eauto.
  - destruct (bool_decide (y ∈ builtins)); [|discriminate Hy].
    injection Hy as <- <-. discriminate He.
Qed.

(** A call of a name on arguments that the text tells: when the
    block completes and the name held something that the library
    gave, the call is the newest event, and its answer is what the
    assigned name holds. *)
Lemma assigned_call (pre : program) l x y args pk st0 st st1 f :
  exec_block lib pre st0 = (Ok tt, st1) ->
  env st1 !! y = Some f -> plain f = true ->
  eval_args lib l args st1 = (Ok pk, st1) ->
  exec_block lib (pre ++ [(l, SAssign x (ECall (EName y) args))]) st0
  = (Ok tt, st) ->
  exists v wq,
    trace st = EvLib l (OpCall f pk.1 pk.2) (LOk v) wq :: trace st1
    /\ env st = <[x := v]> (env st1).
Proof.
  intros Hpre Hy Hf Hargs H. rewrite exec_block_snoc, Hpre in H.
  apply exec_assign_inv in H as (rv & st2 & He & Ht & _ & Hrv).
  destruct rv as [v|? ? ?|]; try (destruct Hrv; discriminate).
  destruct Hrv as [_ Henv].
  rewrite eval_call in He by reflexivity. unfold bind in He.
  cbn [eval] in He. unfold lookup_name in He. rewrite Hy, Hargs in He.
  apply call_plain in He; [|exact Hf].
  destruct (library_object f).
  - apply call_lib_inv in He as [-> Hr].
    unfold after_op in *. cbn [env trace] in *.
    destruct (lib (OpCall f pk.1 pk.2) (wld st1)) as [[v'|e] wq];
      cbn [fst snd] in *; [|discriminate Hr].
    destruct (plain v'); [|discriminate Hr]. injection Hr as ->.
    exists v', wq. by rewrite Ht, Henv.
  - destruct He as (_ & e & [=]).
Qed.

End Trained.

(** X9.  In a run of [gs_train_model.py] that completes, the last two
    events are the call of [Word2Vec] on line 4 and the lookup of
    [wv], on line 5, on the object that this call returned; [model]
    holds that object and [word_vectors] the answer to the lookup. *)
Theorem trained_vectors_of_model (lib : library) (w : world) :
  (run lib gs_train_model w).1 = Finished ->
  exists f corpus model vectors w4 w5 tr,
    trace (run lib gs_train_model w).2
    = EvLib 5 (OpGetAttr model "wv") (LOk vectors) w5
      :: EvLib 4 (OpCall f [corpus] hyperparameters) (LOk model) w4 :: tr
    /\ env (run lib gs_train_model w).2 !! "model" = Some model
    /\ env (run lib gs_train_model w).2 !! "word_vectors" = Some vectors.
Proof.
  unfold run.
  destruct (exec_block lib gs_train_model (initial w)) as [r st] eqn:E.
  destruct r as [[]|? ? ?|]; try discriminate. intros _. cbn [fst snd].
  change gs_train_model
    with (upto 4 gs_train_model
          ++ [(5, SAssign "word_vectors" (EAttr (EName "model") "wv"))]) in E.
  apply assigned_attribute in E
    as (st4 & a & vectors & w5 & E4 & Hmodel & Htr & Henv);
    [|compute_done|discriminate].
  change (upto 4 gs_train_model)
    with ([(1, SImportFrom "gensim.test.utils" "common_texts");
           (2, SImportFrom "gensim.models" "Word2Vec")]
          ++ [(4, SAssign "model"
                    (ECall (EName "Word2Vec")
                       [(Pos, EName "common_texts");
                        (Kw "size", EInt 100); (Kw "window", EInt 5);
                        (Kw "min_count", EInt 1);
                        (Kw "workers", EInt 4)]))]) in E4.
  pose proof E4 as E2. rewrite exec_block_snoc in E2.
  destruct (exec_block lib _ (initial w)) as [r2 st2] eqn:Eimp in E2.
  destruct r2 as [[]|? ? ?|]; try discriminate E2. clear E2.
  (* the two imports *)
  assert (Himp : exists corpus f,
            env st2 !! "common_texts" = Some corpus
            /\ env st2 !! "Word2Vec" = Some f /\ plain f = true).
  { apply exec_block_cons_inv in Eimp as [(st1 & H1 & Eimp)|[_ Hne]];
      [|contradiction].
    apply exec_import_from in H1. cbv zeta in H1.
    destruct (lib (OpImportFrom "gensim.test.utils" "common_texts")
                (wld (initial w))).1 as [corpus|]; [|by destruct H1].
    destruct (plain corpus); [|by destruct H1]. destruct H1 as [_ ->].
    apply exec_block_cons_inv in Eimp as [(st1 & H2 & Eimp)|[_ Hne]];
      [|contradiction].
    injection Eimp as <-.
    apply exec_import_from in H2. cbv zeta in H2.
    destruct (lib (OpImportFrom "gensim.models" "Word2Vec") _).1 as [f|];
      [|by destruct H2].
    destruct (plain f) eqn:Hf; [|by destruct H2]. destruct H2 as [_ ->].
    exists corpus, f. cbn [env after_op]. split; [|split; [|exact Hf]].
    - rewrite lookup_insert_ne by discriminate. apply lookup_insert_eq.
    - apply lookup_insert_eq. }
  destruct Himp as (corpus & f & Hc & Hf & Hplain).
  eapply (assigned_call lib _ 4 "model" "Word2Vec" _ ([corpus], hyperparameters))
    in E4 as (model & w4 & Htr4 & Henv4); [|exact Eimp|exact Hf|exact Hplain|].
  - exists f, corpus, (VObj a), vectors, w4, w5, (trace st2).
    rewrite Henv4, lookup_insert_eq in Hmodel. injection Hmodel as ->.
    rewrite Htr, Htr4, Henv, Henv4. repeat split.
    + rewrite lookup_insert_ne by discriminate. apply lookup_insert_eq.
    + apply lookup_insert_eq.
  - cbn [eval_args eval]. unfold bind, lookup_name, ret. rewrite Hc.
    reflexivity.
Qed.

Lemma trained_vectors_of_model_witness :
  exists model vectors,
    env (run Demo.lib gs_train_model Demo.online).2 !! "model" = Some model
    /\ env (run Demo.lib gs_train_model Demo.online).2 !! "word_vectors"
       = Some vectors.
Proof.
  destruct (trained_vectors_of_model Demo.lib Demo.online)
    as (_ & _ & model & vectors & _ & _ & _ & _ & Hm & Hv).
  - vm_compute. reflexivity.
  - eauto.
Defined.

(** ** The vector lookup of the query script *)

Section Lookup.

Variable lib : library.

(** Indexing anything but an object of the library is the
    interpreter's own business. *)
Lemma getitem_foreign line v k :
  (forall a, v <> VObj a) -> state_free (getitem lib line v k).
Proof.
  intros Hv. destruct v; simpl; try apply state_free_raise.
  - destruct (as_index k).
    + destruct (seq_index _ _); auto using @state_free_ret, @state_free_raise.
    + destruct k; auto using @state_free_stuck, @state_free_raise.
  - destruct (as_index k).
    + destruct (seq_index _ _); auto using @state_free_ret, @state_free_raise.
    + destruct k; auto using @state_free_stuck, @state_free_raise.
  - destruct (as_index k).
    + destruct (seq_index _ _); auto using @state_free_ret, @state_free_raise.
    + destruct k; auto using @state_free_stuck, @state_free_raise.
  - destruct k; auto using @state_free_stuck.
    destruct (seq_index _ _); auto using @state_free_ret, @state_free_stuck.
  - by destruct (Hv addr).
Qed.

(** [x = y[key]] for a literal [key]: the only event, if any, is the
    lookup of [key] on what [y] holds. *)
Lemma lookup_events line x y key obj st r st' :
  env st !! y = Some obj ->
  exec lib line (SAssign x (EIndex (EName y) (EStr key))) st = (r, st') ->
  trace st' = trace st
  \/ exists res w',
       trace st' = EvLib line (OpGetItem obj (VStr key)) res w' :: trace st.
Proof.
  intros Hy H.
  apply exec_assign_inv in H as (rv & st1 & He & Ht & _). rewrite Ht.
  cbn [eval] in He. unfold bind at 1 in He. unfold lookup_name in He.
  rewrite Hy in He. unfold bind at 1, ret at 1 in He.
  destruct (decide (exists a, obj = VObj a)) as [[a ->]|Hno].
  - cbn [getitem] in He. apply call_lib_inv in He as [-> _].
    right. unfold after_op. cbn [trace]. eauto.
  - destruct (getitem_foreign line obj (VStr key)) as (r0 & _ & Hr0).
    { intros a ->. apply Hno. eauto. }
    rewrite Hr0 in He. injection He as _ <-. by left.
Qed.

Lemma block_lines (p : program) st r st' :
  forallb (fun ls => simple ls.2) p = true ->
  (forall x, x ∈ builtins -> x ∉ binds p) ->
  unshadowed st ->
  exec_block lib p st = (r, st') ->
  unshadowed st'
  /\ (forall y, y ∉ binds p -> env st' !! y = env st !! y)
  /\ exists evs, trace st' = rev evs ++ trace st
                 /\ Forall (fun ev => ev_line ev ∈ fst <$> p) evs.
Proof.
  intros Hs Hb Hun E.
  destruct (exec_block_post lib p _ _ _ Hs Hb Hun E)
    as [(Henv & evs & Ht & Hf & _) Hun'].
  split; [exact Hun'|]. split; [exact Henv|]. exists evs.
  split; [exact Ht|].
  eapply Forall_impl; [exact (follows_Forall lib _ _ _ _ Hf)|].
  intros ev. apply site_line.
Qed.

End Lookup.

(** X10.  In a run of [gs_similarity.py] in which the load on line 4
    completes, the only thing that line 40 can ask of the library is
    the item ["computer"] of the object that [load] returned. *)
Theorem lookup_on_loaded_mapping (lib : library) (w : world) :
  let loaded := exec_block lib (upto 4 gs_similarity) (initial w) in
  loaded.1 = Ok tt ->
  exists wv obj f a k wq tr,
    trace loaded.2 = EvLib 4 (OpCallMethod obj "load" f a k) (LOk wv) wq :: tr
    /\ Forall (fun ev => ev_line ev = 40 ->
                 exists res w',
                   ev = EvLib 40 (OpGetItem wv (VStr "computer")) res w')
         (events lib gs_similarity w).
Proof.
  cbv zeta. intros Hok.
  destruct (exec_block lib (upto 4 gs_similarity) (initial w))
    as [r4 st4] eqn:E4.
  cbn [fst snd] in *. subst r4.
  destruct (block_lines lib (upto 4 gs_similarity) _ _ _ eq_refl
              ltac:(apply Forall_forall; compute_done)
              (unshadowed_initial w) E4)
    as (Hun4 & _ & evs4 & Ht4 & Hl4).
  pose proof E4 as Hload.
  change (upto 4 gs_similarity)
    with ([(2, SImportAs "gensim.downloader" "api")]
          ++ [(4, SAssign "word_vectors"
                    (ECall (EAttr (EName "api") "load")
                       [(Pos, EStr "glove-wiki-gigaword-100")]))]) in Hload.
  apply assigned_answer in Hload
    as (obj & f & a & k & wv & wq & tr & Htr & Henv);
    [|compute_done|discriminate].
  exists wv, obj, f, a, k, wq, tr. split; [exact Htr|].
  rewrite events_upto_50.
  set (mid := upto 37 (after 4 gs_similarity)).
  set (rest := after 40 (upto 50 gs_similarity)).
  assert (Hsplit : upto 50 gs_similarity
                   = upto 4 gs_similarity
                     ++ mid
                     ++ (40, SAssign "vector"
                               (EIndex (EName "word_vectors")
                                  (EStr "computer"))) :: rest)
    by reflexivity.
  rewrite Hsplit, exec_block_app. unfold bind at 1. rewrite E4.
  rewrite exec_block_app. unfold bind at 1.
  destruct (exec_block lib mid st4) as [r1 st1] eqn:E1.
  destruct (block_lines lib mid _ _ _ eq_refl
              ltac:(apply Forall_forall; compute_done) Hun4 E1)
    as (Hun1 & Henv1 & evs1 & Ht1 & Hl1).
  assert (Hwv : env st1 !! "word_vectors" = Some wv).
  { rewrite Henv1; [exact Henv|]. compute_done. }
  assert (Hnot40 : forall (ls : list nat) evs,
            Forall (fun ev => ev_line ev ∈ ls) evs -> 40 ∉ ls ->
            Forall (fun ev => ev_line ev = 40 ->
                      exists res w',
                        ev = EvLib 40 (OpGetItem wv (VStr "computer")) res w')
                   evs).
  { intros ls evs Hall Hls. eapply Forall_impl; [exact Hall|].
    intros ev Hin Heq. cbn beta in Hin. rewrite Heq in Hin. contradiction. }
  assert (H4 : Forall (fun ev => ev_line ev = 40 ->
                 exists res w',
                   ev = EvLib 40 (OpGetItem wv (VStr "computer")) res w')
                 (rev (trace st1))).
  { rewrite Ht1, Ht4. cbn [initial trace].
    rewrite app_nil_r, rev_app_distr, !rev_involutive.
    apply Forall_app. split.
    - apply (Hnot40 _ _ Hl4). compute_done.
    - apply (Hnot40 _ _ Hl1). compute_done. }
  destruct r1 as [[]|? ? ?|]; cbn [snd]; try exact H4.
  cbn [exec_block]. unfold bind at 1.
  destruct (exec lib 40 _ st1) as [r2 st2] eqn:E2.
  assert (H40 : Forall (fun ev => ev_line ev = 40 ->
                  exists res w',
                    ev = EvLib 40 (OpGetItem wv (VStr "computer")) res w')
                  (rev (trace st2))).
  { destruct (lookup_events lib _ _ _ _ _ _ _ _ Hwv E2)
      as [->|(res & w' & ->)]; [exact H4|].
    cbn [rev]. apply Forall_app. split; [exact H4|].
    constructor; [eauto|constructor]. }
  destruct r2 as [[]|? ? ?|]; cbn [snd]; try exact H40.
  assert (Hun2 : unshadowed st2).
  { assert (E2' : exec_block lib
                    [(40, SAssign "vector"
                            (EIndex (EName "word_vectors") (EStr "computer")))]
                    st1 = (Ok tt, st2)).
    { cbn [exec_block]. unfold bind. by rewrite E2. }
    by destruct (block_lines lib
                   [(40, SAssign "vector"
                           (EIndex (EName "word_vectors") (EStr "computer")))]
                   _ _ _ eq_refl
                   ltac:(apply Forall_forall; compute_done) Hun1 E2'). }
  destruct (exec_block lib rest st2) as [r3 st3] eqn:E3.
  destruct (block_lines lib rest _ _ _ eq_refl
              ltac:(apply Forall_forall; compute_done) Hun2 E3)
    as (_ & _ & evs3 & Ht3 & Hl3).
  cbn [snd]. rewrite Ht3, rev_app_distr, rev_involutive.
  apply Forall_app. split; [exact H40|].
  apply (Hnot40 _ _ Hl3). compute_done.
Qed.

Lemma lookup_on_loaded_mapping_witness :
  exists wv,
    Forall (fun ev => ev_line ev = 40 ->
              exists res w',
                ev = EvLib 40 (OpGetItem wv (VStr "computer")) res w')
      (events Demo.lib gs_similarity Demo.online).
Proof.
  destruct (lookup_on_loaded_mapping Demo.lib Demo.online)
    as (wv & _ & _ & _ & _ & _ & _ & _ & H).
  - vm_compute. reflexivity.
  - exists wv. exact H.
Defined.
